(** * The brush-map core of tb_mcp: data model, parser and writer

    A shallow embedding of [src/tb_mcp/map_types.py], [src/tb_mcp/map_parser.py]
    and [src/tb_mcp/map_writer.py], followed by the properties established
    about them.

    Conventions of the embedding.

    - A Python [str] is a [list ascii]; a character is a code point below 256.
    - A Python [float] is an IEEE-754 binary64 value, taken from the
      specification of floating-point arithmetic of the standard library
      ([spec_float] with [prec = 53], [emax = 1024]).  Integers that Python code
      stores in a float field ([Vec3(0, 0, 0)]) are taken at their float value.
    - A Python exception is a value of [exn]; a function that may raise returns
      a [result].
    - Objects are values: the data model is a tree (a document owns its
      entities, an entity its brushes, a brush its faces), built afresh by the
      parser and by [copy], so in-place mutation is rendered as the function
      from the old tree to the new one. *)

From Stdlib Require Import ZArith NArith PArith List Ascii String Bool Lia Arith.
From Stdlib Require Import Floats.SpecFloat.
From Stdlib Require Import DecimalString DecimalPos DecimalN.
Import ListNotations.

Set Implicit Arguments.

(** ** Strings *)

Definition str := list ascii.

(** [lit "abc"] is the Python literal ["abc"]. *)
Definition lit (s : string) : str := list_ascii_of_string s.

Definition ascii_eqb (a b : ascii) : bool := Ascii.eqb a b.

Fixpoint str_eqb (a b : str) : bool :=
  match a, b with
  | [], [] => true
  | x :: a', y :: b' => ascii_eqb x y && str_eqb a' b'
  | _, _ => false
  end.

(** [c in s] for a one-character string [c]. *)
Definition char_in (c : ascii) (s : str) : bool := existsb (ascii_eqb c) s.

Definition code (c : ascii) : nat := nat_of_ascii c.

(** [str.isspace] on one character: the code points below 256 that Unicode
    classes as whitespace. *)
Definition isspace (c : ascii) : bool :=
  let n := code c in
  ((9 <=? n) && (n <=? 13)) || ((28 <=? n) && (n <=? 32))
  || (n =? 133) || (n =? 160).

Definition NUL : ascii := Ascii.zero.
Definition NL : ascii := ascii_of_nat 10.
Definition CR : ascii := ascii_of_nat 13.
Definition TAB : ascii := ascii_of_nat 9.
Definition QUOTE : ascii := ascii_of_nat 34.
Definition BACKSLASH : ascii := ascii_of_nat 92.

(** ["sep".join(lines)] *)
Fixpoint join (sep : str) (lines : list str) : str :=
  match lines with
  | [] => []
  | [l] => l
  | l :: rest => l ++ sep ++ join sep rest
  end.

(** [s.lstrip(chars)] and [s.rstrip(chars)] *)
Fixpoint lstrip (chars : str) (s : str) : str :=
  match s with
  | c :: s' => if char_in c chars then lstrip chars s' else s
  | [] => []
  end.

Definition rstrip (chars : str) (s : str) : str := rev (lstrip chars (rev s)).

(** [s.replace(old, new)] for a one-character [old]. *)
Definition replace_char (old : ascii) (new : str) (s : str) : str :=
  flat_map (fun c => if ascii_eqb c old then new else [c]) s.

(** [s.split()]: the maximal runs of non-whitespace characters. *)
Fixpoint split_ws_aux (cur : str) (s : str) : list str :=
  match s with
  | [] => match cur with [] => [] | _ => [rev cur] end
  | c :: s' =>
      if isspace c
      then match cur with
           | [] => split_ws_aux [] s'
           | _ => rev cur :: split_ws_aux [] s'
           end
      else split_ws_aux (c :: cur) s'
  end.

Definition split_ws (s : str) : list str := split_ws_aux [] s.

(** [s[start:stop]] for [0 <= start <= stop]. *)
Definition slice (s : str) (start stop : nat) : str :=
  firstn (stop - start) (skipn start s).

(** [str(n)] for an [int]. *)
Definition str_of_N (n : N) : str :=
  list_ascii_of_string (NilEmpty.string_of_uint (N.to_uint n)).

Definition str_of_Z (z : Z) : str :=
  match z with
  | Zneg p => lit "-" ++ str_of_N (Npos p)
  | _ => str_of_N (Z.to_N z)
  end.

(** ** Exceptions *)

(** The text of a [ParseError], by the f-string that builds it. *)
Inductive parse_msg :=
| ExpectedEntityStart (got : ascii)       (* Expected '{' to start entity, got '..' *)
| ExpectedChar (expected got : ascii)     (* Expected '..', got '..' *)
| ExpectedToken (got : ascii)             (* Expected token, got '..' *)
| InvalidNumericValue (token : str)       (* Invalid numeric value in face: .. *)
| InvalidCoordinate (token : str).        (* Invalid coordinate in point: .. *)

Inductive exn :=
| ValueError
| ZeroDivisionError
| OverflowError
| ParseError (message : parse_msg) (line column : nat)
| FuelExhausted.  (* not a Python exception: a loop of the model ran out of fuel *)

Inductive result (A : Type) :=
| Ok (a : A)
| Raise (e : exn).
Arguments Raise {A} e.

Definition bind {A B} (r : result A) (k : A -> result B) : result B :=
  match r with
  | Ok a => k a
  | Raise e => Raise e
  end.

Declare Scope result_scope.
Delimit Scope result_scope with result.
Notation "x <- r ;; k" := (bind r (fun x => k))
  (at level 61, r at next level, right associativity) : result_scope.
Notation "' p <- r ;; k" := (bind r (fun p => k))
  (at level 61, p pattern, r at next level, right associativity) : result_scope.
Open Scope result_scope.

(** ** Python floats *)

Module PyFloat.

Definition prec : Z := 53.
Definition emax : Z := 1024.

Definition float := spec_float.

Definition zero : float := S754_zero false.

Definition add : float -> float -> float := SFadd prec emax.
Definition sub : float -> float -> float := SFsub prec emax.
Definition mul : float -> float -> float := SFmul prec emax.
Definition div : float -> float -> float := SFdiv prec emax.
Definition neg : float -> float := SFopp.
Definition ltb : float -> float -> bool := SFltb.
Definition eqb : float -> float -> bool := SFeqb.

Definition is_zero (x : float) : bool :=
  match x with S754_zero _ => true | _ => false end.

Definition is_nan (x : float) : bool :=
  match x with S754_nan => true | _ => false end.

Definition is_finite (x : float) : bool :=
  match x with S754_zero _ | S754_finite _ _ _ => true | _ => false end.

(** [x / y] on floats: raises on a zero divisor. *)
Definition truediv (x y : float) : result float :=
  if is_zero y then Raise ZeroDivisionError else Ok (div x y).

(** [float(n)] for an [int] within the range of binary64. *)
Definition of_Z (z : Z) : float := binary_normalize prec emax z 0 false.

(** [x / n] for an [int] [n], as a list length is: Python converts [n] and
    raises exactly when [n] is 0. *)
Definition truediv_int (x : float) (n : Z) : result float :=
  if (n =? 0)%Z then Raise ZeroDivisionError else Ok (div x (of_Z n)).

(** [math.sqrt]: raises on a negative argument. *)
Definition sqrt (x : float) : result float :=
  match x with
  | S754_finite true _ _ | S754_infinity true => Raise ValueError
  | _ => Ok (SFsqrt prec emax x)
  end.

(** [a / b] rounded to the nearest integer, ties to even. *)
Definition rne_div (a b : Z) : Z :=
  let q := (a / b)%Z in
  let r := (a mod b)%Z in
  match (2 * r ?= b)%Z with
  | Lt => q
  | Gt => (q + 1)%Z
  | Eq => if Z.even q then q else (q + 1)%Z
  end.

(** The float nearest to [(-1)^neg * num / den], ties to even.  The exponent
    [E] of the last place is read off the size of the quotient (never below
    that of the subnormals), the significand is the quotient by [2^E]
    rounded once, and a significand rounded up to [2^53] moves to the next
    binade. *)
Definition of_ratio (neg : bool) (num den : positive) : float :=
  let Q := ((Zpos num * 2 ^ 1127) / Zpos den)%Z in
  match Q with
  | Zpos _ =>
      let E := Z.max (Zdigits2 Q - 1180) (-1074) in
      let m := rne_div (Zpos num * 2 ^ 1074) (Zpos den * 2 ^ (E + 1074)) in
      let (m', E') := if (m =? 2 ^ 53)%Z then ((2 ^ 52)%Z, (E + 1)%Z) else (m, E) in
      match m' with
      | Zpos p => if (E' <=? 971)%Z then S754_finite neg p E' else S754_infinity neg
      | _ => S754_zero neg
      end
  | _ => S754_zero neg
  end.

(** The float nearest to [(-1)^neg * m * 10^e10]. *)
Definition of_decimal (neg : bool) (m : N) (e10 : Z) : float :=
  match m with
  | N0 => S754_zero neg
  | Npos p =>
      match e10 with
      | Zneg k => of_ratio neg p (10 ^ k)
      | _ => of_ratio neg (p * Z.to_pos (10 ^ e10)) 1
      end
  end.

(** The same conversion by the library's division and normalisation, which
    round once as well. *)
Definition of_decimal_by_division (neg : bool) (m : N) (e10 : Z) : float :=
  match m with
  | N0 => S754_zero neg
  | Npos p =>
      match e10 with
      | Zneg k =>
          SFdiv prec emax (S754_finite neg p 0) (S754_finite false (10 ^ k)%positive 0)
      | _ =>
          let n := (p * Z.to_pos (10 ^ e10))%positive in
          binary_normalize prec emax (if neg then Zneg n else Zpos n) 0 false
      end
  end.

(** *** [float(s)] for a string *)

Definition is_digit (c : ascii) : bool := (48 <=? code c) && (code c <=? 57).

Definition digit_val (c : ascii) : N := N.of_nat (code c - 48).

Definition digits_val (ds : str) : N :=
  fold_left (fun acc c => (10 * acc + digit_val c)%N) ds 0%N.

(** The characters [float] strips at both ends. *)
Definition float_space (c : ascii) : bool :=
  let n := code c in
  ((9 <=? n) && (n <=? 13)) || (n =? 32) || (n =? 133) || (n =? 160).

Fixpoint lstrip_space (s : str) : str :=
  match s with
  | c :: s' => if float_space c then lstrip_space s' else s
  | [] => []
  end.

Definition strip_space (s : str) : str := rev (lstrip_space (rev (lstrip_space s))).

(** [digit (["_"] digit)*], after its first digit. *)
Fixpoint digitpart_tail (s : str) : str * str :=
  match s with
  | c :: r =>
      if is_digit c then let (ds, r') := digitpart_tail r in (c :: ds, r')
      else if ascii_eqb c "_"%char then
        match r with
        | d :: r2 =>
            if is_digit d then let (ds, r') := digitpart_tail r2 in (d :: ds, r')
            else ([], s)
        | [] => ([], s)
        end
      else ([], s)
  | [] => ([], [])
  end.

Definition digitpart (s : str) : option (str * str) :=
  match s with
  | c :: r => if is_digit c then let (ds, r') := digitpart_tail r in Some (c :: ds, r') else None
  | [] => None
  end.

Definition sign_of (s : str) : bool * str :=
  match s with
  | c :: r =>
      if ascii_eqb c "-"%char then (true, r)
      else if ascii_eqb c "+"%char then (false, r)
      else (false, s)
  | [] => (false, [])
  end.

Definition lower (c : ascii) : ascii :=
  if (65 <=? code c) && (code c <=? 90) then ascii_of_nat (code c + 32) else c.

(** [[digitpart] "." digitpart | digitpart ["."]]: integer digits, fraction
    digits and the rest. *)
Definition number (s : str) : option (str * str * str) :=
  match digitpart s with
  | Some (ip, r) =>
      match r with
      | c :: r1 =>
          if ascii_eqb c "."%char then
            match digitpart r1 with
            | Some (fp, r2) => Some (ip, fp, r2)
            | None => Some (ip, [], r1)
            end
          else Some (ip, [], r)
      | [] => Some (ip, [], [])
      end
  | None =>
      match s with
      | c :: r1 =>
          if ascii_eqb c "."%char then
            match digitpart r1 with
            | Some (fp, r2) => Some ([], fp, r2)
            | None => None
            end
          else None
      | [] => None
      end
  end.

(** [("e" | "E") [sign] digitpart], read to the end of the string. *)
Definition exponent (s : str) : option Z :=
  match s with
  | [] => Some 0%Z
  | c :: r =>
      if ascii_eqb (lower c) "e"%char then
        let (eneg, r1) := sign_of r in
        match digitpart r1 with
        | Some (ds, []) =>
            let e := Z.of_N (digits_val ds) in Some (if eneg then (- e)%Z else e)
        | _ => None
        end
      else None
  end.

(** [float(s)]: [None] stands for the [ValueError] Python raises. *)
Definition of_str (s : str) : option float :=
  let (sneg, body) := sign_of (strip_space s) in
  let low := map lower body in
  if str_eqb low (lit "inf") || str_eqb low (lit "infinity") then Some (S754_infinity sneg)
  else if str_eqb low (lit "nan") then Some S754_nan
  else
    match number body with
    | Some (ip, fp, r) =>
        match exponent r with
        | Some e => Some (of_decimal sneg (digits_val (ip ++ fp)) (e - Z.of_nat (List.length fp)))
        | None => None
        end
    | None => None
    end.

(** *** [int(x)] *)

(** Truncation towards zero; NaN and the infinities raise. *)
Definition to_int (x : float) : result Z :=
  match x with
  | S754_zero _ => Ok 0%Z
  | S754_nan => Raise ValueError
  | S754_infinity _ => Raise OverflowError
  | S754_finite s m e =>
      let a := match e with
               | Zneg k => Z.shiftr (Zpos m) (Zpos k)
               | _ => Z.shiftl (Zpos m) e
               end in
      Ok (if s then (- a)%Z else a)
  end.

(** *** [f"{x:.6f}"] *)

(** [m * 2^e * 10^6], rounded to the nearest integer, ties to even. *)
Definition scaled_round (m : positive) (e : Z) : Z :=
  match e with
  | Zneg k => rne_div (Zpos m * 1000000) (2 ^ Zpos k)
  | _ => (Zpos m * 2 ^ e * 1000000)%Z
  end.

Definition digit_char (d : N) : ascii := ascii_of_N (48 + d).

(** The last [w] decimal digits of [n], zero-padded. *)
Fixpoint fixed_digits (w : nat) (n : N) : str :=
  match w with
  | O => []
  | S w' => fixed_digits w' (n / 10)%N ++ [digit_char (n mod 10)%N]
  end.

Definition fixed6 (neg : bool) (n : N) : str :=
  (if neg then lit "-" else []) ++ str_of_N (n / 1000000)%N
    ++ lit "." ++ fixed_digits 6 (n mod 1000000)%N.

Definition format_6f (x : float) : str :=
  match x with
  | S754_nan => lit "nan"
  | S754_infinity s => if s then lit "-inf" else lit "inf"
  | S754_zero s => fixed6 s 0
  | S754_finite s m e => fixed6 s (Z.to_N (scaled_round m e))
  end.

End PyFloat.

Definition float : Type := PyFloat.float.

Definition float_of_str (s : str) : result float :=
  match PyFloat.of_str s with
  | Some v => Ok v
  | None => Raise ValueError
  end.

(** The builtins [min], [max] and [sum] over floats, as CPython evaluates
    them: [min] and [max] keep the first extremal item and raise on an empty
    sequence; [sum] adds from the left, starting at 0. *)
Definition py_min (l : list float) : result float :=
  match l with
  | [] => Raise ValueError
  | a :: l' => Ok (fold_left (fun m v => if PyFloat.ltb v m then v else m) l' a)
  end.

Definition py_max (l : list float) : result float :=
  match l with
  | [] => Raise ValueError
  | a :: l' => Ok (fold_left (fun m v => if PyFloat.ltb m v then v else m) l' a)
  end.

Definition py_sum (l : list float) : float := fold_left PyFloat.add l PyFloat.zero.

Fixpoint map_result {A B} (f : A -> result B) (l : list A) : result (list B) :=
  match l with
  | [] => Ok []
  | a :: l' => b <- f a ;; bs <- map_result f l' ;; Ok (b :: bs)
  end.

(** ** The data model ([map_types.py]) *)

(** *** Vec3 *)

Record Vec3 := { x : float; y : float; z : float }.

(** [Vec3()] and [Vec3(0, 0, 0)] *)
Definition Vec3_zero : Vec3 := {| x := PyFloat.zero; y := PyFloat.zero; z := PyFloat.zero |}.

Definition Vec3_add (a b : Vec3) : Vec3 :=
  {| x := PyFloat.add (x a) (x b); y := PyFloat.add (y a) (y b); z := PyFloat.add (z a) (z b) |}.

Definition Vec3_sub (a b : Vec3) : Vec3 :=
  {| x := PyFloat.sub (x a) (x b); y := PyFloat.sub (y a) (y b); z := PyFloat.sub (z a) (z b) |}.

Definition Vec3_mul (a : Vec3) (scalar : float) : Vec3 :=
  {| x := PyFloat.mul (x a) scalar; y := PyFloat.mul (y a) scalar; z := PyFloat.mul (z a) scalar |}.

Definition Vec3_truediv (a : Vec3) (scalar : float) : result Vec3 :=
  qx <- PyFloat.truediv (x a) scalar ;;
  qy <- PyFloat.truediv (y a) scalar ;;
  qz <- PyFloat.truediv (z a) scalar ;;
  Ok {| x := qx; y := qy; z := qz |}.

Definition Vec3_neg (a : Vec3) : Vec3 :=
  {| x := PyFloat.neg (x a); y := PyFloat.neg (y a); z := PyFloat.neg (z a) |}.

Definition Vec3_dot (a b : Vec3) : float :=
  PyFloat.add (PyFloat.add (PyFloat.mul (x a) (x b)) (PyFloat.mul (y a) (y b)))
              (PyFloat.mul (z a) (z b)).

Definition Vec3_cross (a b : Vec3) : Vec3 :=
  {| x := PyFloat.sub (PyFloat.mul (y a) (z b)) (PyFloat.mul (z a) (y b));
     y := PyFloat.sub (PyFloat.mul (z a) (x b)) (PyFloat.mul (x a) (z b));
     z := PyFloat.sub (PyFloat.mul (x a) (y b)) (PyFloat.mul (y a) (x b)) |}.

Definition Vec3_length (a : Vec3) : result float :=
  PyFloat.sqrt (PyFloat.add (PyFloat.add (PyFloat.mul (x a) (x a)) (PyFloat.mul (y a) (y a)))
                            (PyFloat.mul (z a) (z a))).

(** The literal [1e-10]. *)
Definition epsilon : float := Eval vm_compute in PyFloat.of_decimal false 1 (-10).

Definition Vec3_normalized (a : Vec3) : result Vec3 :=
  length <- Vec3_length a ;;
  if PyFloat.ltb length epsilon then Ok Vec3_zero
  else Vec3_truediv a length.

Definition Vec3_distance (a b : Vec3) : result float := Vec3_length (Vec3_sub a b).

(** [scalar * a] *)
Definition Vec3_rmul (a : Vec3) (scalar : float) : Vec3 := Vec3_mul a scalar.

Definition Vec3_to_list (a : Vec3) : list float := [x a; y a; z a].

Definition Vec3_from_list (coords : list float) : Vec3 :=
  let item i := nth i coords PyFloat.zero in
  if 3 <=? List.length coords then {| x := item 0; y := item 1; z := item 2 |}
  else if List.length coords =? 2 then {| x := item 0; y := item 1; z := PyFloat.zero |}
  else if List.length coords =? 1 then {| x := item 0; y := PyFloat.zero; z := PyFloat.zero |}
  else {| x := PyFloat.zero; y := PyFloat.zero; z := PyFloat.zero |}.

(** *** Face *)

Record Face := {
  point1 : Vec3;
  point2 : Vec3;
  point3 : Vec3;
  texture : str;
  offset_u : float;
  offset_v : float;
  rotation : float;
  scale_u : float;
  scale_v : float
}.

Definition Face_normal (f : Face) : result Vec3 :=
  let v1 := Vec3_sub (point2 f) (point1 f) in
  let v2 := Vec3_sub (point3 f) (point1 f) in
  Vec3_normalized (Vec3_cross v1 v2).

Definition three : float := Eval vm_compute in PyFloat.of_Z 3.
Definition two : float := Eval vm_compute in PyFloat.of_Z 2.

Definition Face_center (f : Face) : result Vec3 :=
  Vec3_truediv (Vec3_add (Vec3_add (point1 f) (point2 f)) (point3 f)) three.

Definition Face_move (f : Face) (offset : Vec3) : Face :=
  {| point1 := Vec3_add (point1 f) offset;
     point2 := Vec3_add (point2 f) offset;
     point3 := Vec3_add (point3 f) offset;
     texture := texture f;
     offset_u := offset_u f; offset_v := offset_v f; rotation := rotation f;
     scale_u := scale_u f; scale_v := scale_v f |}.

Definition Face_copy (f : Face) : Face :=
  {| point1 := {| x := x (point1 f); y := y (point1 f); z := z (point1 f) |};
     point2 := {| x := x (point2 f); y := y (point2 f); z := z (point2 f) |};
     point3 := {| x := x (point3 f); y := y (point3 f); z := z (point3 f) |};
     texture := texture f;
     offset_u := offset_u f; offset_v := offset_v f; rotation := rotation f;
     scale_u := scale_u f; scale_v := scale_v f |}.

(** *** Brush *)

Record Brush := { faces : list Face }.

Definition Brush_bounds (b : Brush) : result (Vec3 * Vec3) :=
  match faces b with
  | [] => Ok (Vec3_zero, Vec3_zero)
  | _ =>
      let all_points := flat_map (fun face => [point1 face; point2 face; point3 face]) (faces b) in
      min_x <- py_min (map x all_points) ;;
      min_y <- py_min (map y all_points) ;;
      min_z <- py_min (map z all_points) ;;
      max_x <- py_max (map x all_points) ;;
      max_y <- py_max (map y all_points) ;;
      max_z <- py_max (map z all_points) ;;
      Ok ({| x := min_x; y := min_y; z := min_z |}, {| x := max_x; y := max_y; z := max_z |})
  end.

Definition Brush_center (b : Brush) : result Vec3 :=
  ' (min_b, max_b) <- Brush_bounds b ;;
  Vec3_truediv (Vec3_add min_b max_b) two.

Definition Brush_move (b : Brush) (offset : Vec3) : Brush :=
  {| faces := map (fun face => Face_move face offset) (faces b) |}.

Definition Brush_face_count (b : Brush) : nat := List.length (faces b).

Definition Brush_copy (b : Brush) : Brush := {| faces := map Face_copy (faces b) |}.

(** *** Entity *)

(** A [dict] from [str] to [str]: keys are unique and keep the order in which
    they were first inserted. *)
Definition dict := list (str * str).

Fixpoint dict_get (d : dict) (k : str) : option str :=
  match d with
  | [] => None
  | (k', v) :: d' => if str_eqb k' k then Some v else dict_get d' k
  end.

(** [d[k] = v] *)
Fixpoint dict_set (d : dict) (k v : str) : dict :=
  match d with
  | [] => [(k, v)]
  | (k', v') :: d' => if str_eqb k' k then (k', v) :: d' else (k', v') :: dict_set d' k v
  end.

Record Entity := {
  classname : str;
  properties : dict;
  brushes : list Brush
}.

Definition truthy (s : str) : bool := match s with [] => false | _ => true end.

Definition Entity_post_init (e : Entity) : Entity :=
  if truthy (classname e)
  then {| classname := classname e;
          properties := dict_set (properties e) (lit "classname") (classname e);
          brushes := brushes e |}
  else e.

(** [Entity(classname=.., properties=.., brushes=..)]: the generated
    [__init__] stores the fields and calls [__post_init__]. *)
Definition Entity_init (classname : str) (properties : dict) (brushes : list Brush) : Entity :=
  Entity_post_init {| classname := classname; properties := properties; brushes := brushes |}.

(** [entity.classname = value]: a plain attribute assignment. *)
Definition Entity_assign_classname (e : Entity) (value : str) : Entity :=
  {| classname := value; properties := properties e; brushes := brushes e |}.

(** The part of the [origin] getter under "Calculate from brush centers". *)
Definition origin_from_brushes (e : Entity) : result (option Vec3) :=
  match brushes e with
  | [] => Ok None
  | _ =>
      centers <- map_result Brush_center (brushes e) ;;
      let n := Z.of_nat (List.length centers) in
      ax <- PyFloat.truediv_int (py_sum (map x centers)) n ;;
      ay <- PyFloat.truediv_int (py_sum (map y centers)) n ;;
      az <- PyFloat.truediv_int (py_sum (map z centers)) n ;;
      Ok (Some {| x := ax; y := ay; z := az |})
  end.

Definition Entity_origin (e : Entity) : result (option Vec3) :=
  match dict_get (properties e) (lit "origin") with
  | Some v =>
      let coords := split_ws v in
      if 3 <=? List.length coords then
        cx <- float_of_str (nth 0 coords []) ;;
        cy <- float_of_str (nth 1 coords []) ;;
        cz <- float_of_str (nth 2 coords []) ;;
        Ok (Some {| x := cx; y := cy; z := cz |})
      else origin_from_brushes e
  | None => origin_from_brushes e
  end.

(** The [origin] setter. *)
Definition Entity_set_origin (e : Entity) (value : Vec3) : result Entity :=
  ix <- PyFloat.to_int (x value) ;;
  iy <- PyFloat.to_int (y value) ;;
  iz <- PyFloat.to_int (z value) ;;
  Ok {| classname := classname e;
        properties := dict_set (properties e) (lit "origin")
                        (str_of_Z ix ++ lit " " ++ str_of_Z iy ++ lit " " ++ str_of_Z iz);
        brushes := brushes e |}.

Definition Entity_move_to (e : Entity) (new_origin : Vec3) : result Entity :=
  current <- Entity_origin e ;;
  let moved :=
    match current, brushes e with
    | Some cur, _ :: _ =>
        let offset := Vec3_sub new_origin cur in
        {| classname := classname e;
           properties := properties e;
           brushes := map (fun brush => Brush_move brush offset) (brushes e) |}
    | _, _ => e
    end in
  Entity_set_origin moved new_origin.

Definition Entity_get_property (e : Entity) (key : str) (default : option str) : option str :=
  match dict_get (properties e) key with
  | Some v => Some v
  | None => default
  end.

Definition Entity_set_property (e : Entity) (key value : str) : Entity :=
  {| classname := if str_eqb key (lit "classname") then value else classname e;
     properties := dict_set (properties e) key value;
     brushes := brushes e |}.

(** [entity.brushes.append(brush)] *)
Definition Entity_append_brush (e : Entity) (b : Brush) : Entity :=
  {| classname := classname e; properties := properties e; brushes := brushes e ++ [b] |}.

Definition Entity_brush_count (e : Entity) : nat := List.length (brushes e).

(** [Entity.bounds]: [None] without brushes, else the box around the bounds
    of the brushes. *)
Definition Entity_bounds (e : Entity) : result (option (Vec3 * Vec3)) :=
  match brushes e with
  | [] => Ok None
  | _ =>
      all_bounds <- map_result Brush_bounds (brushes e) ;;
      let all_mins := map fst all_bounds in
      let all_maxs := map snd all_bounds in
      min_x <- py_min (map x all_mins) ;;
      min_y <- py_min (map y all_mins) ;;
      min_z <- py_min (map z all_mins) ;;
      max_x <- py_max (map x all_maxs) ;;
      max_y <- py_max (map y all_maxs) ;;
      max_z <- py_max (map z all_maxs) ;;
      Ok (Some ({| x := min_x; y := min_y; z := min_z |},
                {| x := max_x; y := max_y; z := max_z |}))
  end.

(** [Entity.copy]: a new [Entity] from the fields, so [__post_init__] runs. *)
Definition Entity_copy (e : Entity) : Entity :=
  Entity_init (classname e) (properties e) (map Brush_copy (brushes e)).

(** *** MapFile *)

Record MapFile := { entities : list Entity }.

Definition MapFile_get_entity_at_index (m : MapFile) (index : Z) : option Entity :=
  if (0 <=? index)%Z && (index <? Z.of_nat (List.length (entities m)))%Z
  then nth_error (entities m) (Z.to_nat index)
  else None.

Definition MapFile_add_entity (m : MapFile) (e : Entity) : MapFile * Z :=
  let entities' := entities m ++ [e] in
  ({| entities := entities' |}, (Z.of_nat (List.length entities') - 1)%Z).

Definition MapFile_entity_count (m : MapFile) : nat := List.length (entities m).

(** [MapFile.worldspawn]: the first entity named [worldspawn] or owning a brush. *)
Definition MapFile_worldspawn (m : MapFile) : option Entity :=
  find (fun entity => str_eqb (classname entity) (lit "worldspawn")
                      || match brushes entity with [] => false | _ => true end)
       (entities m).

(** An optional [str] argument tested as a condition: [None] and the empty
    string are false. *)
Definition given (o : option str) : bool :=
  match o with
  | Some (_ :: _) => true
  | _ => false
  end.

Definition or_empty (o : option str) : str :=
  match o with
  | Some s => s
  | None => []
  end.

(** The body of the loop of [find_entities]: the value of [matches] at its end. *)
Definition entity_matches (classname_ property_key property_value : option str)
                          (entity : Entity) : bool :=
  let matches := true in
  let matches :=
    if given classname_ && negb (str_eqb (classname entity) (or_empty classname_))
    then false else matches in
  let matches :=
    if given property_key then
      match dict_get (properties entity) (or_empty property_key) with
      | None => false
      | Some value =>
          if given property_value && negb (str_eqb value (or_empty property_value))
          then false else matches
      end
    else matches in
  matches.

Definition MapFile_find_entities (m : MapFile)
                                 (classname_ property_key property_value : option str)
  : list Entity :=
  fold_left (fun results entity =>
               if entity_matches classname_ property_key property_value entity
               then results ++ [entity] else results)
            (entities m) [].

(** [MapFile.remove_entity]: [pop(index)] for an index in range. *)
Definition MapFile_remove_entity (m : MapFile) (index : Z) : MapFile * bool :=
  if (0 <=? index)%Z && (index <? Z.of_nat (List.length (entities m)))%Z
  then ({| entities := firstn (Z.to_nat index) (entities m)
                       ++ skipn (S (Z.to_nat index)) (entities m) |}, true)
  else (m, false).

Definition MapFile_brush_count (m : MapFile) : nat :=
  list_sum (map (fun e => List.length (brushes e)) (entities m)).

(** The loop of [MapFile.bounds] that keeps the bounds of the entities that
    have some. *)
Fixpoint collect_bounds (es : list Entity) : result (list (Vec3 * Vec3)) :=
  match es with
  | [] => Ok []
  | entity :: es' =>
      eb <- Entity_bounds entity ;;
      rest <- collect_bounds es' ;;
      Ok (match eb with Some b => b :: rest | None => rest end)
  end.

Definition MapFile_bounds (m : MapFile) : result (option (Vec3 * Vec3)) :=
  match entities m with
  | [] => Ok None
  | _ =>
      all_bounds <- collect_bounds (entities m) ;;
      match all_bounds with
      | [] => Ok None
      | _ =>
          min_x <- py_min (map (fun b => x (fst b)) all_bounds) ;;
          min_y <- py_min (map (fun b => y (fst b)) all_bounds) ;;
          min_z <- py_min (map (fun b => z (fst b)) all_bounds) ;;
          max_x <- py_max (map (fun b => x (snd b)) all_bounds) ;;
          max_y <- py_max (map (fun b => y (snd b)) all_bounds) ;;
          max_z <- py_max (map (fun b => z (snd b)) all_bounds) ;;
          Ok (Some ({| x := min_x; y := min_y; z := min_z |},
                    {| x := max_x; y := max_y; z := max_z |}))
      end
  end.

Definition MapFile_copy (m : MapFile) : MapFile :=
  {| entities := map Entity_copy (entities m) |}.

(** ** The writer ([map_writer.py]) *)

Definition format_float (value : float) : str :=
  let result := PyFloat.format_6f value in
  if char_in "."%char result
  then rstrip (lit ".") (rstrip (lit "0") result)
  else result.

Definition write_point (p : Vec3) : str :=
  lit "( " ++ format_float (x p) ++ lit " " ++ format_float (y p) ++ lit " "
    ++ format_float (z p) ++ lit " )".

Definition write_face (face : Face) : str :=
  write_point (point1 face) ++ lit " "
  ++ write_point (point2 face) ++ lit " "
  ++ write_point (point3 face) ++ lit " "
  ++ texture face ++ lit " "
  ++ format_float (offset_u face) ++ lit " "
  ++ format_float (offset_v face) ++ lit " "
  ++ format_float (rotation face) ++ lit " "
  ++ format_float (scale_u face) ++ lit " "
  ++ format_float (scale_v face).

Definition write_brush (brush : Brush) (indent : str) : str :=
  let lines :=
    [indent ++ lit "{"]
    ++ map (fun face => indent ++ lit "    " ++ write_face face) (faces brush)
    ++ [indent ++ lit "}"] in
  join [NL] lines.

Definition write_entity (entity : Entity) (index : nat) : str :=
  let lines :=
    [lit "{"]
    ++ map (fun kv => let escaped_value := replace_char QUOTE [BACKSLASH; QUOTE] (snd kv) in
                      lit "    " ++ [QUOTE] ++ fst kv ++ [QUOTE] ++ lit " "
                        ++ [QUOTE] ++ escaped_value ++ [QUOTE])
           (properties entity)
    ++ map (fun brush => write_brush brush (lit "    ")) (brushes entity)
    ++ [lit "}"] in
  join [NL] lines.

(** The loop of [write_map_to_string]: [i] is the index [enumerate] gives. *)
Fixpoint write_map_lines (i : nat) (es : list Entity) : list str :=
  match es with
  | [] => []
  | entity :: es' =>
      (if 0 <? i then [[]] else []) ++ [write_entity entity i] ++ write_map_lines (S i) es'
  end.

Definition write_map_to_string (mapfile : MapFile) : str :=
  join [NL] (write_map_lines 0 (entities mapfile)).

(** Files, by path.  [open(path, 'w')] creates or truncates the file and
    [f.write] appends to it. *)
Definition filesystem := list (str * str).

Definition fs_open_w (fs : filesystem) (path : str) : filesystem := dict_set fs path [].

Definition fs_write (fs : filesystem) (path : str) (data : str) : filesystem :=
  match dict_get fs path with
  | Some old => dict_set fs path (old ++ data)
  | None => dict_set fs path data
  end.

Definition write_map (mapfile : MapFile) (filepath : str) (fs : filesystem) : filesystem :=
  let content := write_map_to_string mapfile in
  let fs1 := fs_open_w fs filepath in
  let fs2 := fs_write fs1 filepath content in
  fs_write fs2 filepath [NL].

Definition write_map_file (mapfile : MapFile) (filepath : str) (fs : filesystem) : filesystem :=
  write_map mapfile filepath fs.

(** ** The parser ([map_parser.py]) *)

(** The state of a [MapParser]; [self.length] is [plen]. *)
Record Parser := { source : str; pos : nat; line : nat; column : nat }.

Definition MapParser_init (source : str) : Parser :=
  {| source := source; pos := 0; line := 1; column := 1 |}.

Definition plen (p : Parser) : nat := List.length (source p).

Definition _peek (p : Parser) : ascii :=
  if pos p <? plen p then nth (pos p) (source p) NUL else NUL.

Definition _advance (p : Parser) : ascii * Parser :=
  if plen p <=? pos p then (NUL, p)
  else
    let c := nth (pos p) (source p) NUL in
    (c, {| source := source p;
           pos := pos p + 1;
           line := if ascii_eqb c NL then line p + 1 else line p;
           column := if ascii_eqb c NL then 1 else column p + 1 |}).

Definition _expect (expected : ascii) (p : Parser) : result (unit * Parser) :=
  let actual := _peek p in
  if negb (ascii_eqb actual expected)
  then Raise (ParseError (ExpectedChar expected actual) (line p) (column p))
  else Ok (tt, snd (_advance p)).

(** [while cond: self._advance()].  Every turn moves [pos] one character
    closer to the end of the source, so [plen p - pos p] turns are enough. *)
Fixpoint while_advance (cond : Parser -> bool) (fuel : nat) (p : Parser) : Parser :=
  match fuel with
  | 0 => p
  | S fuel' => if cond p then while_advance cond fuel' (snd (_advance p)) else p
  end.

Definition in_source (p : Parser) : bool := pos p <? plen p.

Definition _skip_whitespace (p : Parser) : Parser :=
  while_advance (fun q => in_source q && char_in (_peek q) [" "%char; TAB; CR])
                (plen p - pos p) p.

Definition starts_comment (p : Parser) : bool :=
  ascii_eqb (_peek p) "/"%char && (pos p + 1 <? plen p)
  && ascii_eqb (nth (pos p + 1) (source p) NUL) "/"%char.

Fixpoint skip_whitespace_and_comments_loop (fuel : nat) (p : Parser) : Parser :=
  match fuel with
  | 0 => p
  | S fuel' =>
      if in_source p then
        let c := _peek p in
        if starts_comment p then
          let p1 := snd (_advance p) in
          let p2 := snd (_advance p1) in
          let p3 := while_advance (fun q => in_source q && negb (char_in (_peek q) [NL; CR]))
                                  (plen p2 - pos p2) p2 in
          skip_whitespace_and_comments_loop fuel' p3
        else if isspace c then skip_whitespace_and_comments_loop fuel' (snd (_advance p))
        else p
      else p
  end.

Definition _skip_whitespace_and_comments (p : Parser) : Parser :=
  skip_whitespace_and_comments_loop (plen p - pos p) p.

Definition _parse_quoted_string (p : Parser) : result (str * Parser) :=
  ' (_, p1) <- _expect QUOTE p ;;
  let start := pos p1 in
  let p2 := while_advance (fun q => in_source q && negb (ascii_eqb (_peek q) QUOTE))
                          (plen p1 - pos p1) p1 in
  let content := slice (source p2) start (pos p2) in
  ' (_, p3) <- _expect QUOTE p2 ;;
  Ok (content, p3).

Definition is_special (c : ascii) : bool := char_in c (lit "{}()").

Definition _parse_token (p : Parser) : result (str * Parser) :=
  let p1 := _skip_whitespace p in
  let start := pos p1 in
  if ascii_eqb (_peek p1) QUOTE then _parse_quoted_string p1
  else
    let p2 := while_advance (fun q => in_source q
                                      && negb (isspace (_peek q) || is_special (_peek q)))
                            (plen p1 - pos p1) p1 in
    if start =? pos p2
    then Raise (ParseError (ExpectedToken (_peek p2)) (line p2) (column p2))
    else Ok (slice (source p2) start (pos p2), p2).

(** [float(self._parse_token())] inside [try ... except ValueError]: the
    handler reports the position reached after the token. *)
Definition parse_float_token (message : str -> parse_msg) (p : Parser)
  : result (float * Parser) :=
  ' (token, p1) <- _parse_token p ;;
  match PyFloat.of_str token with
  | Some v => Ok (v, p1)
  | None => Raise (ParseError (message token) (line p1) (column p1))
  end.

Definition _parse_point (p : Parser) : result (Vec3 * Parser) :=
  ' (_, p) <- _expect "("%char p ;;
  let p := _skip_whitespace p in
  ' (px, p) <- parse_float_token InvalidCoordinate p ;;
  let p := _skip_whitespace p in
  ' (py, p) <- parse_float_token InvalidCoordinate p ;;
  let p := _skip_whitespace p in
  ' (pz, p) <- parse_float_token InvalidCoordinate p ;;
  let p := _skip_whitespace p in
  ' (_, p) <- _expect ")"%char p ;;
  Ok ({| x := px; y := py; z := pz |}, p).

Definition _parse_face (p : Parser) : result (Face * Parser) :=
  ' (p1, p) <- _parse_point p ;;
  let p := _skip_whitespace p in
  ' (p2, p) <- _parse_point p ;;
  let p := _skip_whitespace p in
  ' (p3, p) <- _parse_point p ;;
  let p := _skip_whitespace p in
  ' (tex, p) <- _parse_token p ;;
  let p := _skip_whitespace p in
  ' (ou, p) <- parse_float_token InvalidNumericValue p ;;
  let p := _skip_whitespace p in
  ' (ov, p) <- parse_float_token InvalidNumericValue p ;;
  let p := _skip_whitespace p in
  ' (rot, p) <- parse_float_token InvalidNumericValue p ;;
  let p := _skip_whitespace p in
  ' (su, p) <- parse_float_token InvalidNumericValue p ;;
  let p := _skip_whitespace p in
  ' (sv, p) <- parse_float_token InvalidNumericValue p ;;
  Ok ({| point1 := p1; point2 := p2; point3 := p3; texture := tex;
         offset_u := ou; offset_v := ov; rotation := rot;
         scale_u := su; scale_v := sv |}, p).

(** The loops over faces, brushes, properties and entities take [fuel]; a
    turn that finds the loop condition true with no fuel left raises
    [FuelExhausted], which the fuel given below rules out. *)
Fixpoint parse_faces_loop (fuel : nat) (brush : Brush) (p : Parser)
  : result (Brush * Parser) :=
  if in_source p && ascii_eqb (_peek p) "("%char then
    match fuel with
    | 0 => Raise FuelExhausted
    | S fuel' =>
        ' (face, p1) <- _parse_face p ;;
        parse_faces_loop fuel' {| faces := faces brush ++ [face] |}
                         (_skip_whitespace_and_comments p1)
    end
  else Ok (brush, p).

Definition _parse_brush (p : Parser) : result (Brush * Parser) :=
  ' (_, p) <- _expect "{"%char p ;;
  let p := _skip_whitespace_and_comments p in
  ' (brush, p) <- parse_faces_loop (plen p - pos p) {| faces := [] |} p ;;
  ' (_, p) <- _expect "}"%char p ;;
  Ok (brush, p).

Definition _parse_property (p : Parser) : result (str * str * Parser) :=
  ' (key, p) <- _parse_quoted_string p ;;
  let p := _skip_whitespace_and_comments p in
  ' (value, p) <- _parse_quoted_string p ;;
  Ok (key, value, p).

Fixpoint parse_properties_loop (fuel : nat) (entity : Entity) (p : Parser)
  : result (Entity * Parser) :=
  if in_source p && ascii_eqb (_peek p) QUOTE then
    match fuel with
    | 0 => Raise FuelExhausted
    | S fuel' =>
        ' (key, value, p1) <- _parse_property p ;;
        parse_properties_loop fuel' (Entity_set_property entity key value)
                              (_skip_whitespace_and_comments p1)
    end
  else Ok (entity, p).

Fixpoint parse_brushes_loop (fuel : nat) (entity : Entity) (p : Parser)
  : result (Entity * Parser) :=
  if in_source p && ascii_eqb (_peek p) "{"%char then
    match fuel with
    | 0 => Raise FuelExhausted
    | S fuel' =>
        ' (brush, p1) <- _parse_brush p ;;
        parse_brushes_loop fuel' (Entity_append_brush entity brush)
                           (_skip_whitespace_and_comments p1)
    end
  else Ok (entity, p).

Definition _parse_entity (p : Parser) : result (Entity * Parser) :=
  ' (_, p) <- _expect "{"%char p ;;
  let p := _skip_whitespace_and_comments p in
  let entity := Entity_init [] [] [] in
  ' (entity, p) <- parse_properties_loop (plen p - pos p) entity p ;;
  ' (entity, p) <- parse_brushes_loop (plen p - pos p) entity p ;;
  ' (_, p) <- _expect "}"%char p ;;
  Ok (entity, p).

Fixpoint parse_loop (fuel : nat) (mapfile : MapFile) (p : Parser) : result MapFile :=
  if in_source p then
    match fuel with
    | 0 => Raise FuelExhausted
    | S fuel' =>
        let p := _skip_whitespace_and_comments p in
        if plen p <=? pos p then Ok mapfile
        else if ascii_eqb (_peek p) "{"%char then
          ' (entity, p1) <- _parse_entity p ;;
          parse_loop fuel' (fst (MapFile_add_entity mapfile entity))
                     (_skip_whitespace_and_comments p1)
        else Raise (ParseError (ExpectedEntityStart (_peek p)) (line p) (column p))
    end
  else Ok mapfile.

Definition MapParser_parse (p : Parser) : result MapFile :=
  let mapfile := {| entities := [] |} in
  let p := _skip_whitespace_and_comments p in
  parse_loop (plen p - pos p) mapfile p.

Definition parse_map (source : str) : result MapFile :=
  MapParser_parse (MapParser_init source).


(** * Properties *)

(** ** Strings and dictionaries *)

Lemma ascii_eqb_eq (a b : ascii) : ascii_eqb a b = true <-> a = b.
Proof. unfold ascii_eqb. apply Ascii.eqb_eq. Qed.

Lemma ascii_eqb_refl (a : ascii) : ascii_eqb a a = true.
Proof. apply ascii_eqb_eq. reflexivity. Qed.


Lemma str_eqb_eq (a b : str) : str_eqb a b = true <-> a = b.
Proof.
  revert b. induction a as [|c a IH]; intros [|d b]; simpl; split; intro H;
    try reflexivity; try discriminate.
  - apply andb_true_iff in H. destruct H as [H1 H2].
    apply ascii_eqb_eq in H1. apply IH in H2. congruence.
  - inversion H; subst. rewrite ascii_eqb_refl. simpl. apply IH. reflexivity.
Qed.

Lemma str_eqb_refl (a : str) : str_eqb a a = true.
Proof. apply str_eqb_eq. reflexivity. Qed.

Lemma str_eqb_neq (a b : str) : str_eqb a b = false <-> a <> b.
Proof.
  split; intro H.
  - intro E. apply str_eqb_eq in E. congruence.
  - destruct (str_eqb a b) eqn:E; [apply str_eqb_eq in E; contradiction | reflexivity].
Qed.

Lemma dict_get_set_same (d : dict) (k v : str) : dict_get (dict_set d k v) k = Some v.
Proof.
  induction d as [|[k' v'] d IH]; simpl.
  - rewrite str_eqb_refl. reflexivity.
  - destruct (str_eqb k' k) eqn:E; simpl; rewrite E; [reflexivity | exact IH].
Qed.

Lemma join_app (sep : str) (l1 l2 : list str) :
  l1 <> [] -> l2 <> [] -> join sep (l1 ++ l2) = join sep l1 ++ sep ++ join sep l2.
Proof.
  intros H1 H2. induction l1 as [|a l1 IH]; [contradiction|].
  destruct l1 as [|b l1].
  - simpl. destruct l2; [contradiction | reflexivity].
  - change ((a :: b :: l1) ++ l2) with (a :: ((b :: l1) ++ l2)).
    change (join sep (a :: (b :: l1) ++ l2)) with (a ++ sep ++ join sep ((b :: l1) ++ l2)).
    rewrite IH by discriminate.
    change (join sep (a :: b :: l1)) with (a ++ sep ++ join sep (b :: l1)).
    repeat rewrite <- app_assoc. reflexivity.
Qed.

Lemma join_snoc (sep : str) (ls : list str) (l : str) :
  ls <> [] -> join sep (ls ++ [l]) = join sep ls ++ sep ++ l.
Proof. intro H. rewrite join_app by (assumption || discriminate). reflexivity. Qed.

(** ** The document model *)

(** C9. [get_entity_at_index(i)] returns the entity at position [i] when
    [0 <= i < entity_count] and [None] for every other integer [i]; a
    negative index never selects an entity from the end of the list. *)
Theorem get_entity_at_index_in_range_or_none (m : MapFile) (i : Z) :
  ((0 <= i < Z.of_nat (MapFile_entity_count m))%Z ->
     exists e, nth_error (entities m) (Z.to_nat i) = Some e
               /\ MapFile_get_entity_at_index m i = Some e)
  /\ (~ (0 <= i < Z.of_nat (MapFile_entity_count m))%Z ->
        MapFile_get_entity_at_index m i = None).
Proof.
  unfold MapFile_get_entity_at_index, MapFile_entity_count. split; intro H.
  - destruct H as [H0 H1].
    assert (Hn : Z.to_nat i < List.length (entities m)) by lia.
    apply nth_error_Some in Hn.
    destruct (nth_error (entities m) (Z.to_nat i)) as [e|] eqn:E; [|congruence].
    exists e. split; [reflexivity|].
    apply Z.leb_le in H0. apply Z.ltb_lt in H1. rewrite H0, H1. reflexivity.
  - destruct (0 <=? i)%Z eqn:E0; [|reflexivity].
    destruct (i <? Z.of_nat (List.length (entities m)))%Z eqn:E1; [|reflexivity].
    apply Z.leb_le in E0. apply Z.ltb_lt in E1. lia.
Qed.

Definition sample_entity (name : string) : Entity := Entity_init (lit name) [] [].

Definition sample_map : MapFile :=
  {| entities := [sample_entity "worldspawn"; sample_entity "light"; sample_entity "info_player_start"] |}.

Lemma get_entity_at_index_witness :
  (exists e, nth_error (entities sample_map) 1 = Some e
             /\ MapFile_get_entity_at_index sample_map 1 = Some e)
  /\ MapFile_get_entity_at_index sample_map (-1) = None.
Proof.
  split.
  - apply (proj1 (get_entity_at_index_in_range_or_none sample_map 1)).
    simpl. lia.
  - apply (proj2 (get_entity_at_index_in_range_or_none sample_map (-1))).
    simpl. lia.
Defined.

(** The classname field and the ["classname"] entry of the property map hold
    the same string. *)
Definition classname_agrees (e : Entity) : Prop :=
  dict_get (properties e) (lit "classname") = Some (classname e).

(** C5, as stated, fails: assigning the classname field leaves the property
    map as it was, and construction with an empty classname leaves a
    ["classname"] entry of the given property map unmatched. *)
Lemma classname_and_property_disagree :
  (let e := Entity_assign_classname (Entity_init (lit "light") [] []) (lit "monster") in
   classname e = lit "monster"
   /\ dict_get (properties e) (lit "classname") = Some (lit "light")
   /\ ~ classname_agrees e)
  /\ (let e := Entity_init [] [(lit "classname", lit "light")] [] in
      classname e = []
      /\ dict_get (properties e) (lit "classname") = Some (lit "light")
      /\ ~ classname_agrees e).
Proof.
  split; simpl; repeat split; unfold classname_agrees; simpl; intro H; discriminate H.
Qed.

(** C5, amended. After [set_property("classname", v)], and after construction
    with a non-empty classname, the classname field and the ["classname"]
    entry of the property map are equal. *)
Theorem classname_agrees_after_set_property_and_init :
  (forall (e : Entity) (v : str),
      classname_agrees (Entity_set_property e (lit "classname") v))
  /\ (forall (c : str) (props : dict) (bs : list Brush),
         c <> [] -> classname_agrees (Entity_init c props bs)).
Proof.
  split.
  - intros e v. unfold classname_agrees, Entity_set_property. simpl.
    apply dict_get_set_same.
  - intros c props bs Hc. unfold classname_agrees, Entity_init, Entity_post_init.
    destruct c as [|a c]; [contradiction|]. simpl.
    apply (dict_get_set_same props (lit "classname") (a :: c)).
Qed.

Lemma classname_agrees_witness :
  classname_agrees (Entity_set_property (sample_entity "light") (lit "classname") (lit "monster"))
  /\ classname_agrees (Entity_init (lit "light") [(lit "classname", lit "old")] []).
Proof.
  split.
  - apply (proj1 classname_agrees_after_set_property_and_init).
  - apply (proj2 classname_agrees_after_set_property_and_init). discriminate.
Defined.

(** A face with the given points and the default texture parameters. *)
Definition plain_face (p1 p2 p3 : Vec3) (tex : str) : Face :=
  {| point1 := p1; point2 := p2; point3 := p3; texture := tex;
     offset_u := PyFloat.zero; offset_v := PyFloat.zero; rotation := PyFloat.zero;
     scale_u := PyFloat.of_Z 1; scale_v := PyFloat.of_Z 1 |}.

(** C4, as stated, fails: the bounds of a brush without faces are the pair
    of zero vectors, which is also the bounding box of a brush whose points
    all lie at the origin. *)
Lemma empty_brush_bounds_is_a_numeric_box :
  Brush_bounds {| faces := [] |}
  = Brush_bounds {| faces := [plain_face Vec3_zero Vec3_zero Vec3_zero (lit "wall")] |}.
Proof. reflexivity. Qed.

(** C4, amended. [bounds()] never raises, and for a brush with zero faces it
    returns the pair [(Vec3(0,0,0), Vec3(0,0,0))]. *)
Theorem Brush_bounds_total_and_zero_when_empty :
  (forall b : Brush, exists lo hi, Brush_bounds b = Ok (lo, hi))
  /\ (forall b : Brush, faces b = [] -> Brush_bounds b = Ok (Vec3_zero, Vec3_zero)).
Proof.
  split.
  - intros [fs]. unfold Brush_bounds. simpl. destruct fs as [|f fs].
    + eauto.
    + simpl. eauto.
  - intros [fs] H. simpl in H. subst fs. reflexivity.
Qed.

Lemma Brush_bounds_witness :
  (exists lo hi, Brush_bounds {| faces := [] |} = Ok (lo, hi))
  /\ Brush_bounds {| faces := [] |} = Ok (Vec3_zero, Vec3_zero).
Proof.
  split.
  - apply (proj1 Brush_bounds_total_and_zero_when_empty).
  - apply (proj2 Brush_bounds_total_and_zero_when_empty). reflexivity.
Defined.

(** ** The writer *)

Definition ends_with_newline (s : str) : Prop := exists s', s = s' ++ [NL].

Lemma write_entity_ends_with_brace (e : Entity) (i : nat) :
  exists s, write_entity e i = s ++ lit "}".
Proof.
  unfold write_entity.
  rewrite app_assoc. rewrite app_assoc.
  rewrite join_snoc by (simpl; discriminate).
  eexists. rewrite app_assoc. reflexivity.
Qed.

Lemma write_map_lines_nonempty (i : nat) (es : list Entity) :
  es <> [] -> write_map_lines i es <> [].
Proof.
  destruct es as [|e es]; [contradiction|]. intros _. simpl.
  destruct (0 <? i); simpl; discriminate.
Qed.

Lemma write_map_lines_end_with_brace (es : list Entity) :
  forall i, es <> [] -> exists s, join [NL] (write_map_lines i es) = s ++ lit "}".
Proof.
  induction es as [|e es IH]; intros i H; [contradiction|].
  destruct es as [|e' es].
  - destruct (write_entity_ends_with_brace e i) as [s Hs].
    simpl. destruct (0 <? i); simpl; rewrite Hs.
    + exists (NL :: s). reflexivity.
    + exists s. reflexivity.
  - destruct (IH (S i)) as [s Hs]; [discriminate|].
    change (write_map_lines i (e :: e' :: es))
      with ((if 0 <? i then [[]] else []) ++ [write_entity e i]
              ++ write_map_lines (S i) (e' :: es)).
    rewrite app_assoc. rewrite join_app.
    + rewrite Hs. eexists. rewrite !app_assoc. reflexivity.
    + destruct (0 <? i); discriminate.
    + apply write_map_lines_nonempty. discriminate.
Qed.

Lemma brace_is_not_newline (s s' : str) : s ++ lit "}" <> s' ++ [NL].
Proof.
  intro H. apply (f_equal (@rev ascii)) in H.
  rewrite !rev_app_distr in H. simpl in H. discriminate H.
Qed.

(** C2, as stated, fails: the string of a one-entity document is the three
    characters of an opening brace, a newline and a closing brace. *)
Lemma written_string_has_no_trailing_newline :
  write_map_to_string {| entities := [Entity_init [] [] []] |} = lit "{" ++ [NL] ++ lit "}"
  /\ ~ ends_with_newline (write_map_to_string {| entities := [Entity_init [] [] []] |}).
Proof.
  split; [reflexivity|].
  intros [s' H]. vm_compute in H.
  destruct s' as [|a [|b [|c [|d s']]]]; discriminate H.
Qed.

(** C2, amended. The string [write_map_to_string] returns never ends with a
    newline; [write_map] stores that string followed by one newline, so the
    written file ends with exactly one trailing newline. *)
Theorem trailing_newline_is_added_by_write_map (m : MapFile) :
  ~ ends_with_newline (write_map_to_string m)
  /\ forall (filepath : str) (fs : filesystem),
       dict_get (write_map m filepath fs) filepath = Some (write_map_to_string m ++ [NL]).
Proof.
  split.
  - intros [s' H]. unfold write_map_to_string in H.
    destruct (entities m) as [|e es] eqn:E.
    + simpl in H. destruct s'; discriminate H.
    + destruct (write_map_lines_end_with_brace (es := e :: es) 0) as [s Hs]; [discriminate|].
      rewrite Hs in H. exact (brace_is_not_newline _ _ H).
  - intros filepath fs. unfold write_map, fs_write, fs_open_w.
    rewrite dict_get_set_same. simpl.
    rewrite dict_get_set_same. apply dict_get_set_same.
Qed.

(** ** The parser *)

(** [splits p a b]: the parser [p] has consumed [a] and has [b] ahead. *)
Definition splits (p : Parser) (a b : str) : Prop :=
  source p = a ++ b /\ pos p = List.length a.

Lemma splits_init (s : str) : splits (MapParser_init s) [] s.
Proof. split; reflexivity. Qed.

Lemma splits_remaining (p : Parser) (a b : str) :
  splits p a b -> plen p - pos p = List.length b.
Proof.
  intros [Hs Hp]. unfold plen. rewrite Hs, Hp, length_app. lia.
Qed.

Lemma in_source_cons (p : Parser) (a b : str) (c : ascii) :
  splits p a (c :: b) -> in_source p = true.
Proof.
  intros [Hs Hp]. unfold in_source, plen. rewrite Hs, Hp, length_app. simpl.
  apply Nat.ltb_lt. lia.
Qed.

Lemma in_source_nil (p : Parser) (a : str) : splits p a [] -> in_source p = false.
Proof.
  intros [Hs Hp]. unfold in_source, plen. rewrite Hs, Hp, length_app. simpl.
  apply Nat.ltb_ge. lia.
Qed.

Lemma peek_cons (p : Parser) (a b : str) (c : ascii) :
  splits p a (c :: b) -> _peek p = c.
Proof.
  intros H. unfold _peek. fold (in_source p). rewrite (in_source_cons H).
  destruct H as [Hs Hp]. rewrite Hs, Hp.
  rewrite app_nth2 by lia. rewrite Nat.sub_diag. reflexivity.
Qed.


Lemma advance_cons (p : Parser) (a b : str) (c : ascii) :
  splits p a (c :: b) -> splits (snd (_advance p)) (a ++ [c]) b.
Proof.
  intros H. unfold _advance.
  assert (E : (plen p <=? pos p) = false).
  { apply Nat.leb_gt. apply Nat.ltb_lt. exact (in_source_cons H). }
  rewrite E. simpl. destruct H as [Hs Hp]. split; simpl.
  - rewrite Hs. rewrite <- app_assoc. reflexivity.
  - rewrite Hp, length_app. reflexivity.
Qed.

Lemma expect_cons (p : Parser) (a b : str) (c : ascii) :
  splits p a (c :: b) -> _expect c p = Ok (tt, snd (_advance p)).
Proof.
  intros H. unfold _expect. rewrite (peek_cons H), ascii_eqb_refl. reflexivity.
Qed.

(** What lies ahead does not start with a character satisfying [f]. *)
Definition stops (f : ascii -> bool) (b : str) : Prop :=
  match b with
  | [] => True
  | c :: _ => f c = false
  end.

Lemma while_advance_run (f : ascii -> bool) (t : str) :
  forall (fuel : nat) (p : Parser) (a b : str),
    Forall (fun c => f c = true) t -> stops f b ->
    splits p a (t ++ b) -> List.length t <= fuel ->
    splits (while_advance (fun q => in_source q && f (_peek q)) fuel p) (a ++ t) b.
Proof.
  induction t as [|c t IH]; intros fuel p a b Ht Hb H Hf.
  - rewrite app_nil_r. simpl in H.
    destruct fuel as [|fuel]; [exact H|]. simpl.
    destruct b as [|d b].
    + rewrite (in_source_nil H). exact H.
    + rewrite (in_source_cons H), (peek_cons H). simpl in Hb. rewrite Hb. exact H.
  - destruct fuel as [|fuel]; [simpl in Hf; lia|].
    simpl in H. simpl while_advance.
    rewrite (in_source_cons H), (peek_cons H).
    inversion Ht as [|? ? Hc Ht']; subst. rewrite Hc. simpl.
    replace (a ++ c :: t) with ((a ++ [c]) ++ t) by (rewrite <- app_assoc; reflexivity).
    apply IH; try assumption.
    + apply advance_cons. exact H.
    + simpl in Hf. lia.
Qed.

Lemma slice_between (p p' : Parser) (a t b : str) :
  splits p a (t ++ b) -> splits p' (a ++ t) b ->
  slice (source p') (pos p) (pos p') = t.
Proof.
  intros [Hs Hp] [Hs' Hp']. unfold slice.
  rewrite Hs', Hp, Hp', length_app.
  replace (List.length a + List.length t - List.length a) with (List.length t) by lia.
  rewrite <- app_assoc. rewrite skipn_app, Nat.sub_diag, skipn_all. simpl.
  rewrite firstn_app, Nat.sub_diag, firstn_all. simpl. apply app_nil_r.
Qed.

Definition is_blank (c : ascii) : bool := char_in c [" "%char; TAB; CR].

Lemma skip_whitespace_run (p : Parser) (a t b : str) :
  Forall (fun c => is_blank c = true) t -> stops is_blank b ->
  splits p a (t ++ b) -> splits (_skip_whitespace p) (a ++ t) b.
Proof.
  intros Ht Hb H. unfold _skip_whitespace.
  apply (while_advance_run is_blank); try assumption.
  rewrite (splits_remaining H), length_app. lia.
Qed.

(** A stretch of whitespace, none of it a comment, is skipped whole. *)
Lemma skip_whitespace_and_comments_loop_run (t : str) :
  forall (fuel : nat) (p : Parser) (a b : str),
    Forall (fun c => isspace c = true) t ->
    stops (fun c => isspace c || ascii_eqb c "/"%char) b ->
    splits p a (t ++ b) -> List.length t <= fuel ->
    splits (skip_whitespace_and_comments_loop fuel p) (a ++ t) b.
Proof.
  induction t as [|c t IH]; intros fuel p a b Ht Hb H Hf.
  - rewrite app_nil_r. simpl in H.
    destruct fuel as [|fuel]; [exact H|]. simpl.
    destruct b as [|d b].
    + rewrite (in_source_nil H). exact H.
    + rewrite (in_source_cons H). unfold starts_comment. rewrite (peek_cons H).
      simpl in Hb. apply orb_false_iff in Hb. destruct Hb as [Hb1 Hb2].
      rewrite Hb1, Hb2. exact H.
  - destruct fuel as [|fuel]; [simpl in Hf; lia|].
    simpl in H. simpl skip_whitespace_and_comments_loop.
    rewrite (in_source_cons H). unfold starts_comment. rewrite (peek_cons H).
    inversion Ht as [|? ? Hc Ht']; subst.
    assert (Hslash : ascii_eqb c "/"%char = false).
    { destruct (ascii_eqb c "/"%char) eqn:E; [|reflexivity].
      apply ascii_eqb_eq in E. subst c. discriminate Hc. }
    rewrite Hslash, Hc. simpl.
    replace (a ++ c :: t) with ((a ++ [c]) ++ t) by (rewrite <- app_assoc; reflexivity).
    apply IH; try assumption.
    + apply advance_cons. exact H.
    + simpl in Hf. lia.
Qed.

Lemma skip_whitespace_and_comments_run (p : Parser) (a t b : str) :
  Forall (fun c => isspace c = true) t ->
  stops (fun c => isspace c || ascii_eqb c "/"%char) b ->
  splits p a (t ++ b) -> splits (_skip_whitespace_and_comments p) (a ++ t) b.
Proof.
  intros Ht Hb H. unfold _skip_whitespace_and_comments.
  apply skip_whitespace_and_comments_loop_run; try assumption.
  rewrite (splits_remaining H), length_app. lia.
Qed.

(** Insignificant text: whitespace and [//] comments, each comment closed by
    its line end. *)
Inductive insignificant : str -> Prop :=
| insignificant_nil : insignificant []
| insignificant_space (c : ascii) (t : str) :
    isspace c = true -> insignificant t -> insignificant (c :: t)
| insignificant_comment (body : str) (nl : ascii) (t : str) :
    Forall (fun c => negb (char_in c [NL; CR]) = true) body ->
    char_in nl [NL; CR] = true ->
    insignificant t ->
    insignificant ("/"%char :: "/"%char :: body ++ nl :: t).

Lemma line_end_isspace (c : ascii) : char_in c [NL; CR] = true -> isspace c = true.
Proof.
  unfold char_in. cbn [existsb]. rewrite orb_false_r. intro H.
  apply orb_true_iff in H. destruct H as [H|H]; apply ascii_eqb_eq in H; subst c; reflexivity.
Qed.

Lemma skip_space_step (fuel : nat) (p : Parser) (a b : str) (c : ascii) :
  isspace c = true -> splits p a (c :: b) ->
  skip_whitespace_and_comments_loop (S fuel) p
  = skip_whitespace_and_comments_loop fuel (snd (_advance p)).
Proof.
  intros Hc H. cbn [skip_whitespace_and_comments_loop].
  rewrite (in_source_cons H). unfold starts_comment. rewrite (peek_cons H).
  assert (Hslash : ascii_eqb c "/"%char = false).
  { destruct (ascii_eqb c "/"%char) eqn:E; [|reflexivity].
    apply ascii_eqb_eq in E. subst c. discriminate Hc. }
  rewrite Hslash, Hc. reflexivity.
Qed.

Lemma starts_comment_slashes (p : Parser) (a b : str) :
  splits p a ("/"%char :: "/"%char :: b) -> starts_comment p = true.
Proof.
  intro H. unfold starts_comment. rewrite (peek_cons H).
  destruct H as [Hs Hp]. unfold plen. rewrite Hs, Hp, length_app.
  rewrite app_nth2 by lia.
  replace (List.length a + 1 - List.length a) with 1 by lia.
  cbn [nth List.length]. rewrite ascii_eqb_refl.
  replace (List.length a + 1 <? List.length a + S (S (List.length b))) with true
    by (symmetry; apply Nat.ltb_lt; lia).
  reflexivity.
Qed.

Lemma skip_insignificant_loop (t : str) :
  insignificant t ->
  forall (fuel : nat) (p : Parser) (a b : str),
    stops (fun c => isspace c || ascii_eqb c "/"%char) b ->
    splits p a (t ++ b) -> List.length t <= fuel ->
    splits (skip_whitespace_and_comments_loop fuel p) (a ++ t) b.
Proof.
  induction 1 as [|c t Hc Ht IH|body nl t Hbody Hnl Ht IH]; intros fuel p a b Hb H Hf.
  - apply skip_whitespace_and_comments_loop_run; [constructor | assumption..].
  - destruct fuel as [|fuel]; [simpl in Hf; lia|].
    cbn [app] in H. rewrite (skip_space_step fuel Hc H).
    replace (a ++ c :: t) with ((a ++ [c]) ++ t) by (rewrite <- app_assoc; reflexivity).
    apply IH; [assumption | exact (advance_cons H) | simpl in Hf; lia].
  - cbn [List.length] in Hf. rewrite length_app in Hf. cbn [List.length] in Hf.
    destruct fuel as [|fuel]; [lia|].
    cbn [app] in H. rewrite <- app_assoc in H. cbn [app] in H.
    cbn [skip_whitespace_and_comments_loop].
    rewrite (in_source_cons H), (starts_comment_slashes H). cbv zeta.
    pose proof (advance_cons H) as H1.
    pose proof (advance_cons H1) as H2.
    set (p2 := snd (_advance (snd (_advance p)))) in *.
    assert (H3 : splits (while_advance
                           (fun q => in_source q && negb (char_in (_peek q) [NL; CR]))
                           (plen p2 - pos p2) p2)
                        (((a ++ ["/"%char]) ++ ["/"%char]) ++ body) (nl :: t ++ b)).
    { apply (@while_advance_run (fun c => negb (char_in c [NL; CR]))); try assumption.
      - cbn [stops]. rewrite Hnl. reflexivity.
      - rewrite (splits_remaining H2), length_app. lia. }
    destruct fuel as [|fuel]; [lia|].
    rewrite (skip_space_step fuel (line_end_isspace _ Hnl) H3).
    replace (a ++ "/"%char :: "/"%char :: body ++ nl :: t)
      with (((((a ++ ["/"%char]) ++ ["/"%char]) ++ body) ++ [nl]) ++ t)
      by (repeat rewrite <- app_assoc; reflexivity).
    apply IH; [assumption | exact (advance_cons H3) | lia].
Qed.

Lemma skip_insignificant_run (p : Parser) (a t b : str) :
  insignificant t ->
  stops (fun c => isspace c || ascii_eqb c "/"%char) b ->
  splits p a (t ++ b) -> splits (_skip_whitespace_and_comments p) (a ++ t) b.
Proof.
  intros Ht Hb H. unfold _skip_whitespace_and_comments.
  apply skip_insignificant_loop; try assumption.
  rewrite (splits_remaining H), length_app. lia.
Qed.

Lemma parse_faces_loop_stop (fuel : nat) (brush : Brush) (p : Parser) :
  in_source p && ascii_eqb (_peek p) "("%char = false ->
  parse_faces_loop fuel brush p = Ok (brush, p).
Proof. intro H. destruct fuel; simpl; rewrite H; reflexivity. Qed.

Lemma parse_properties_loop_stop (fuel : nat) (entity : Entity) (p : Parser) :
  in_source p && ascii_eqb (_peek p) QUOTE = false ->
  parse_properties_loop fuel entity p = Ok (entity, p).
Proof. intro H. destruct fuel; simpl; rewrite H; reflexivity. Qed.

Lemma parse_brushes_loop_stop (fuel : nat) (entity : Entity) (p : Parser) :
  in_source p && ascii_eqb (_peek p) "{"%char = false ->
  parse_brushes_loop fuel entity p = Ok (entity, p).
Proof. intro H. destruct fuel; simpl; rewrite H; reflexivity. Qed.

Lemma parse_loop_stop (fuel : nat) (mapfile : MapFile) (p : Parser) (a : str) :
  splits p a [] -> parse_loop fuel mapfile p = Ok mapfile.
Proof. intro H. destruct fuel; simpl; rewrite (in_source_nil H); reflexivity. Qed.

Definition quoted (s : str) : str := [QUOTE] ++ s ++ [QUOTE].

(** The text of the parse-error example:
    an entity whose only face has [x] where its first texture offset should
    be. *)
Definition malformed_face_source : str :=
  lit "{ " ++ quoted (lit "classname") ++ lit " " ++ quoted (lit "foo")
    ++ lit " { ( 0 0 0 ) ( 1 0 0 ) ( 0 1 0 ) bad_tex x y } }".

Definition error_position (r : result MapFile) : option (nat * nat) :=
  match r with
  | Raise (ParseError _ l c) => Some (l, c)
  | _ => None
  end.

(** A reported column lies within a token that starts at column [start] and
    is [len] characters long. *)
Definition column_within (start len column : nat) : Prop :=
  start <= column < start + len.

(** C8, as stated, fails: the token [x] is the one character at column 61 of
    line 1 (index 60), and the error reports column 62. *)
Lemma reported_column_follows_the_token :
  slice malformed_face_source 60 61 = lit "x"
  /\ error_position (parse_map malformed_face_source) = Some (1, 62)
  /\ ~ column_within 61 1 62.
Proof.
  split; [reflexivity|]. split; [vm_compute; reflexivity|].
  unfold column_within. lia.
Qed.

(** C8, amended. Parsing the example raises a [ParseError] naming the token
    [x], at line 1 and column 62: the column just after the token (which is at
    column 61), neither the start (column 1) nor the end (column 68) of the
    67-character document. *)
Theorem malformed_number_error_position :
  parse_map malformed_face_source = Raise (ParseError (InvalidNumericValue (lit "x")) 1 62)
  /\ slice malformed_face_source 60 61 = lit "x"
  /\ List.length malformed_face_source = 67.
Proof. repeat split; vm_compute; reflexivity. Qed.

(** C3, as stated, fails: a brush without faces is accepted. *)
Lemma brush_without_faces_parses :
  parse_map (lit "{ { } }")
  = Ok {| entities := [{| classname := []; properties := [];
                          brushes := [{| faces := [] |}] |}] |}.
Proof. vm_compute. reflexivity. Qed.

Lemma parse_brush_without_faces (p : Parser) (a w b : str) :
  insignificant w ->
  splits p a ("{"%char :: w ++ "}"%char :: b) ->
  exists p', _parse_brush p = Ok ({| faces := [] |}, p')
             /\ splits p' (a ++ "{"%char :: w ++ ["}"%char]) b.
Proof.
  intros Hw H. unfold _parse_brush.
  rewrite (expect_cons H). cbn [bind].
  pose proof (advance_cons H) as H1.
  pose proof (skip_insignificant_run (t := w) ("}"%char :: b) Hw
                eq_refl H1) as H2.
  rewrite parse_faces_loop_stop by (rewrite (peek_cons H2); apply andb_false_r).
  cbn [bind]. rewrite (expect_cons H2). cbn [bind].
  eexists. split; [reflexivity|].
  pose proof (advance_cons H2) as H3.
  replace (a ++ "{"%char :: w ++ ["}"%char]) with (((a ++ ["{"%char]) ++ w) ++ ["}"%char]).
  - exact H3.
  - repeat rewrite <- app_assoc. reflexivity.
Qed.

(** C3, amended. An entity holding a brush with zero faces is accepted,
    whatever whitespace and comments separate the braces: the parse returns
    one entity without properties whose single brush has an empty face list. *)
Theorem brush_without_faces_is_accepted (w1 w2 w3 : str) :
  insignificant w1 -> insignificant w2 -> insignificant w3 ->
  parse_map (lit "{" ++ w1 ++ lit "{" ++ w2 ++ lit "}" ++ w3 ++ lit "}")
  = Ok {| entities := [{| classname := []; properties := [];
                          brushes := [{| faces := [] |}] |}] |}.
Proof.
  intros H1 H2 H3. unfold parse_map, MapParser_parse.
  set (src := lit "{" ++ w1 ++ lit "{" ++ w2 ++ lit "}" ++ w3 ++ lit "}").
  pose proof (splits_init src) as S0.
  pose proof (skip_whitespace_and_comments_run (t := []) (src) (Forall_nil _) eq_refl S0) as S1.
  simpl app in S1.
  rewrite (splits_remaining S1). unfold src at 1. simpl List.length.
  cbn [parse_loop]. rewrite (in_source_cons S1).
  set (q := _skip_whitespace_and_comments (MapParser_init src)) in *.
  pose proof (skip_whitespace_and_comments_run (t := []) (src) (Forall_nil _) eq_refl S1) as S2.
  simpl app in S2.
  assert (E : (plen (_skip_whitespace_and_comments q) <=? pos (_skip_whitespace_and_comments q)) = false).
  { apply Nat.leb_gt. apply Nat.ltb_lt. exact (in_source_cons S2). }
  rewrite E. rewrite (peek_cons S2). cbn [ascii_eqb Ascii.eqb Bool.eqb].
  (* the entity *)
  unfold _parse_entity. rewrite (expect_cons S2). cbn [bind].
  pose proof (advance_cons S2) as S3.
  pose proof (skip_insignificant_run (t := w1) (lit "{" ++ w2 ++ lit "}" ++ w3 ++ lit "}") H1 eq_refl S3) as S4.
  rewrite parse_properties_loop_stop by (rewrite (peek_cons S4); apply andb_false_r).
  cbn [bind]. rewrite (splits_remaining S4). simpl List.length.
  cbn [parse_brushes_loop]. rewrite (in_source_cons S4), (peek_cons S4).
  cbn [ascii_eqb Ascii.eqb Bool.eqb andb].
  destruct (parse_brush_without_faces (w := w2) (w3 ++ lit "}") H2 S4)
    as [p5 [E5 S5]].
  rewrite E5. cbn [bind].
  pose proof (skip_insignificant_run (t := w3) (lit "}") H3 eq_refl S5) as S6.
  rewrite parse_brushes_loop_stop by (rewrite (peek_cons S6); apply andb_false_r).
  cbn [bind]. rewrite (expect_cons S6). cbn [bind].
  pose proof (advance_cons S6) as S7.
  pose proof (skip_whitespace_and_comments_run (t := []) ([]) (Forall_nil _) I S7) as S8.
  rewrite (parse_loop_stop _ _ S8). reflexivity.
Qed.

Lemma brush_without_faces_witness :
  parse_map (lit "{" ++ [NL; TAB] ++ lit "{" ++ (lit " // no faces" ++ [NL])
               ++ lit "}" ++ [CR; NL] ++ lit "}")
  = Ok {| entities := [{| classname := []; properties := [];
                          brushes := [{| faces := [] |}] |}] |}.
Proof.
  apply (brush_without_faces_is_accepted
           (w1 := [NL; TAB]) (w2 := lit " // no faces" ++ [NL]) (w3 := [CR; NL])).
  - repeat (apply insignificant_space; [reflexivity|]). apply insignificant_nil.
  - apply insignificant_space; [reflexivity|].
    apply (@insignificant_comment (lit " no faces") NL []).
    + repeat constructor.
    + reflexivity.
    + apply insignificant_nil.
  - repeat (apply insignificant_space; [reflexivity|]). apply insignificant_nil.
Defined.

(** ** Origins and moves *)

Lemma Vec3_truediv_two (v : Vec3) :
  Vec3_truediv v two
  = Ok {| x := PyFloat.div (x v) two; y := PyFloat.div (y v) two; z := PyFloat.div (z v) two |}.
Proof. reflexivity. Qed.

Lemma Brush_bounds_returns (b : Brush) : exists lo hi, Brush_bounds b = Ok (lo, hi).
Proof.
  destruct b as [fs]. unfold Brush_bounds. cbn [faces].
  destruct fs as [|f fs]; [eauto|]. simpl. eauto.
Qed.

Lemma Brush_center_total (b : Brush) : exists c, Brush_center b = Ok c.
Proof.
  unfold Brush_center.
  destruct (Brush_bounds_returns b) as [lo [hi E]].
  rewrite E. cbn [bind]. rewrite Vec3_truediv_two. eauto.
Qed.

Lemma map_result_total {A B} (f : A -> result B) (l : list A) :
  (forall a, exists b, f a = Ok b) ->
  exists bs, map_result f l = Ok bs /\ List.length bs = List.length l.
Proof.
  intro H. induction l as [|a l [bs [E L]]]; simpl.
  - exists []. split; reflexivity.
  - destruct (H a) as [b Eb]. rewrite Eb, E. cbn [bind].
    exists (b :: bs). split; [reflexivity | simpl; congruence].
Qed.

(** The average the getter computes from the centers of the brushes. *)
Definition average (centers : list Vec3) : Vec3 :=
  let n := PyFloat.of_Z (Z.of_nat (List.length centers)) in
  {| x := PyFloat.div (py_sum (map x centers)) n;
     y := PyFloat.div (py_sum (map y centers)) n;
     z := PyFloat.div (py_sum (map z centers)) n |}.

Lemma origin_from_brushes_total (e : Entity) :
  (brushes e = [] /\ origin_from_brushes e = Ok None)
  \/ (brushes e <> []
      /\ exists centers,
           map_result Brush_center (brushes e) = Ok centers
           /\ origin_from_brushes e = Ok (Some (average centers))).
Proof.
  unfold origin_from_brushes. destruct (brushes e) as [|b bs] eqn:E.
  - left. split; reflexivity.
  - right. split; [discriminate|].
    destruct (map_result_total Brush_center (b :: bs) Brush_center_total) as [cs [Ecs L]].
    exists cs. split; [exact Ecs|]. rewrite Ecs. cbn [bind].
    unfold PyFloat.truediv_int.
    assert (Hn : (Z.of_nat (List.length cs) =? 0)%Z = false).
    { apply Z.eqb_neq. rewrite L. simpl. lia. }
    rewrite Hn. reflexivity.
Qed.

(** C10. When the ["origin"] property is present but splits into fewer than
    three whitespace-separated fields, the origin getter does not fail and
    ignores the property: it returns the average of the brush centers when
    the entity owns brushes, and [None] otherwise. *)
Theorem origin_ignores_short_property (e : Entity) (v : str) :
  dict_get (properties e) (lit "origin") = Some v ->
  List.length (split_ws v) < 3 ->
  (brushes e = [] /\ Entity_origin e = Ok None)
  \/ (brushes e <> []
      /\ exists centers,
           map_result Brush_center (brushes e) = Ok centers
           /\ Entity_origin e = Ok (Some (average centers))).
Proof.
  intros Hv Hlen. unfold Entity_origin. rewrite Hv.
  assert (E : (3 <=? List.length (split_ws v)) = false) by (apply Nat.leb_gt; exact Hlen).
  rewrite E. apply origin_from_brushes_total.
Qed.

Definition unit_points_brush (dx : Z) : Brush :=
  let v (a b c : Z) := {| x := PyFloat.of_Z a; y := PyFloat.of_Z b; z := PyFloat.of_Z c |} in
  {| faces := [plain_face (v dx 0 0) (v (dx + 2) 0 0) (v dx 2 0) (lit "wall");
               plain_face (v dx 0 2) (v dx 2 2) (v (dx + 2) 0 2) (lit "wall")]%Z |}.

Lemma origin_ignores_short_property_witness :
  let e := {| classname := lit "func_door";
              properties := [(lit "classname", lit "func_door"); (lit "origin", lit "10 20")];
              brushes := [unit_points_brush 0; unit_points_brush 10] |} in
  (brushes e = [] /\ Entity_origin e = Ok None)
  \/ (brushes e <> []
      /\ exists centers,
           map_result Brush_center (brushes e) = Ok centers
           /\ Entity_origin e = Ok (Some (average centers))).
Proof.
  intro e. apply (origin_ignores_short_property e (v := lit "10 20")).
  - reflexivity.
  - vm_compute. lia.
Defined.

(** [Vec3(100, 0, 0)] *)
Definition target_origin : Vec3 :=
  {| x := PyFloat.of_Z 100; y := PyFloat.zero; z := PyFloat.zero |}.

(** [o == Vec3(0, 0, 0)], by the equality of floats. *)
Definition is_origin (o : Vec3) : Prop :=
  PyFloat.eqb (x o) PyFloat.zero = true
  /\ PyFloat.eqb (y o) PyFloat.zero = true
  /\ PyFloat.eqb (z o) PyFloat.zero = true.

(** [f'] is [f] with each of its three points moved by [d]. *)
Definition face_translated (d : Vec3) (f f' : Face) : Prop :=
  point1 f' = Vec3_add (point1 f) d
  /\ point2 f' = Vec3_add (point2 f) d
  /\ point3 f' = Vec3_add (point3 f) d
  /\ texture f' = texture f
  /\ (offset_u f', offset_v f', rotation f', scale_u f', scale_v f')
     = (offset_u f, offset_v f, rotation f, scale_u f, scale_v f).

Definition brush_translated (d : Vec3) (b b' : Brush) : Prop :=
  Forall2 (face_translated d) (faces b) (faces b').

Lemma eqb_zero_inv (v : float) :
  PyFloat.eqb v PyFloat.zero = true -> exists s, v = S754_zero s.
Proof.
  destruct v as [s|s| |s m e]; intro H.
  - exists s. reflexivity.
  - destruct s; discriminate H.
  - discriminate H.
  - destruct s; discriminate H.
Qed.

Lemma offset_from_origin (o : Vec3) : is_origin o -> Vec3_sub target_origin o = target_origin.
Proof.
  destruct o as [ox oy oz]. intros [Hx [Hy Hz]]. simpl in Hx, Hy, Hz.
  apply eqb_zero_inv in Hx. apply eqb_zero_inv in Hy. apply eqb_zero_inv in Hz.
  destruct Hx as [sx ->], Hy as [sy ->], Hz as [sz ->].
  destruct sx, sy, sz; reflexivity.
Qed.

Lemma Brush_move_translates (d : Vec3) (bs : list Brush) :
  Forall2 (brush_translated d) bs (map (fun brush => Brush_move brush d) bs).
Proof.
  induction bs as [|b bs IH]; simpl; constructor; [|exact IH].
  unfold brush_translated, Brush_move. simpl.
  induction (faces b) as [|f fs IHf]; simpl; constructor; [|exact IHf].
  unfold face_translated, Face_move. simpl. repeat split.
Qed.

Lemma set_origin_target (e : Entity) :
  Entity_set_origin e target_origin
  = Ok {| classname := classname e;
          properties := dict_set (properties e) (lit "origin") (lit "100 0 0");
          brushes := brushes e |}.
Proof. reflexivity. Qed.

(** C6. For an entity that owns brushes and whose current origin is
    [(0, 0, 0)], [move_to(Vec3(100, 0, 0))] adds [(100, 0, 0)] to every point
    of every face of every owned brush and stores ["100 0 0"] as the
    ["origin"] property. *)
Theorem move_to_translates_brushes_and_stores_origin (e : Entity) (o : Vec3) :
  brushes e <> [] ->
  Entity_origin e = Ok (Some o) ->
  is_origin o ->
  exists e',
    Entity_move_to e target_origin = Ok e'
    /\ Forall2 (brush_translated target_origin) (brushes e) (brushes e')
    /\ dict_get (properties e') (lit "origin") = Some (lit "100 0 0").
Proof.
  intros Hb Ho Hz. unfold Entity_move_to. rewrite Ho. cbn [bind].
  destruct (brushes e) as [|b bs] eqn:E; [contradiction|].
  rewrite (offset_from_origin Hz), set_origin_target.
  eexists. split; [reflexivity|]. cbn [brushes properties]. split.
  - apply Brush_move_translates.
  - apply dict_get_set_same.
Qed.

Lemma move_to_witness :
  let e := {| classname := lit "func_door";
              properties := [(lit "classname", lit "func_door"); (lit "origin", lit "0 0 0")];
              brushes := [unit_points_brush 0; unit_points_brush 10] |} in
  exists e',
    Entity_move_to e target_origin = Ok e'
    /\ Forall2 (brush_translated target_origin) (brushes e) (brushes e')
    /\ dict_get (properties e') (lit "origin") = Some (lit "100 0 0").
Proof.
  intro e. apply (move_to_translates_brushes_and_stores_origin e (o := Vec3_zero)).
  - discriminate.
  - reflexivity.
  - repeat split.
Defined.

(** ** Round trip: what the writer emits is read back *)

(** *** Formatted numbers are tokens *)

(** A character that may stand in an unquoted token. *)
Definition bare_char (c : ascii) : bool := negb (isspace c || is_special c).

(** A token the parser reads back as it stands: not empty, made of
    characters that are neither whitespace nor braces or parentheses, and not
    starting with a double quote. *)
Definition bare_token (t : str) : bool :=
  match t with
  | [] => false
  | c :: _ => negb (ascii_eqb c QUOTE) && forallb bare_char t
  end.

Definition float_char (c : ascii) : bool := PyFloat.is_digit c || char_in c (lit "-.naif").

Lemma float_char_bare (c : ascii) :
  float_char c = true -> bare_char c = true /\ ascii_eqb c QUOTE = false.
Proof.
  destruct c as [[] [] [] [] [] [] [] []]; intro H; try discriminate H; split; reflexivity.
Qed.

Lemma float_chars_bare_token (t : str) :
  t <> [] -> Forall (fun c => float_char c = true) t -> bare_token t = true.
Proof.
  intros Hne Hall. destruct t as [|c t]; [contradiction|].
  unfold bare_token. apply andb_true_iff. split.
  - inversion Hall; subst. destruct (float_char_bare c) as [_ E]; [assumption|].
    rewrite E. reflexivity.
  - apply forallb_forall. intros d Hd.
    rewrite Forall_forall in Hall. apply float_char_bare. apply Hall. exact Hd.
Qed.

Lemma lstrip_Forall (P : ascii -> Prop) (chars s : str) :
  Forall P s -> Forall P (lstrip chars s).
Proof.
  induction s as [|c s IH]; intro H; simpl; [constructor|].
  destruct (char_in c chars); [apply IH; inversion H; assumption | exact H].
Qed.

Lemma rstrip_Forall (P : ascii -> Prop) (chars s : str) :
  Forall P s -> Forall P (rstrip chars s).
Proof.
  intro H. unfold rstrip. apply Forall_rev. apply lstrip_Forall. apply Forall_rev. exact H.
Qed.

Lemma lstrip_keep (chars u v : str) (c : ascii) :
  char_in c chars = false -> lstrip chars (u ++ c :: v) = lstrip chars u ++ c :: v.
Proof.
  intro Hc. induction u as [|d u IH]; simpl.
  - rewrite Hc. reflexivity.
  - destruct (char_in d chars); [exact IH | reflexivity].
Qed.

Lemma rstrip_keep (chars a t : str) (c : ascii) :
  char_in c chars = false -> rstrip chars (a ++ c :: t) = a ++ c :: rstrip chars t.
Proof.
  intro Hc. unfold rstrip. rewrite rev_app_distr. simpl. rewrite <- app_assoc. simpl.
  rewrite lstrip_keep by exact Hc. rewrite rev_app_distr. simpl.
  rewrite rev_involutive. rewrite <- app_assoc. reflexivity.
Qed.

Lemma string_of_uint_digits (d : Decimal.uint) :
  Forall (fun c => PyFloat.is_digit c = true)
         (list_ascii_of_string (NilEmpty.string_of_uint d)).
Proof. induction d; simpl; constructor; (reflexivity || assumption). Qed.

Lemma str_of_N_digits (n : N) : Forall (fun c => PyFloat.is_digit c = true) (str_of_N n).
Proof. apply string_of_uint_digits. Qed.

Lemma str_of_N_nonempty (n : N) : str_of_N n <> [].
Proof.
  unfold str_of_N. destruct n as [|p]; [discriminate|].
  simpl. pose proof (DecimalPos.Unsigned.to_uint_nonnil p) as H.
  destruct (Pos.to_uint p); [contradiction | | | | | | | | | | ]; discriminate.
Qed.

Lemma digit_is_float_char (c : ascii) : PyFloat.is_digit c = true -> float_char c = true.
Proof. intro H. unfold float_char. rewrite H. reflexivity. Qed.

Lemma digit_is_not_dot (c : ascii) : PyFloat.is_digit c = true -> char_in c (lit ".") = false.
Proof. destruct c as [[] [] [] [] [] [] [] []]; intro H; try discriminate H; reflexivity. Qed.

Lemma digit_char_spec (d : N) :
  (d < 10)%N ->
  PyFloat.is_digit (PyFloat.digit_char d) = true
  /\ PyFloat.digit_val (PyFloat.digit_char d) = d.
Proof.
  intro H.
  assert (C : (d = 0 \/ d = 1 \/ d = 2 \/ d = 3 \/ d = 4 \/ d = 5 \/ d = 6 \/ d = 7
               \/ d = 8 \/ d = 9)%N) by lia.
  repeat (destruct C as [C|C]; [subst d; split; reflexivity|]).
  subst d; split; reflexivity.
Qed.

Lemma fixed_digits_digits (w : nat) (n : N) :
  Forall (fun c => PyFloat.is_digit c = true) (PyFloat.fixed_digits w n).
Proof.
  revert n. induction w as [|w IH]; intro n; cbn [PyFloat.fixed_digits]; [constructor|].
  apply Forall_app. split; [apply IH|].
  constructor; [|constructor].
  apply digit_char_spec. apply N.mod_lt. discriminate.
Qed.

Lemma fixed_digits_length (w : nat) (n : N) : List.length (PyFloat.fixed_digits w n) = w.
Proof.
  revert n. induction w as [|w IH]; intro n; cbn [PyFloat.fixed_digits]; [reflexivity|].
  rewrite length_app, IH. simpl. lia.
Qed.

Lemma fixed6_float_chars (s : bool) (n : N) :
  Forall (fun c => float_char c = true) (PyFloat.fixed6 s n).
Proof.
  assert (D : forall k, Forall (fun c => float_char c = true) (str_of_N k)).
  { intro k. eapply Forall_impl; [|apply str_of_N_digits]. apply digit_is_float_char. }
  unfold PyFloat.fixed6.
  apply Forall_app. split; [destruct s; repeat constructor|].
  apply Forall_app. split; [apply D|].
  apply Forall_app. split; [repeat constructor|].
  eapply Forall_impl; [|apply fixed_digits_digits]. apply digit_is_float_char.
Qed.

Lemma format_float_fixed6 (s : bool) (n : N) :
  let r := PyFloat.fixed6 s n in
  (if char_in "."%char r then rstrip (lit ".") (rstrip (lit "0") r) else r) <> []
  /\ Forall (fun c => float_char c = true)
            (if char_in "."%char r then rstrip (lit ".") (rstrip (lit "0") r) else r).
Proof.
  intro r. assert (Hdot : char_in "."%char r = true).
  { unfold r, PyFloat.fixed6, char_in. rewrite !existsb_app.
    replace (existsb (ascii_eqb "."%char) (lit ".")) with true by reflexivity.
    rewrite orb_true_l, !orb_true_r. reflexivity. }
  rewrite Hdot. split.
  - destruct (exists_last (str_of_N_nonempty (n / 1000000)%N)) as [X0 [d E]].
    assert (Hd : PyFloat.is_digit d = true).
    { pose proof (str_of_N_digits (n / 1000000)%N) as H. rewrite E in H.
      apply Forall_app in H. destruct H as [_ H]. inversion H. assumption. }
    unfold r, PyFloat.fixed6. rewrite E.
    replace ((if s then lit "-" else []) ++ (X0 ++ [d]) ++ lit "." ++
               PyFloat.fixed_digits 6 (n mod 1000000)%N)
      with ((((if s then lit "-" else []) ++ X0) ++ [d]) ++ "."%char ::
               PyFloat.fixed_digits 6 (n mod 1000000)%N)
      by (repeat rewrite <- app_assoc; reflexivity).
    rewrite rstrip_keep by reflexivity.
    rewrite <- app_assoc. cbn [app].
    rewrite rstrip_keep by (apply digit_is_not_dot; exact Hd).
    intro H. apply app_eq_nil in H. destruct H as [_ H]. discriminate H.
  - apply rstrip_Forall. apply rstrip_Forall. apply fixed6_float_chars.
Qed.

Lemma format_float_bare (v : float) : bare_token (format_float v) = true.
Proof.
  unfold format_float. destruct v as [s|s| |s m e].
  - destruct (format_float_fixed6 s 0) as [H1 H2]. apply float_chars_bare_token; assumption.
  - destruct s; reflexivity.
  - reflexivity.
  - destruct (format_float_fixed6 s (Z.to_N (PyFloat.scaled_round m e))) as [H1 H2].
    apply float_chars_bare_token; assumption.
Qed.

(** *** Reading back tokens, numbers, points and faces *)

Unset Implicit Arguments.

(** [ahead p b]: the text [b] is what the parser [p] has left to read. *)
Definition ahead (p : Parser) (b : str) : Prop := exists a, splits p a b.

Lemma ahead_init (s : str) : ahead (MapParser_init s) s.
Proof. exists []. apply splits_init. Qed.

Lemma ahead_remaining (p : Parser) (b : str) : ahead p b -> plen p - pos p = List.length b.
Proof. intros [a H]. exact (splits_remaining H). Qed.

Lemma ahead_in_source (p : Parser) (c : ascii) (b : str) : ahead p (c :: b) -> in_source p = true.
Proof. intros [a H]. exact (in_source_cons H). Qed.

Lemma ahead_peek (p : Parser) (c : ascii) (b : str) : ahead p (c :: b) -> _peek p = c.
Proof. intros [a H]. exact (peek_cons H). Qed.

Lemma ahead_end (p : Parser) : ahead p [] -> in_source p = false.
Proof. intros [a H]. exact (in_source_nil H). Qed.

Lemma ahead_expect (p : Parser) (c : ascii) (b : str) :
  ahead p (c :: b) -> _expect c p = Ok (tt, snd (_advance p)) /\ ahead (snd (_advance p)) b.
Proof.
  intros [a H]. split; [exact (expect_cons H)|].
  exists (a ++ [c]). exact (advance_cons H).
Qed.

Lemma ahead_skip_whitespace (p : Parser) (t b : str) :
  Forall (fun c => is_blank c = true) t -> stops is_blank b ->
  ahead p (t ++ b) -> ahead (_skip_whitespace p) b.
Proof.
  intros Ht Hb [a H]. exists (a ++ t). exact (skip_whitespace_run b Ht Hb H).
Qed.

Lemma ahead_skip_whitespace_and_comments (p : Parser) (t b : str) :
  Forall (fun c => isspace c = true) t ->
  stops (fun c => isspace c || ascii_eqb c "/"%char) b ->
  ahead p (t ++ b) -> ahead (_skip_whitespace_and_comments p) b.
Proof.
  intros Ht Hb [a H]. exists (a ++ t). exact (skip_whitespace_and_comments_run b Ht Hb H).
Qed.

Lemma blank_is_space (c : ascii) : is_blank c = true -> isspace c = true.
Proof. destruct c as [[] [] [] [] [] [] [] []]; intro H; try discriminate H; reflexivity. Qed.

Lemma bare_char_not_blank (c : ascii) : bare_char c = true -> is_blank c = false.
Proof.
  intro H. destruct (is_blank c) eqn:E; [|reflexivity].
  apply blank_is_space in E. unfold bare_char in H. rewrite E in H. discriminate H.
Qed.

Lemma bare_token_inv (t : str) :
  bare_token t = true ->
  exists c t', t = c :: t' /\ ascii_eqb c QUOTE = false /\ is_blank c = false
               /\ Forall (fun d => bare_char d = true) t.
Proof.
  destruct t as [|c t']; [discriminate|]. intro H.
  apply andb_true_iff in H. destruct H as [H1 H2].
  rewrite forallb_forall in H2. exists c, t'. repeat split.
  - destruct (ascii_eqb c QUOTE); [discriminate H1 | reflexivity].
  - apply bare_char_not_blank. apply H2. left. reflexivity.
  - apply Forall_forall. exact H2.
Qed.

Lemma parse_token_bare (p : Parser) (t b : str) :
  bare_token t = true -> stops bare_char b -> ahead p (t ++ b) ->
  exists p', _parse_token p = Ok (t, p') /\ ahead p' b.
Proof.
  intros Ht Hb [a H].
  destruct (bare_token_inv t Ht) as [c [t' [Et [Hq [Hbl Hall]]]]].
  assert (H1 : splits (_skip_whitespace p) a (t ++ b)).
  { rewrite <- (app_nil_r a).
    apply (skip_whitespace_run (t := []) (t ++ b) (Forall_nil _)); [|exact H].
    rewrite Et. exact Hbl. }
  unfold _parse_token. set (p1 := _skip_whitespace p) in *.
  assert (Hpk : _peek p1 = c) by (rewrite Et in H1; exact (peek_cons H1)).
  rewrite Hpk, Hq.
  assert (H2 : splits (while_advance (fun q => in_source q && bare_char (_peek q))
                                     (plen p1 - pos p1) p1) (a ++ t) b).
  { apply (while_advance_run bare_char); try assumption.
    rewrite (splits_remaining H1), length_app. lia. }
  change (fun q => in_source q && bare_char (_peek q))
    with (fun q => in_source q && negb (isspace (_peek q) || is_special (_peek q))) in H2.
  set (p2 := while_advance _ _ p1) in *.
  assert (Hpos : (pos p1 =? pos p2) = false).
  { apply Nat.eqb_neq. destruct H1 as [_ E1]. destruct H2 as [_ E2].
    rewrite E1, E2, length_app, Et. simpl. lia. }
  rewrite Hpos. rewrite (slice_between t H1 H2).
  exists p2. split; [reflexivity|]. exists (a ++ t). exact H2.
Qed.

(** A number whose written form is read back as a float with the same
    written form. *)
Definition stable_number (v : float) : bool :=
  match PyFloat.of_str (format_float v) with
  | Some w => str_eqb (format_float w) (format_float v)
  | None => false
  end.

Lemma parse_float_token_written (message : str -> parse_msg) (p : Parser) (v : float) (b : str) :
  stable_number v = true -> stops bare_char b -> ahead p (format_float v ++ b) ->
  exists w p', parse_float_token message p = Ok (w, p') /\ ahead p' b
               /\ format_float w = format_float v.
Proof.
  intros Hv Hb H. unfold parse_float_token.
  destruct (parse_token_bare p (format_float v) b (format_float_bare v) Hb H) as [p' [E H']].
  rewrite E. cbn [bind]. unfold stable_number in Hv.
  destruct (PyFloat.of_str (format_float v)) as [w|]; [|discriminate Hv].
  exists w, p'. split; [reflexivity|]. split; [exact H'|].
  apply str_eqb_eq. exact Hv.
Qed.

Definition SP : ascii := " "%char.

Lemma stops_blank_bare (t b : str) : bare_token t = true -> stops is_blank (t ++ b).
Proof.
  intro Ht. destruct (bare_token_inv t Ht) as [c [t' [Et [_ [Hbl _]]]]].
  rewrite Et. exact Hbl.
Qed.

Lemma stops_space (b : str) : stops bare_char (SP :: b).
Proof. reflexivity. Qed.

Lemma skip_space_before (p : Parser) (b : str) :
  stops is_blank b -> ahead p (SP :: b) -> ahead (_skip_whitespace p) b.
Proof.
  intros Hb H. apply (ahead_skip_whitespace p [SP] b); try assumption.
  repeat constructor.
Qed.

Lemma write_point_app (v : Vec3) (b : str) :
  write_point v ++ b
  = "("%char :: SP :: format_float (x v) ++ SP :: format_float (y v) ++ SP
      :: format_float (z v) ++ SP :: ")"%char :: b.
Proof.
  unfold write_point, lit. cbn [list_ascii_of_string].
  repeat (rewrite <- app_assoc; cbn [app]). reflexivity.
Qed.

Definition stable_point (v : Vec3) : bool :=
  stable_number (x v) && stable_number (y v) && stable_number (z v).

Lemma parse_point_written (p : Parser) (v : Vec3) (b : str) :
  stable_point v = true -> ahead p (write_point v ++ b) ->
  exists v' p', _parse_point p = Ok (v', p') /\ ahead p' b /\ write_point v' = write_point v.
Proof.
  intros Hv H. rewrite write_point_app in H.
  apply andb_true_iff in Hv. destruct Hv as [Hv Hz].
  apply andb_true_iff in Hv. destruct Hv as [Hx Hy].
  unfold _parse_point.
  destruct (ahead_expect _ _ _ H) as [E0 H0]. rewrite E0. cbn [bind]. clear E0.
  apply skip_space_before in H0; [|apply stops_blank_bare; apply format_float_bare].
  destruct (parse_float_token_written InvalidCoordinate _ _ _ Hx (stops_space _) H0) as [wx [p1 [E1 [H1 F1]]]].
  rewrite E1. cbn [bind]. clear E1.
  apply skip_space_before in H1; [|apply stops_blank_bare; apply format_float_bare].
  destruct (parse_float_token_written InvalidCoordinate _ _ _ Hy (stops_space _) H1) as [wy [p2 [E2 [H2 F2]]]].
  rewrite E2. cbn [bind]. clear E2.
  apply skip_space_before in H2; [|apply stops_blank_bare; apply format_float_bare].
  destruct (parse_float_token_written InvalidCoordinate _ _ _ Hz (stops_space _) H2) as [wz [p3 [E3 [H3 F3]]]].
  rewrite E3. cbn [bind]. clear E3.
  apply skip_space_before in H3; [|reflexivity].
  destruct (ahead_expect _ _ _ H3) as [E4 H4]. rewrite E4. cbn [bind].
  eexists. eexists. split; [reflexivity|]. split; [exact H4|].
  unfold write_point. cbn [x y z]. rewrite F1, F2, F3. reflexivity.
Qed.

Lemma stops_blank_point (v : Vec3) (b : str) : stops is_blank (write_point v ++ b).
Proof. rewrite write_point_app. reflexivity. Qed.

Lemma write_face_app (f : Face) (b : str) :
  write_face f ++ b
  = write_point (point1 f) ++ SP :: write_point (point2 f) ++ SP
      :: write_point (point3 f) ++ SP :: texture f ++ SP
      :: format_float (offset_u f) ++ SP :: format_float (offset_v f) ++ SP
      :: format_float (rotation f) ++ SP :: format_float (scale_u f) ++ SP
      :: format_float (scale_v f) ++ b.
Proof.
  unfold write_face, lit. cbn [list_ascii_of_string].
  repeat (rewrite <- app_assoc; cbn [app]). reflexivity.
Qed.

(** The conditions under which a written face is read back: its texture is
    a bare token and its numbers are stable. *)
Definition face_ready (f : Face) : bool :=
  stable_point (point1 f) && stable_point (point2 f) && stable_point (point3 f)
  && bare_token (texture f)
  && stable_number (offset_u f) && stable_number (offset_v f)
  && stable_number (rotation f) && stable_number (scale_u f)
  && stable_number (scale_v f).

Lemma parse_face_written (p : Parser) (f : Face) (b : str) :
  face_ready f = true -> stops bare_char b -> ahead p (write_face f ++ b) ->
  exists f' p', _parse_face p = Ok (f', p') /\ ahead p' b /\ write_face f' = write_face f.
Proof.
  intros Hf Hb H. rewrite write_face_app in H. unfold face_ready in Hf.
  do 8 (apply andb_true_iff in Hf; let K := fresh "K" in destruct Hf as [Hf K]).
  unfold _parse_face.
  destruct (parse_point_written _ _ _ Hf H) as [q1 [s1 [E1 [H1 F1]]]].
  rewrite E1. cbn [bind]. clear E1.
  apply skip_space_before in H1; [|apply stops_blank_point].
  destruct (parse_point_written _ _ _ K6 H1) as [q2 [s2 [E2 [H2 F2]]]].
  rewrite E2. cbn [bind]. clear E2.
  apply skip_space_before in H2; [|apply stops_blank_point].
  destruct (parse_point_written _ _ _ K5 H2) as [q3 [s3 [E3 [H3 F3]]]].
  rewrite E3. cbn [bind]. clear E3.
  apply skip_space_before in H3; [|apply stops_blank_bare; exact K4].
  destruct (parse_token_bare _ _ _ K4 (stops_space _) H3) as [s4 [E4 H4]].
  rewrite E4. cbn [bind]. clear E4.
  apply skip_space_before in H4; [|apply stops_blank_bare; apply format_float_bare].
  destruct (parse_float_token_written InvalidNumericValue _ _ _ K3 (stops_space _) H4)
    as [w5 [s5 [E5 [H5 F5]]]].
  rewrite E5. cbn [bind]. clear E5.
  apply skip_space_before in H5; [|apply stops_blank_bare; apply format_float_bare].
  destruct (parse_float_token_written InvalidNumericValue _ _ _ K2 (stops_space _) H5)
    as [w6 [s6 [E6 [H6 F6]]]].
  rewrite E6. cbn [bind]. clear E6.
  apply skip_space_before in H6; [|apply stops_blank_bare; apply format_float_bare].
  destruct (parse_float_token_written InvalidNumericValue _ _ _ K1 (stops_space _) H6)
    as [w7 [s7 [E7 [H7 F7]]]].
  rewrite E7. cbn [bind]. clear E7.
  apply skip_space_before in H7; [|apply stops_blank_bare; apply format_float_bare].
  destruct (parse_float_token_written InvalidNumericValue _ _ _ K0 (stops_space _) H7)
    as [w8 [s8 [E8 [H8 F8]]]].
  rewrite E8. cbn [bind]. clear E8.
  apply skip_space_before in H8; [|apply stops_blank_bare; apply format_float_bare].
  destruct (parse_float_token_written InvalidNumericValue _ _ _ K Hb H8)
    as [w9 [s9 [E9 [H9 F9]]]].
  rewrite E9. cbn [bind]. clear E9.
  eexists. eexists. split; [reflexivity|]. split; [exact H9|].
  unfold write_face. cbn [point1 point2 point3 texture offset_u offset_v rotation scale_u scale_v].
  rewrite F1, F2, F3, F5, F6, F7, F8, F9. reflexivity.
Qed.

(** *** Reading back brushes *)

Lemma join_cons (sep l : str) (ls : list str) :
  join sep (l :: ls) = l ++ flat_map (fun s => sep ++ s) ls.
Proof.
  revert l. induction ls as [|l2 ls IH]; intro l.
  - simpl. rewrite app_nil_r. reflexivity.
  - change (join sep (l :: l2 :: ls)) with (l ++ sep ++ join sep (l2 :: ls)).
    rewrite IH. simpl. rewrite <- app_assoc. reflexivity.
Qed.

Definition IND4 : str := lit "    ".

Definition faces_text (fs : list Face) : str :=
  flat_map (fun f => NL :: IND4 ++ IND4 ++ write_face f) fs.

Lemma write_brush_app (b : Brush) (rest : str) :
  write_brush b IND4 ++ rest
  = IND4 ++ "{"%char :: faces_text (faces b) ++ NL :: IND4 ++ "}"%char :: rest.
Proof.
  unfold write_brush. cbn [app]. rewrite join_cons.
  rewrite flat_map_app. rewrite flat_map_concat_map, map_map, <- flat_map_concat_map.
  unfold faces_text, lit. cbn [list_ascii_of_string flat_map].
  repeat (rewrite <- app_assoc; cbn [app]).
  reflexivity.
Qed.

Lemma faces_text_length (fs : list Face) : List.length fs <= List.length (faces_text fs).
Proof.
  induction fs as [|f fs IH]; simpl; [lia|]. rewrite !length_app. lia.
Qed.

Lemma write_face_starts (f : Face) (b : str) :
  exists t, write_face f ++ b = "("%char :: t.
Proof. rewrite write_face_app, write_point_app. eexists. reflexivity. Qed.

Lemma stops_after_face (fs : list Face) (b : str) :
  stops bare_char (faces_text fs ++ NL :: b).
Proof. destruct fs; reflexivity. Qed.

Lemma IND4_space : Forall (fun c => isspace c = true) IND4.
Proof. repeat constructor. Qed.

Lemma NL_IND4_space : Forall (fun c => isspace c = true) (NL :: IND4).
Proof. repeat constructor. Qed.

Lemma NL_IND8_space : Forall (fun c => isspace c = true) (NL :: IND4 ++ IND4).
Proof. repeat constructor. Qed.

Lemma skip_to_face (p : Parser) (ws : str) (f : Face) (R : str) :
  Forall (fun c => isspace c = true) ws ->
  ahead p (ws ++ write_face f ++ R) ->
  let q := _skip_whitespace_and_comments p in
  ahead q (write_face f ++ R)
  /\ in_source q && ascii_eqb (_peek q) "("%char = true
  /\ S (List.length R) <= plen q - pos q.
Proof.
  intros Hws H q.
  destruct (write_face_starts f R) as [t Et].
  assert (Hq : ahead q (write_face f ++ R)).
  { apply (ahead_skip_whitespace_and_comments p ws (write_face f ++ R) Hws);
      [rewrite Et; reflexivity | exact H]. }
  split; [exact Hq|]. split.
  - pose proof Hq as Hq'. rewrite Et in Hq'.
    rewrite (ahead_in_source _ _ _ Hq'), (ahead_peek _ _ _ Hq'). reflexivity.
  - rewrite (ahead_remaining _ _ Hq).
    destruct (write_face_starts f []) as [t0 Et0]. rewrite app_nil_r in Et0.
    rewrite length_app, Et0. simpl. lia.
Qed.

Definition same_face_text (f f' : Face) : Prop := write_face f' = write_face f.

Lemma faces_text_cons (f : Face) (fs : list Face) (R : str) :
  faces_text (f :: fs) ++ R = (NL :: IND4 ++ IND4) ++ write_face f ++ faces_text fs ++ R.
Proof.
  unfold faces_text. cbn [flat_map app]. repeat rewrite <- app_assoc. reflexivity.
Qed.

Lemma parse_faces_loop_written (fs : list Face) :
  forall (fuel : nat) (acc : Brush) (p : Parser) (rest : str),
    forallb face_ready fs = true -> List.length fs <= fuel ->
    ahead p (faces_text fs ++ NL :: IND4 ++ "}"%char :: rest) ->
    exists fs' p',
      parse_faces_loop fuel acc (_skip_whitespace_and_comments p)
      = Ok ({| faces := faces acc ++ fs' |}, p')
      /\ ahead p' ("}"%char :: rest)
      /\ Forall2 same_face_text fs fs'.
Proof.
  induction fs as [|f fs IH]; intros fuel acc p rest Hr Hfuel H.
  - cbn [faces_text flat_map app] in H.
    apply (ahead_skip_whitespace_and_comments p (NL :: IND4) ("}"%char :: rest)
             NL_IND4_space eq_refl) in H.
    exists [], (_skip_whitespace_and_comments p).
    rewrite parse_faces_loop_stop
      by (rewrite (ahead_peek _ _ _ H); apply andb_false_r).
    rewrite app_nil_r. destruct acc. split; [reflexivity|]. split; [exact H | constructor].
  - cbn [forallb] in Hr. apply andb_true_iff in Hr. destruct Hr as [Hf Hr].
    destruct fuel as [|fuel]; [simpl in Hfuel; lia|].
    rewrite faces_text_cons in H.
    destruct (skip_to_face p _ f _ NL_IND8_space H) as [Hq [Hc _]].
    cbn [parse_faces_loop]. rewrite Hc.
    destruct (parse_face_written _ f _ Hf (stops_after_face fs _) Hq) as [f' [p1 [E1 [H1 F1]]]].
    rewrite E1. cbn [bind].
    destruct (IH fuel {| faces := faces acc ++ [f'] |} p1 rest Hr ltac:(simpl in Hfuel; lia) H1)
      as [fs' [p' [E2 [H2 F2]]]].
    exists (f' :: fs'), p'. rewrite E2. cbn [faces]. rewrite <- app_assoc.
    split; [reflexivity|]. split; [exact H2|]. constructor; assumption.
Qed.

(** A brush is ready when all its faces are. *)
Definition brush_ready (b : Brush) : bool := forallb face_ready (faces b).

Definition same_brush_text (b b' : Brush) : Prop :=
  forall indent, write_brush b' indent = write_brush b indent.

Lemma same_faces_same_brush (fs fs' : list Face) :
  Forall2 same_face_text fs fs' -> same_brush_text {| faces := fs |} {| faces := fs' |}.
Proof.
  intros H indent. unfold write_brush. cbn [faces].
  assert (E : map (fun face => indent ++ lit "    " ++ write_face face) fs'
              = map (fun face => indent ++ lit "    " ++ write_face face) fs).
  { induction H as [|f f' fs fs' Hf _ IH]; [reflexivity|].
    cbn [map]. rewrite Hf, IH. reflexivity. }
  rewrite E. reflexivity.
Qed.

Lemma parse_brush_written (p : Parser) (b : Brush) (rest : str) :
  brush_ready b = true ->
  ahead p ("{"%char :: faces_text (faces b) ++ NL :: IND4 ++ "}"%char :: rest) ->
  exists b' p', _parse_brush p = Ok (b', p') /\ ahead p' rest /\ same_brush_text b b'.
Proof.
  intros Hb H. unfold _parse_brush.
  destruct (ahead_expect _ _ _ H) as [E0 H0]. rewrite E0. cbn [bind]. clear E0.
  set (p1 := snd (_advance p)) in *.
  assert (Hfuel : List.length (faces b)
                  <= plen (_skip_whitespace_and_comments p1) - pos (_skip_whitespace_and_comments p1)).
  { destruct (faces b) as [|f fs] eqn:E; [simpl; lia|].
    pose proof H0 as H0'. rewrite faces_text_cons in H0'.
    destruct (skip_to_face p1 _ f _ NL_IND8_space H0') as [_ [_ L]].
    rewrite length_app in L. pose proof (faces_text_length fs). simpl. lia. }
  destruct (parse_faces_loop_written (faces b) _ {| faces := [] |} p1 rest Hb Hfuel H0)
    as [fs' [p2 [E2 [H2 F2]]]].
  rewrite E2. cbn [bind].
  destruct (ahead_expect _ _ _ H2) as [E3 H3]. rewrite E3. cbn [bind].
  eexists. eexists. split; [reflexivity|]. split; [exact H3|].
  destruct b as [fs]. cbn [faces app]. apply same_faces_same_brush. exact F2.
Qed.

(** *** Reading back properties *)

Definition no_quote (s : str) : bool := forallb (fun c => negb (ascii_eqb c QUOTE)) s.

Lemma replace_char_no_quote (s : str) :
  no_quote s = true -> replace_char QUOTE [BACKSLASH; QUOTE] s = s.
Proof.
  induction s as [|c s IH]; intro H; [reflexivity|].
  simpl in H. apply andb_true_iff in H. destruct H as [Hc Hs].
  unfold replace_char. simpl. fold (replace_char QUOTE [BACKSLASH; QUOTE] s).
  rewrite IH by exact Hs.
  destruct (ascii_eqb c QUOTE); [discriminate Hc | reflexivity].
Qed.

Lemma parse_quoted_string_written (p : Parser) (s b : str) :
  no_quote s = true -> ahead p (QUOTE :: s ++ QUOTE :: b) ->
  exists p', _parse_quoted_string p = Ok (s, p') /\ ahead p' b.
Proof.
  intros Hs [a H]. unfold _parse_quoted_string.
  rewrite (expect_cons H). cbn [bind].
  pose proof (advance_cons H) as H1. set (p1 := snd (_advance p)) in *.
  assert (H2 : splits (while_advance (fun q => in_source q && negb (ascii_eqb (_peek q) QUOTE))
                                     (plen p1 - pos p1) p1) ((a ++ [QUOTE]) ++ s) (QUOTE :: b)).
  { apply (while_advance_run (fun c => negb (ascii_eqb c QUOTE))).
    - apply Forall_forall. intros c Hc. unfold no_quote in Hs.
      rewrite forallb_forall in Hs. apply Hs. exact Hc.
    - reflexivity.
    - exact H1.
    - rewrite (splits_remaining H1), length_app. lia. }
  set (p2 := while_advance _ _ p1) in *.
  rewrite (slice_between s H1 H2).
  rewrite (expect_cons H2). cbn [bind].
  eexists. split; [reflexivity|].
  eexists. exact (advance_cons H2).
Qed.

(** The text of a property from its first quote on, as [write_entity] lays
    it out when the value holds no quote. *)
Definition prop_body (kv : str * str) (rest : str) : str :=
  QUOTE :: fst kv ++ QUOTE :: SP :: QUOTE :: snd kv ++ QUOTE :: rest.

Definition prop_ready (kv : str * str) : bool := no_quote (fst kv) && no_quote (snd kv).

Lemma parse_property_written (p : Parser) (kv : str * str) (rest : str) :
  prop_ready kv = true -> ahead p (prop_body kv rest) ->
  exists p', _parse_property p = Ok (fst kv, snd kv, p') /\ ahead p' rest.
Proof.
  intros Hr H. apply andb_true_iff in Hr. destruct Hr as [Hk Hv].
  unfold prop_body in H. unfold _parse_property.
  destruct (parse_quoted_string_written p _ _ Hk H) as [p1 [E1 H1]].
  rewrite E1. cbn [bind].
  apply (ahead_skip_whitespace_and_comments p1 [SP] (QUOTE :: snd kv ++ QUOTE :: rest)) in H1;
    [|repeat constructor | reflexivity].
  destruct (parse_quoted_string_written _ _ _ Hv H1) as [p2 [E2 H2]].
  rewrite E2. cbn [bind]. exists p2. split; [reflexivity | exact H2].
Qed.

Definition props_text (ps : dict) : str :=
  flat_map (fun kv => NL :: IND4 ++ prop_body kv []) ps.

Lemma props_text_cons (kv : str * str) (ps : dict) (R : str) :
  props_text (kv :: ps) ++ R = (NL :: IND4) ++ prop_body kv (props_text ps ++ R).
Proof.
  unfold props_text, prop_body. cbn [flat_map app].
  repeat (rewrite <- app_assoc; cbn [app]). reflexivity.
Qed.

Lemma props_text_length (ps : dict) : List.length ps <= List.length (props_text ps).
Proof.
  induction ps as [|kv ps IH]; simpl; [lia|]. rewrite !length_app. lia.
Qed.

(** What follows the properties: whitespace, then a character that is not a
    quote (nor the start of a comment). *)
Definition closes_properties (R : str) : Prop :=
  exists w c R', R = w ++ c :: R' /\ Forall (fun d => isspace d = true) w
                 /\ (isspace c || ascii_eqb c "/"%char) = false
                 /\ ascii_eqb c QUOTE = false.

Definition set_properties (ps : dict) (entity : Entity) : Entity :=
  fold_left (fun e kv => Entity_set_property e (fst kv) (snd kv)) ps entity.

Lemma parse_properties_loop_written (ps : dict) :
  forall (fuel : nat) (entity : Entity) (p : Parser) (R : str),
    forallb prop_ready ps = true -> List.length ps <= fuel ->
    closes_properties R ->
    ahead p (props_text ps ++ R) ->
    exists p',
      parse_properties_loop fuel entity (_skip_whitespace_and_comments p)
      = Ok (set_properties ps entity, _skip_whitespace_and_comments p')
      /\ ahead p' R.
Proof.
  induction ps as [|kv ps IH]; intros fuel entity p R Hr Hfuel HR H.
  - cbn [props_text flat_map app] in H. exists p. split; [|exact H].
    destruct HR as [w [c [R' [ER [Hw [Hc Hq]]]]]]. subst R.
    apply (ahead_skip_whitespace_and_comments p w (c :: R') Hw Hc) in H.
    rewrite parse_properties_loop_stop; [reflexivity|].
    rewrite (ahead_peek _ _ _ H), Hq. apply andb_false_r.
  - cbn [forallb] in Hr. apply andb_true_iff in Hr. destruct Hr as [Hkv Hr].
    destruct fuel as [|fuel]; [simpl in Hfuel; lia|].
    rewrite props_text_cons in H.
    apply (ahead_skip_whitespace_and_comments p (NL :: IND4)
             (prop_body kv (props_text ps ++ R)) NL_IND4_space eq_refl) in H.
    cbn [parse_properties_loop].
    pose proof H as H'. unfold prop_body in H'.
    rewrite (ahead_in_source _ _ _ H'), (ahead_peek _ _ _ H'). cbn [andb].
    rewrite ascii_eqb_refl.
    destruct (parse_property_written _ kv _ Hkv H) as [p1 [E1 H1]].
    rewrite E1. cbn [bind].
    destruct (IH fuel (Entity_set_property entity (fst kv) (snd kv)) p1 R Hr
                 ltac:(simpl in Hfuel; lia) HR H1) as [p' [E2 H2]].
    exists p'. rewrite E2. split; [reflexivity | exact H2].
Qed.

(** *** Reading back entities *)

Definition brushes_text (bs : list Brush) : str :=
  flat_map (fun b => NL :: write_brush b IND4) bs.

Definition brush_body (b : Brush) (rest : str) : str :=
  "{"%char :: faces_text (faces b) ++ NL :: IND4 ++ "}"%char :: rest.

Lemma brushes_text_cons (b : Brush) (bs : list Brush) (R : str) :
  brushes_text (b :: bs) ++ R = (NL :: IND4) ++ brush_body b (brushes_text bs ++ R).
Proof.
  unfold brushes_text, brush_body. cbn [flat_map app].
  rewrite <- app_assoc. rewrite write_brush_app. reflexivity.
Qed.

Lemma brushes_text_length (bs : list Brush) : List.length bs <= List.length (brushes_text bs).
Proof.
  induction bs as [|b bs IH]; simpl; [lia|]. rewrite !length_app. lia.
Qed.

Definition with_brushes (entity : Entity) (bs : list Brush) : Entity :=
  {| classname := classname entity; properties := properties entity;
     brushes := brushes entity ++ bs |}.

Lemma parse_brushes_loop_written (bs : list Brush) :
  forall (fuel : nat) (entity : Entity) (p : Parser) (rest : str),
    forallb brush_ready bs = true -> List.length bs <= fuel ->
    ahead p (brushes_text bs ++ NL :: "}"%char :: rest) ->
    exists bs' p',
      parse_brushes_loop fuel entity (_skip_whitespace_and_comments p)
      = Ok (with_brushes entity bs', p')
      /\ ahead p' ("}"%char :: rest)
      /\ Forall2 same_brush_text bs bs'.
Proof.
  induction bs as [|b bs IH]; intros fuel entity p rest Hr Hfuel H.
  - cbn [brushes_text flat_map app] in H.
    apply (ahead_skip_whitespace_and_comments p [NL] ("}"%char :: rest)) in H;
      [|repeat constructor | reflexivity].
    exists [], (_skip_whitespace_and_comments p).
    rewrite parse_brushes_loop_stop
      by (rewrite (ahead_peek _ _ _ H); apply andb_false_r).
    unfold with_brushes. rewrite app_nil_r. destruct entity.
    split; [reflexivity|]. split; [exact H | constructor].
  - cbn [forallb] in Hr. apply andb_true_iff in Hr. destruct Hr as [Hb Hr].
    destruct fuel as [|fuel]; [simpl in Hfuel; lia|].
    rewrite brushes_text_cons in H.
    apply (ahead_skip_whitespace_and_comments p (NL :: IND4)
             (brush_body b (brushes_text bs ++ NL :: "}"%char :: rest))
             NL_IND4_space eq_refl) in H.
    cbn [parse_brushes_loop].
    pose proof H as H'. unfold brush_body in H'.
    rewrite (ahead_in_source _ _ _ H'), (ahead_peek _ _ _ H'). cbn [andb].
    rewrite ascii_eqb_refl.
    destruct (parse_brush_written _ b _ Hb H) as [b' [p1 [E1 [H1 F1]]]].
    rewrite E1. cbn [bind].
    destruct (IH fuel (Entity_append_brush entity b') p1 rest Hr
                 ltac:(simpl in Hfuel; lia) H1) as [bs' [p' [E2 [H2 F2]]]].
    exists (b' :: bs'), p'. rewrite E2. unfold with_brushes, Entity_append_brush.
    cbn [classname properties brushes]. rewrite <- app_assoc.
    split; [reflexivity|]. split; [exact H2|]. constructor; assumption.
Qed.

Lemma write_entity_app (e : Entity) (i : nat) (rest : str) :
  forallb prop_ready (properties e) = true ->
  write_entity e i ++ rest
  = "{"%char :: props_text (properties e) ++ brushes_text (brushes e)
      ++ NL :: "}"%char :: rest.
Proof.
  intro Hp. unfold write_entity. cbn [app]. rewrite join_cons.
  rewrite !flat_map_app.
  rewrite !flat_map_concat_map, !map_map, <- !flat_map_concat_map.
  unfold lit at 1. cbn [list_ascii_of_string app flat_map].
  rewrite <- !app_assoc. cbn [app]. f_equal.
  f_equal.
  unfold props_text. induction (properties e) as [|kv ps IH]; [reflexivity|].
    cbn [forallb] in Hp. apply andb_true_iff in Hp. destruct Hp as [Hkv Hp].
    cbn [flat_map]. rewrite (IH Hp). f_equal.
    apply andb_true_iff in Hkv. destruct Hkv as [_ Hv].
    rewrite replace_char_no_quote by exact Hv. reflexivity.
Qed.

Definition has_key (d : dict) (k : str) : bool :=
  match dict_get d k with Some _ => true | None => false end.

(** The keys of a [dict] are pairwise different. *)
Fixpoint unique_keys (d : dict) : bool :=
  match d with
  | [] => true
  | (k, _) :: d' => negb (has_key d' k) && unique_keys d'
  end.

Lemma dict_set_fresh (d : dict) (k v : str) :
  has_key d k = false -> dict_set d k v = d ++ [(k, v)].
Proof.
  unfold has_key. induction d as [|[k' v'] d IH]; intro H; [reflexivity|].
  simpl in *. destruct (str_eqb k' k); [discriminate H|].
  rewrite IH by exact H. reflexivity.
Qed.

Lemma has_key_middle (d : dict) (k v : str) (ps : dict) :
  has_key (d ++ (k, v) :: ps) k = true.
Proof.
  unfold has_key. induction d as [|[k' v'] d IH]; simpl.
  - rewrite str_eqb_refl. reflexivity.
  - destruct (str_eqb k' k); [reflexivity | exact IH].
Qed.

Lemma unique_keys_middle (d : dict) (k v : str) (ps : dict) :
  unique_keys (d ++ (k, v) :: ps) = true -> has_key d k = false.
Proof.
  induction d as [|[k' v'] d IH]; intro H; [reflexivity|].
  simpl in H. apply andb_true_iff in H. destruct H as [H1 H2].
  unfold has_key in *. simpl.
  destruct (str_eqb k' k) eqn:E.
  - apply str_eqb_eq in E. subst k'.
    pose proof (has_key_middle d k v ps) as K. unfold has_key in K.
    destruct (dict_get (d ++ (k, v) :: ps) k); [discriminate H1 | discriminate K].
  - apply IH. exact H2.
Qed.

Lemma set_properties_fresh (ps : dict) :
  forall entity : Entity,
    unique_keys (properties entity ++ ps) = true ->
    properties (set_properties ps entity) = properties entity ++ ps
    /\ brushes (set_properties ps entity) = brushes entity.
Proof.
  induction ps as [|[k v] ps IH]; intros entity H.
  - simpl. rewrite app_nil_r. split; reflexivity.
  - unfold set_properties. cbn [fold_left fst snd].
    fold (set_properties ps (Entity_set_property entity k v)).
    assert (E : properties (Entity_set_property entity k v) = properties entity ++ [(k, v)]).
    { unfold Entity_set_property. cbn [properties].
      apply dict_set_fresh. exact (unique_keys_middle _ _ _ _ H). }
    destruct (IH (Entity_set_property entity k v)) as [P B].
    + rewrite E. rewrite <- app_assoc. exact H.
    + rewrite P, B, E. rewrite <- app_assoc. split; reflexivity.
Qed.

(** An entity is ready when its property keys and values hold no double
    quote, its keys are pairwise different, and its brushes are ready. *)
Definition entity_ready (e : Entity) : bool :=
  forallb prop_ready (properties e) && unique_keys (properties e)
  && forallb brush_ready (brushes e).

Definition same_entity_text (e e' : Entity) : Prop :=
  forall i j, write_entity e' i = write_entity e j.

Lemma closes_properties_brushes (bs : list Brush) (rest : str) :
  closes_properties (brushes_text bs ++ NL :: "}"%char :: rest).
Proof.
  destruct bs as [|b bs].
  - exists [NL], "}"%char, rest. repeat split. repeat constructor.
  - rewrite brushes_text_cons. unfold brush_body.
    exists (NL :: IND4), "{"%char. eexists. split; [reflexivity|].
    split; [exact NL_IND4_space|]. split; reflexivity.
Qed.

Lemma parse_entity_written (p : Parser) (e : Entity) (i : nat) (rest : str) :
  entity_ready e = true -> ahead p (write_entity e i ++ rest) ->
  exists e' p', _parse_entity p = Ok (e', p') /\ ahead p' rest /\ same_entity_text e e'.
Proof.
  intros He H. unfold entity_ready in He.
  apply andb_true_iff in He. destruct He as [He Hbs].
  apply andb_true_iff in He. destruct He as [Hps Hu].
  rewrite (write_entity_app e i rest Hps) in H.
  unfold _parse_entity.
  destruct (ahead_expect _ _ _ H) as [E0 H0]. rewrite E0. cbn [bind]. clear E0.
  set (p1 := snd (_advance p)) in *.
  set (R := brushes_text (brushes e) ++ NL :: "}"%char :: rest) in *.
  (* the properties *)
  assert (F1 : List.length (properties e)
               <= plen (_skip_whitespace_and_comments p1) - pos (_skip_whitespace_and_comments p1)).
  { destruct (properties e) as [|kv ps] eqn:E; [simpl; lia|].
    pose proof H0 as H0'. rewrite props_text_cons in H0'.
    apply (ahead_skip_whitespace_and_comments p1 (NL :: IND4)
             (prop_body kv (props_text ps ++ R)) NL_IND4_space eq_refl) in H0'.
    rewrite (ahead_remaining _ _ H0'). unfold prop_body. cbn [List.length].
    rewrite !length_app. cbn [List.length]. rewrite !length_app.
    pose proof (props_text_length ps). simpl. rewrite ?length_app. lia. }
  destruct (parse_properties_loop_written (properties e) _ (Entity_init [] [] []) p1 R
              Hps F1 (closes_properties_brushes _ _) H0) as [p2 [E2 H2]].
  rewrite E2. cbn [bind]. clear E2.
  (* the brushes *)
  assert (F2 : List.length (brushes e)
               <= plen (_skip_whitespace_and_comments p2) - pos (_skip_whitespace_and_comments p2)).
  { destruct (brushes e) as [|b bs] eqn:E; [simpl; lia|].
    pose proof H2 as H2'. unfold R in H2'. rewrite brushes_text_cons in H2'.
    apply (ahead_skip_whitespace_and_comments p2 (NL :: IND4)
             (brush_body b (brushes_text bs ++ NL :: "}"%char :: rest))
             NL_IND4_space eq_refl) in H2'.
    rewrite (ahead_remaining _ _ H2'). unfold brush_body. cbn [List.length].
    rewrite !length_app. cbn [List.length]. rewrite !length_app.
    pose proof (brushes_text_length bs). simpl. rewrite ?length_app. lia. }
  destruct (parse_brushes_loop_written (brushes e) _
              (set_properties (properties e) (Entity_init [] [] [])) p2 rest Hbs F2 H2)
    as [bs' [p3 [E3 [H3 B3]]]].
  rewrite E3. cbn [bind]. clear E3.
  destruct (ahead_expect _ _ _ H3) as [E4 H4]. rewrite E4. cbn [bind].
  eexists. eexists. split; [reflexivity|]. split; [exact H4|].
  intros i' j'. unfold write_entity, with_brushes. cbn [properties brushes].
  destruct (set_properties_fresh (properties e) (Entity_init [] [] [])) as [P B];
    [exact Hu|].
  rewrite P, B. cbn [Entity_init Entity_post_init classname truthy properties brushes app].
  assert (M : map (fun brush => write_brush brush (lit "    ")) bs'
              = map (fun brush => write_brush brush (lit "    ")) (brushes e)).
  { clear - B3. induction B3 as [|b b' bs bs' Hb _ IH]; [reflexivity|].
    cbn [map]. rewrite (Hb (lit "    ")), IH. reflexivity. }
  rewrite M. reflexivity.
Qed.

(** *** Reading back documents *)

Definition tail_text (es : list Entity) : str :=
  flat_map (fun e => NL :: NL :: write_entity e 0) es.

(** The entities as the writer lays them out, after the whitespace [w]. *)
Definition entities_text (w : str) (es : list Entity) : str :=
  match es with
  | [] => []
  | e :: es' => w ++ write_entity e 0 ++ tail_text es'
  end.

Lemma tail_text_entities_text (es : list Entity) : tail_text es = entities_text [NL; NL] es.
Proof. destruct es; reflexivity. Qed.

Lemma write_map_lines_tail (es : list Entity) :
  forall i, flat_map (fun s => [NL] ++ s) (write_map_lines (S i) es) = tail_text es.
Proof.
  induction es as [|e es IH]; intro i; [reflexivity|].
  cbn [write_map_lines]. 
  replace (0 <? S i) with true by reflexivity.
  cbn [app flat_map]. rewrite IH. reflexivity.
Qed.

Lemma write_map_to_string_text (m : MapFile) :
  write_map_to_string m = entities_text [] (entities m).
Proof.
  unfold write_map_to_string. destruct (entities m) as [|e es]; [reflexivity|].
  cbn [write_map_lines]. replace (0 <? 0) with false by reflexivity.
  cbn [app]. rewrite join_cons, write_map_lines_tail. reflexivity.
Qed.

Lemma write_entity_starts (e : Entity) (i : nat) (R : str) :
  exists t, write_entity e i ++ R = "{"%char :: t.
Proof.
  unfold write_entity. cbn [app]. rewrite join_cons. eexists. reflexivity.
Qed.

Lemma tail_text_length (es : list Entity) : List.length es <= List.length (tail_text es).
Proof.
  induction es as [|e es IH]; simpl; [lia|]. rewrite !length_app. lia.
Qed.

Lemma parse_loop_end (fuel : nat) (m : MapFile) (p : Parser) :
  ahead p [] -> parse_loop fuel m p = Ok m.
Proof. intros [a H]. exact (parse_loop_stop fuel m H). Qed.

Lemma skip_at_brace (p : Parser) (w t : str) :
  Forall (fun c => isspace c = true) w ->
  ahead p (w ++ "{"%char :: t) -> ahead (_skip_whitespace_and_comments p) ("{"%char :: t).
Proof.
  intros Hw H.
  exact (ahead_skip_whitespace_and_comments p w ("{"%char :: t) Hw eq_refl H).
Qed.

Lemma parse_loop_written (es : list Entity) :
  forall (fuel : nat) (m : MapFile) (p : Parser) (w : str),
    Forall (fun c => isspace c = true) w ->
    forallb entity_ready es = true -> List.length es <= fuel ->
    ahead p (entities_text w es) ->
    exists es',
      parse_loop fuel m (_skip_whitespace_and_comments p)
      = Ok {| entities := entities m ++ es' |}
      /\ Forall2 same_entity_text es es'.
Proof.
  induction es as [|e es IH]; intros fuel m p w Hw Hr Hfuel H.
  - cbn [entities_text] in H. exists [].
    apply (ahead_skip_whitespace_and_comments p [] [] (Forall_nil _) I) in H.
    rewrite (parse_loop_end fuel m _ H). rewrite app_nil_r. destruct m.
    split; [reflexivity | constructor].
  - cbn [forallb] in Hr. apply andb_true_iff in Hr. destruct Hr as [He Hr].
    destruct fuel as [|fuel]; [simpl in Hfuel; lia|].
    cbn [entities_text] in H.
    destruct (write_entity_starts e 0 (tail_text es)) as [t Et].
    pose proof H as H'. rewrite Et in H'.
    apply (skip_at_brace p w t Hw) in H'.
    pose proof (skip_at_brace _ [] t (Forall_nil _) H') as H''.
    cbn [parse_loop]. rewrite (ahead_in_source _ _ _ H').
    set (q := _skip_whitespace_and_comments (_skip_whitespace_and_comments p)) in *.
    assert (Hin : (plen q <=? pos q) = false).
    { apply Nat.leb_gt. apply Nat.ltb_lt. exact (ahead_in_source _ _ _ H''). }
    rewrite Hin, (ahead_peek _ _ _ H''), ascii_eqb_refl.
    rewrite <- Et in H''.
    destruct (parse_entity_written q e 0 (tail_text es) He H'') as [e' [p1 [E1 [H1 S1]]]].
    rewrite E1. cbn [bind].
    rewrite tail_text_entities_text in H1.
    destruct (IH fuel (fst (MapFile_add_entity m e')) p1 [NL; NL]) as [es' [E2 S2]];
      [repeat constructor | exact Hr | simpl in Hfuel; lia | exact H1 |].
    exists (e' :: es'). rewrite E2. cbn [MapFile_add_entity fst entities].
    rewrite <- app_assoc. split; [reflexivity | constructor; assumption].
Qed.

Lemma same_entities_same_lines (es es' : list Entity) :
  Forall2 same_entity_text es es' ->
  forall i, write_map_lines i es' = write_map_lines i es.
Proof.
  induction 1 as [|e e' es es' He _ IH]; intro i; [reflexivity|].
  cbn [write_map_lines]. rewrite (He i i), IH. reflexivity.
Qed.

(** A document is ready when all its entities are. *)
Definition document_ready (m : MapFile) : bool := forallb entity_ready (entities m).

Lemma ready_document_reads_back (m : MapFile) :
  document_ready m = true ->
  exists m', parse_map (write_map_to_string m) = Ok m'
             /\ write_map_to_string m' = write_map_to_string m.
Proof.
  intro Hr. unfold parse_map, MapParser_parse.
  pose proof (ahead_init (write_map_to_string m)) as H0.
  rewrite write_map_to_string_text in H0 at 2.
  set (p0 := MapParser_init (write_map_to_string m)) in *.
  assert (F : List.length (entities m)
              <= plen (_skip_whitespace_and_comments p0) - pos (_skip_whitespace_and_comments p0)).
  { destruct (entities m) as [|e es] eqn:E; [simpl; lia|].
    pose proof H0 as H0'. cbn [entities_text app] in H0'.
    destruct (write_entity_starts e 0 (tail_text es)) as [t Et]. rewrite Et in H0'.
    apply (skip_at_brace p0 [] t (Forall_nil _)) in H0'.
    rewrite (ahead_remaining _ _ H0'), <- Et, length_app.
    destruct (write_entity_starts e 0 []) as [t0 Et0]. rewrite app_nil_r in Et0.
    rewrite Et0. pose proof (tail_text_length es). simpl. lia. }
  destruct (parse_loop_written (entities m) _ {| entities := [] |} p0 []
              (Forall_nil _) Hr F H0) as [es' [E S]].
  rewrite E. cbn [entities app]. eexists. split; [reflexivity|].
  unfold write_map_to_string. cbn [entities].
  rewrite (same_entities_same_lines _ _ S). reflexivity.
Qed.

(** *** What the parser returns *)

Lemma skipn_nth (s : str) : forall n, n < List.length s -> skipn n s = nth n s NUL :: skipn (S n) s.
Proof.
  induction s as [|c s IH]; intros n H; [simpl in H; lia|].
  destruct n as [|n]; [reflexivity|].
  simpl in H. cbn [skipn nth]. rewrite IH by lia. reflexivity.
Qed.

Lemma slice_cons (s : str) (i j : nat) :
  i < List.length s -> i < j -> slice s i j = nth i s NUL :: slice s (S i) j.
Proof.
  intros Hi Hj. unfold slice. rewrite skipn_nth by exact Hi.
  replace (j - i) with (S (j - S i)) by lia. reflexivity.
Qed.

Lemma slice_empty (s : str) (i : nat) : slice s i i = [].
Proof. unfold slice. rewrite Nat.sub_diag. reflexivity. Qed.

Lemma advance_in_source (p : Parser) :
  in_source p = true ->
  source (snd (_advance p)) = source p /\ pos (snd (_advance p)) = S (pos p).
Proof.
  intro H. unfold _advance.
  assert (E : (plen p <=? pos p) = false).
  { apply Nat.leb_gt. apply Nat.ltb_lt. exact H. }
  rewrite E. simpl. split; [reflexivity | lia].
Qed.

(** The characters a [while] loop consumes all satisfy its condition. *)
Lemma while_advance_consumed (f : ascii -> bool) :
  forall (fuel : nat) (p : Parser),
    let p' := while_advance (fun q => in_source q && f (_peek q)) fuel p in
    source p' = source p /\ pos p <= pos p'
    /\ Forall (fun c => f c = true) (slice (source p) (pos p) (pos p')).
Proof.
  induction fuel as [|fuel IH]; intro p; cbn [while_advance].
  - rewrite slice_empty. repeat split; [lia | constructor].
  - destruct (in_source p) eqn:Hin; cbn [andb];
      [|rewrite slice_empty; repeat split; [lia | constructor]].
    destruct (f (_peek p)) eqn:Hf;
      [|rewrite slice_empty; repeat split; [lia | constructor]].
    destruct (advance_in_source p Hin) as [Es Ep].
    destruct (IH (snd (_advance p))) as [Hs [Hp Hall]].
    rewrite Es, Ep in *. split; [exact Hs|]. split; [lia|].
    rewrite slice_cons.
    + constructor; [|exact Hall].
      unfold _peek in Hf. fold (in_source p) in Hf. rewrite Hin in Hf. exact Hf.
    + apply Nat.ltb_lt. exact Hin.
    + lia.
Qed.

Lemma expect_ok (c : ascii) (p p' : Parser) (u : unit) :
  _expect c p = Ok (u, p') -> p' = snd (_advance p) /\ _peek p = c.
Proof.
  unfold _expect. destruct (ascii_eqb (_peek p) c) eqn:E; cbn [negb]; intro H.
  - inversion H; subst. split; [reflexivity|]. apply ascii_eqb_eq. exact E.
  - discriminate H.
Qed.

Lemma advance_source (p : Parser) : source (snd (_advance p)) = source p.
Proof. unfold _advance. destruct (plen p <=? pos p); reflexivity. Qed.

Lemma parse_quoted_string_no_quote (p p' : Parser) (s : str) :
  _parse_quoted_string p = Ok (s, p') -> no_quote s = true.
Proof.
  unfold _parse_quoted_string.
  destruct (_expect QUOTE p) as [[u p1]|] eqn:E1; cbn [bind]; [|discriminate].
  set (p2 := while_advance _ _ p1).
  destruct (_expect QUOTE p2) as [[u2 p3]|] eqn:E2; cbn [bind]; [|discriminate].
  intro H. inversion H; subst s p'. clear H.
  destruct (while_advance_consumed (fun c => negb (ascii_eqb c QUOTE)) (plen p1 - pos p1) p1)
    as [Hs [_ Hall]].
  fold p2 in Hs, Hall. rewrite Hs. unfold no_quote.
  apply forallb_forall. rewrite Forall_forall in Hall. exact Hall.
Qed.

Lemma parse_property_ready (p p' : Parser) (k v : str) :
  _parse_property p = Ok (k, v, p') -> prop_ready (k, v) = true.
Proof.
  unfold _parse_property.
  destruct (_parse_quoted_string p) as [[k1 p1]|] eqn:E1; cbn [bind]; [|discriminate].
  destruct (_parse_quoted_string (_skip_whitespace_and_comments p1)) as [[v1 p2]|] eqn:E2;
    cbn [bind]; [|discriminate].
  intro H. inversion H; subst. unfold prop_ready. cbn [fst snd].
  rewrite (parse_quoted_string_no_quote _ _ _ E1), (parse_quoted_string_no_quote _ _ _ E2).
  reflexivity.
Qed.

Lemma dict_get_set_other (d : dict) (k v k' : str) :
  str_eqb k k' = false -> dict_get (dict_set d k v) k' = dict_get d k'.
Proof.
  intro H. induction d as [|[k1 v1] d IH]; simpl.
  - rewrite H. reflexivity.
  - destruct (str_eqb k1 k) eqn:E; simpl.
    + apply str_eqb_eq in E. subst k1. rewrite H. reflexivity.
    + rewrite IH. reflexivity.
Qed.

Lemma dict_set_unique (d : dict) (k v : str) :
  unique_keys d = true -> unique_keys (dict_set d k v) = true.
Proof.
  induction d as [|[k1 v1] d IH]; intro H; [reflexivity|].
  simpl in H. apply andb_true_iff in H. destruct H as [H1 H2].
  simpl. destruct (str_eqb k1 k) eqn:E; simpl.
  - rewrite H1, H2. reflexivity.
  - rewrite IH by exact H2. unfold has_key in *.
    rewrite dict_get_set_other; [rewrite H1; reflexivity|].
    destruct (str_eqb k k1) eqn:E'; [|reflexivity].
    apply str_eqb_eq in E'. subst k1. rewrite str_eqb_refl in E. discriminate E.
Qed.

Lemma dict_set_ready (d : dict) (k v : str) :
  forallb prop_ready d = true -> no_quote v = true -> no_quote k = true ->
  forallb prop_ready (dict_set d k v) = true.
Proof.
  intros Hd Hv Hk. induction d as [|[k1 v1] d IH]; simpl.
  - unfold prop_ready. cbn [fst snd]. rewrite Hk, Hv. reflexivity.
  - simpl in Hd. apply andb_true_iff in Hd. destruct Hd as [H1 H2].
    destruct (str_eqb k1 k); simpl.
    + unfold prop_ready in *. cbn [fst snd] in *.
      apply andb_true_iff in H1. destruct H1 as [H1 _]. rewrite H1, Hv, H2. reflexivity.
    + rewrite H1, (IH H2). reflexivity.
Qed.

(** The property map holds no double quote and no key twice. *)
Definition props_clean (e : Entity) : bool :=
  forallb prop_ready (properties e) && unique_keys (properties e).

Lemma set_property_clean (e : Entity) (k v : str) :
  props_clean e = true -> prop_ready (k, v) = true ->
  props_clean (Entity_set_property e k v) = true.
Proof.
  unfold props_clean, Entity_set_property. cbn [properties]. intros He Hkv.
  apply andb_true_iff in He. destruct He as [H1 H2].
  apply andb_true_iff in Hkv. destruct Hkv as [Hk Hv]. cbn [fst snd] in *.
  rewrite dict_set_ready, dict_set_unique by assumption. reflexivity.
Qed.

Lemma parse_properties_loop_clean (fuel : nat) :
  forall (entity e' : Entity) (p p' : Parser),
    parse_properties_loop fuel entity p = Ok (e', p') ->
    props_clean entity = true ->
    props_clean e' = true /\ brushes e' = brushes entity.
Proof.
  induction fuel as [|fuel IH]; intros entity e' p p'; cbn [parse_properties_loop];
    destruct (in_source p && ascii_eqb (_peek p) QUOTE); try discriminate;
    try (intros H Hc; inversion H; subst; split; [exact Hc | reflexivity]).
  destruct (_parse_property p) as [[[k v] p1]|] eqn:E1; cbn [bind]; [|discriminate].
  intros H Hc. apply IH in H.
  - exact H.
  - apply set_property_clean; [exact Hc | exact (parse_property_ready _ _ _ _ E1)].
Qed.

Lemma parse_brushes_loop_properties (fuel : nat) :
  forall (entity e' : Entity) (p p' : Parser),
    parse_brushes_loop fuel entity p = Ok (e', p') -> properties e' = properties entity.
Proof.
  induction fuel as [|fuel IH]; intros entity e' p p'; cbn [parse_brushes_loop];
    destruct (in_source p && ascii_eqb (_peek p) "{"%char); try discriminate;
    try (intros H; inversion H; subst; reflexivity).
  destruct (_parse_brush p) as [[b p1]|] eqn:E1; cbn [bind]; [|discriminate].
  intros H. apply IH in H. exact H.
Qed.

Lemma parse_entity_clean (p p' : Parser) (e : Entity) :
  _parse_entity p = Ok (e, p') -> props_clean e = true.
Proof.
  unfold _parse_entity.
  destruct (_expect "{"%char p) as [[u p1]|]; cbn [bind]; [|discriminate].
  destruct (parse_properties_loop _ _ _) as [[e1 p2]|] eqn:E1; cbn [bind]; [|discriminate].
  destruct (parse_brushes_loop _ _ _) as [[e2 p3]|] eqn:E2; cbn [bind]; [|discriminate].
  destruct (_expect "}"%char p3) as [[u' p4]|]; cbn [bind]; [|discriminate].
  intro H. inversion H; subst.
  apply parse_properties_loop_clean in E1; [|reflexivity].
  apply parse_brushes_loop_properties in E2.
  unfold props_clean in *. rewrite E2. exact (proj1 E1).
Qed.

Lemma parse_loop_clean (fuel : nat) :
  forall (m m' : MapFile) (p : Parser),
    parse_loop fuel m p = Ok m' ->
    forallb props_clean (entities m) = true ->
    forallb props_clean (entities m') = true.
Proof.
  induction fuel as [|fuel IH]; intros m m' p; cbn [parse_loop];
    destruct (in_source p); try discriminate;
    try (intros H Hc; inversion H; subst; exact Hc).
  destruct (plen _ <=? pos _); [intros H Hc; inversion H; subst; exact Hc|].
  destruct (ascii_eqb _ _); [|discriminate].
  destruct (_parse_entity _) as [[e p1]|] eqn:E1; cbn [bind]; [|discriminate].
  intros H Hc. apply IH in H; [exact H|].
  cbn [MapFile_add_entity fst entities]. rewrite forallb_app, Hc.
  cbn [forallb]. rewrite (parse_entity_clean _ _ _ E1). reflexivity.
Qed.

Lemma parse_map_clean (s : str) (m : MapFile) :
  parse_map s = Ok m -> forallb props_clean (entities m) = true.
Proof.
  unfold parse_map, MapParser_parse. intro H.
  apply parse_loop_clean in H; [exact H | reflexivity].
Qed.

(** *** The parser returns a document or raises [ParseError]

    The loops of the parser take fuel.  The character loops stop only when
    their condition fails, and the fuel given to the loops over faces,
    properties, brushes and entities is never exhausted: every turn consumes
    at least one character. *)

Definition in_bounds (p : Parser) : Prop := pos p <= plen p.

(** [p'] reads the same source as [p], at or after its position. *)
Definition extends (p p' : Parser) : Prop :=
  source p' = source p /\ pos p <= pos p' /\ in_bounds p'.

Lemma extends_refl (p : Parser) : in_bounds p -> extends p p.
Proof. intro H. repeat split; [lia | exact H]. Qed.

Lemma extends_trans (p q r : Parser) : extends p q -> extends q r -> extends p r.
Proof.
  intros [H1 [H2 H3]] [K1 [K2 K3]]. repeat split; [congruence | lia | exact K3].
Qed.

Lemma extends_plen (p p' : Parser) : extends p p' -> plen p' = plen p.
Proof. intros [H _]. unfold plen. rewrite H. reflexivity. Qed.

Lemma init_in_bounds (s : str) : in_bounds (MapParser_init s).
Proof. unfold in_bounds, plen. simpl. lia. Qed.

Lemma advance_extends (p : Parser) : in_bounds p -> extends p (snd (_advance p)).
Proof.
  intro H. unfold _advance. destruct (plen p <=? pos p) eqn:E; cbn [snd].
  - apply extends_refl. exact H.
  - apply Nat.leb_gt in E. unfold extends, in_bounds, plen in *. cbn [source pos].
    repeat split; lia.
Qed.

Lemma while_advance_extends (cond : Parser -> bool) (fuel : nat) :
  forall p, in_bounds p -> extends p (while_advance cond fuel p).
Proof.
  induction fuel as [|fuel IH]; intros p H; cbn [while_advance].
  - apply extends_refl. exact H.
  - destruct (cond p); [|apply extends_refl; exact H].
    pose proof (advance_extends p H) as A.
    apply (extends_trans _ _ _ A). apply IH. apply A.
Qed.

(** With the fuel the parser gives it, a character loop ends because its
    condition fails. *)
Lemma while_advance_exit (cond : Parser -> bool) :
  (forall q, cond q = true -> in_source q = true) ->
  forall (fuel : nat) (p : Parser),
    in_bounds p -> plen p - pos p <= fuel ->
    cond (while_advance cond fuel p) = false.
Proof.
  intros Hc. induction fuel as [|fuel IH]; intros p Hb Hf; cbn [while_advance].
  - destruct (cond p) eqn:E; [|reflexivity].
    apply Hc in E. unfold in_source in E. apply Nat.ltb_lt in E. lia.
  - destruct (cond p) eqn:E; [|exact E].
    apply Hc in E. destruct (advance_in_source p E) as [Es Ep].
    apply IH; [apply advance_extends; exact Hb|].
    unfold plen in *. rewrite Es, Ep. lia.
Qed.

Lemma skip_whitespace_extends (p : Parser) : in_bounds p -> extends p (_skip_whitespace p).
Proof. apply while_advance_extends. Qed.

Lemma skip_loop_extends (fuel : nat) :
  forall p, in_bounds p -> extends p (skip_whitespace_and_comments_loop fuel p).
Proof.
  induction fuel as [|fuel IH]; intros p H; cbn [skip_whitespace_and_comments_loop].
  - apply extends_refl. exact H.
  - destruct (in_source p); [|apply extends_refl; exact H].
    destruct (starts_comment p).
    + pose proof (advance_extends p H) as A1.
      pose proof (advance_extends _ (proj2 (proj2 A1))) as A2.
      pose proof (while_advance_extends
                    (fun q => in_source q && negb (char_in (_peek q) [NL; CR]))
                    (plen (snd (_advance (snd (_advance p))))
                     - pos (snd (_advance (snd (_advance p)))))
                    _ (proj2 (proj2 A2))) as A3.
      apply (extends_trans _ _ _ A1). apply (extends_trans _ _ _ A2).
      apply (extends_trans _ _ _ A3). apply IH. apply A3.
    + destruct (isspace (_peek p)); [|apply extends_refl; exact H].
      pose proof (advance_extends p H) as A1.
      apply (extends_trans _ _ _ A1). apply IH. apply A1.
Qed.

Lemma skip_extends (p : Parser) :
  in_bounds p -> extends p (_skip_whitespace_and_comments p).
Proof. apply skip_loop_extends. Qed.

(** Where [_skip_whitespace_and_comments] stops: at the end of the source,
    or at a character that is neither whitespace nor the start of a comment. *)
Definition skip_done (p : Parser) : Prop :=
  in_source p = false \/ (starts_comment p = false /\ isspace (_peek p) = false).

Lemma skip_loop_exit (fuel : nat) :
  forall p, in_bounds p -> plen p - pos p <= fuel ->
            skip_done (skip_whitespace_and_comments_loop fuel p).
Proof.
  induction fuel as [|fuel IH]; intros p Hb Hf; cbn [skip_whitespace_and_comments_loop].
  - left. unfold in_source. apply Nat.ltb_ge. lia.
  - destruct (in_source p) eqn:Hin; [|left; exact Hin].
    destruct (advance_in_source p Hin) as [Es Ep].
    pose proof (advance_extends p Hb) as A1.
    destruct (starts_comment p) eqn:Hc.
    + pose proof (advance_extends _ (proj2 (proj2 A1))) as A2.
      pose proof (while_advance_extends
                    (fun q => in_source q && negb (char_in (_peek q) [NL; CR]))
                    (plen (snd (_advance (snd (_advance p))))
                     - pos (snd (_advance (snd (_advance p)))))
                    _ (proj2 (proj2 A2))) as A3.
      apply IH; [apply A3|].
      pose proof (extends_plen _ _ (extends_trans _ _ _ A1 (extends_trans _ _ _ A2 A3))) as L.
      destruct A2 as [_ [A2 _]]. destruct A3 as [_ [A3 _]].
      rewrite L. lia.
    + destruct (isspace (_peek p)) eqn:Hs; [|right; split; assumption].
      apply IH; [apply A1|]. rewrite (extends_plen _ _ A1). lia.
Qed.

Lemma skip_exit (p : Parser) :
  in_bounds p -> skip_done (_skip_whitespace_and_comments p).
Proof. intro H. apply skip_loop_exit; [exact H | lia]. Qed.

(** A call that returns has consumed at least one character ([advances]) or
    none or more ([proceeds]); a call that raises raises [ParseError]. *)
Definition advances {A : Type} (p : Parser) (r : result (A * Parser)) : Prop :=
  match r with
  | Ok (_, p') => extends p p' /\ pos p < pos p'
  | Raise (ParseError _ _ _) => True
  | Raise _ => False
  end.

Definition proceeds {A : Type} (p : Parser) (r : result (A * Parser)) : Prop :=
  match r with
  | Ok (_, p') => extends p p'
  | Raise (ParseError _ _ _) => True
  | Raise _ => False
  end.

Definition returns {A : Type} (r : result A) : Prop :=
  match r with
  | Ok _ => True
  | Raise (ParseError _ _ _) => True
  | Raise _ => False
  end.

Lemma advances_proceeds {A : Type} (p : Parser) (r : result (A * Parser)) :
  advances p r -> proceeds p r.
Proof. destruct r as [[a p']|e]; cbn; [intros [H _]; exact H | trivial]. Qed.

Lemma proceeds_from {A : Type} (p q : Parser) (r : result (A * Parser)) :
  extends p q -> proceeds q r -> proceeds p r.
Proof.
  intro H. destruct r as [[a p']|e]; cbn; [|trivial].
  intro K. exact (extends_trans _ _ _ H K).
Qed.

Lemma advances_from {A : Type} (p q : Parser) (r : result (A * Parser)) :
  extends p q -> advances q r -> advances p r.
Proof.
  intro H. destruct r as [[a p']|e]; cbn; [|trivial].
  intros [K1 K2]. split; [exact (extends_trans _ _ _ H K1)|].
  destruct H as [_ [H _]]. lia.
Qed.

Lemma advances_bind {A B : Type} (p : Parser) (r : result (A * Parser))
      (k : A * Parser -> result (B * Parser)) :
  advances p r ->
  (forall a p1, r = Ok (a, p1) -> in_bounds p1 -> proceeds p1 (k (a, p1))) ->
  advances p (bind r k).
Proof.
  destruct r as [[a p1]|e]; cbn [bind advances]; [|trivial].
  intros [H1 H2] K.
  specialize (K a p1 eq_refl (proj2 (proj2 H1))).
  destruct (k (a, p1)) as [[b p2]|e]; cbn in *; [|exact K].
  split; [exact (extends_trans _ _ _ H1 K)|]. destruct K as [_ [K _]]. lia.
Qed.

Lemma proceeds_bind {A B : Type} (p : Parser) (r : result (A * Parser))
      (k : A * Parser -> result (B * Parser)) :
  proceeds p r ->
  (forall a p1, r = Ok (a, p1) -> in_bounds p1 -> proceeds p1 (k (a, p1))) ->
  proceeds p (bind r k).
Proof.
  destruct r as [[a p1]|e]; cbn [bind proceeds]; [|trivial].
  intros H1 K.
  specialize (K a p1 eq_refl (proj2 (proj2 H1))).
  exact (proceeds_from _ _ _ H1 K).
Qed.

Lemma proceeds_then_advances {A B : Type} (p : Parser) (r : result (A * Parser))
      (k : A * Parser -> result (B * Parser)) :
  proceeds p r ->
  (forall a p1, r = Ok (a, p1) -> in_bounds p1 -> advances p1 (k (a, p1))) ->
  advances p (bind r k).
Proof.
  destruct r as [[a p1]|e]; cbn [bind proceeds]; [|trivial].
  intros H1 K.
  specialize (K a p1 eq_refl (proj2 (proj2 H1))).
  exact (advances_from _ _ _ H1 K).
Qed.

Lemma expect_advances (c : ascii) (p : Parser) :
  c <> NUL -> in_bounds p -> advances p (_expect c p).
Proof.
  intros Hc Hb. unfold _expect. destruct (ascii_eqb (_peek p) c) eqn:E; cbn [negb]; [|exact I].
  cbn [advances]. apply ascii_eqb_eq in E.
  assert (Hin : in_source p = true).
  { unfold _peek in E. fold (in_source p) in E.
    destruct (in_source p); [reflexivity | congruence]. }
  split; [apply advance_extends; exact Hb|].
  destruct (advance_in_source p Hin) as [_ Ep]. lia.
Qed.

Lemma parse_quoted_string_advances (p : Parser) :
  in_bounds p -> advances p (_parse_quoted_string p).
Proof.
  intro Hb. unfold _parse_quoted_string.
  apply advances_bind; [apply expect_advances; [discriminate | exact Hb]|].
  intros [] p1 _ H1. cbv beta iota zeta.
  pose proof (while_advance_extends
                (fun q => in_source q && negb (ascii_eqb (_peek q) QUOTE))
                (plen p1 - pos p1) p1 H1) as W.
  apply (proceeds_from _ _ _ W).
  apply proceeds_bind;
    [apply advances_proceeds, expect_advances; [discriminate | apply W]|].
  intros [] p3 _ H3. apply extends_refl. exact H3.
Qed.

Lemma parse_token_advances (p : Parser) : in_bounds p -> advances p (_parse_token p).
Proof.
  intro Hb. unfold _parse_token. cbv zeta.
  pose proof (skip_whitespace_extends p Hb) as S1.
  apply (advances_from _ _ _ S1).
  destruct (ascii_eqb (_peek (_skip_whitespace p)) QUOTE).
  - apply parse_quoted_string_advances. apply S1.
  - set (p1 := _skip_whitespace p) in *.
    pose proof (while_advance_extends
                  (fun q => in_source q && negb (isspace (_peek q) || is_special (_peek q)))
                  (plen p1 - pos p1) p1 (proj2 (proj2 S1))) as W.
    destruct (pos p1 =? pos _) eqn:E; [exact I|].
    apply Nat.eqb_neq in E. cbn [advances]. split; [exact W|].
    destruct W as [_ [W _]]. lia.
Qed.

Lemma parse_float_token_advances (message : str -> parse_msg) (p : Parser) :
  in_bounds p -> advances p (parse_float_token message p).
Proof.
  intro Hb. unfold parse_float_token.
  pose proof (parse_token_advances p Hb) as T.
  destruct (_parse_token p) as [[token p1]|e]; cbn [bind]; [|exact T].
  destruct (PyFloat.of_str token); [exact T | exact I].
Qed.

Ltac parse_steps leaf :=
  repeat first
    [ progress cbv beta iota zeta
    | match goal with
      | |- proceeds ?p (Ok (_, ?p)) => apply extends_refl; assumption
      | |- proceeds ?p (bind (_ (_skip_whitespace ?p)) _) =>
          apply (proceeds_from _ _ _ (skip_whitespace_extends p ltac:(assumption)))
      | |- proceeds ?p (bind (_ _ (_skip_whitespace ?p)) _) =>
          apply (proceeds_from _ _ _ (skip_whitespace_extends p ltac:(assumption)))
      | |- proceeds ?p (bind _ _) =>
          apply proceeds_bind;
          [ apply advances_proceeds; leaf;
            first [ assumption | apply skip_whitespace_extends; assumption ]
          | let a := fresh "a" in let q := fresh "q" in let H := fresh "H" in
            intros a q _ H ]
      end ].

Lemma parse_point_advances (p : Parser) : in_bounds p -> advances p (_parse_point p).
Proof.
  intro Hb. unfold _parse_point.
  apply advances_bind; [apply expect_advances; [discriminate | exact Hb]|].
  intros [] p1 _ H1.
  parse_steps ltac:(first [ apply parse_float_token_advances
                          | apply expect_advances; [discriminate|] ]).
Qed.

Lemma parse_face_advances (p : Parser) : in_bounds p -> advances p (_parse_face p).
Proof.
  intro Hb. unfold _parse_face.
  apply advances_bind; [apply parse_point_advances; exact Hb|].
  intros v1 p1 _ H1.
  parse_steps ltac:(first [ apply parse_float_token_advances
                          | apply parse_point_advances
                          | apply parse_token_advances ]).
Qed.

Lemma parse_property_advances (p : Parser) : in_bounds p -> advances p (_parse_property p).
Proof.
  intro Hb. unfold _parse_property.
  apply advances_bind; [apply parse_quoted_string_advances; exact Hb|].
  intros key p1 _ H1. cbv beta iota zeta.
  apply (proceeds_from _ _ _ (skip_extends p1 H1)).
  apply proceeds_bind;
    [apply advances_proceeds, parse_quoted_string_advances; apply skip_extends; exact H1|].
  intros value p2 _ H2. apply extends_refl. exact H2.
Qed.

Lemma in_source_remaining (p : Parser) (b : bool) (fuel : nat) :
  in_source p && b = true -> plen p - pos p <= fuel -> fuel <> 0.
Proof.
  intros H Hf. apply andb_true_iff in H. destruct H as [H _].
  unfold in_source in H. apply Nat.ltb_lt in H. lia.
Qed.

(** The loop over faces, given at least the fuel [_parse_brush] gives it. *)
Lemma parse_faces_loop_proceeds (fuel : nat) :
  forall (brush : Brush) (p : Parser),
    in_bounds p -> plen p - pos p <= fuel ->
    proceeds p (parse_faces_loop fuel brush p).
Proof.
  induction fuel as [|fuel IH]; intros brush p Hb Hf; cbn [parse_faces_loop];
    destruct (in_source p && ascii_eqb (_peek p) "("%char) eqn:C;
    try (apply extends_refl; exact Hb).
  - exfalso. exact (in_source_remaining _ _ _ C Hf eq_refl).
  - pose proof (parse_face_advances p Hb) as F.
    destruct (_parse_face p) as [[face p1]|e]; cbn [bind]; [|exact F].
    destruct F as [F1 F2].
    pose proof (skip_extends p1 (proj2 (proj2 F1))) as S1.
    apply (proceeds_from _ _ _ (extends_trans _ _ _ F1 S1)).
    apply IH; [apply S1|].
    rewrite (extends_plen _ _ S1), (extends_plen _ _ F1).
    destruct S1 as [_ [S1 _]]. lia.
Qed.

Lemma parse_brush_advances (p : Parser) : in_bounds p -> advances p (_parse_brush p).
Proof.
  intro Hb. unfold _parse_brush.
  apply advances_bind; [apply expect_advances; [discriminate | exact Hb]|].
  intros [] p1 _ H1. cbv beta iota zeta.
  pose proof (skip_extends p1 H1) as S1.
  apply (proceeds_from _ _ _ S1).
  apply proceeds_bind; [apply parse_faces_loop_proceeds; [apply S1 | lia]|].
  intros brush p2 _ H2. cbv beta iota zeta.
  apply proceeds_bind;
    [apply advances_proceeds, expect_advances; [discriminate | exact H2]|].
  intros [] p3 _ H3. apply extends_refl. exact H3.
Qed.

Lemma parse_properties_loop_proceeds (fuel : nat) :
  forall (entity : Entity) (p : Parser),
    in_bounds p -> plen p - pos p <= fuel ->
    proceeds p (parse_properties_loop fuel entity p).
Proof.
  induction fuel as [|fuel IH]; intros entity p Hb Hf; cbn [parse_properties_loop];
    destruct (in_source p && ascii_eqb (_peek p) QUOTE) eqn:C;
    try (apply extends_refl; exact Hb).
  - exfalso. exact (in_source_remaining _ _ _ C Hf eq_refl).
  - pose proof (parse_property_advances p Hb) as F.
    destruct (_parse_property p) as [[[key value] p1]|e]; cbn [bind]; [|exact F].
    destruct F as [F1 F2].
    pose proof (skip_extends p1 (proj2 (proj2 F1))) as S1.
    apply (proceeds_from _ _ _ (extends_trans _ _ _ F1 S1)).
    apply IH; [apply S1|].
    rewrite (extends_plen _ _ S1), (extends_plen _ _ F1).
    destruct S1 as [_ [S1 _]]. lia.
Qed.

Lemma parse_brushes_loop_proceeds (fuel : nat) :
  forall (entity : Entity) (p : Parser),
    in_bounds p -> plen p - pos p <= fuel ->
    proceeds p (parse_brushes_loop fuel entity p).
Proof.
  induction fuel as [|fuel IH]; intros entity p Hb Hf; cbn [parse_brushes_loop];
    destruct (in_source p && ascii_eqb (_peek p) "{"%char) eqn:C;
    try (apply extends_refl; exact Hb).
  - exfalso. exact (in_source_remaining _ _ _ C Hf eq_refl).
  - pose proof (parse_brush_advances p Hb) as F.
    destruct (_parse_brush p) as [[brush p1]|e]; cbn [bind]; [|exact F].
    destruct F as [F1 F2].
    pose proof (skip_extends p1 (proj2 (proj2 F1))) as S1.
    apply (proceeds_from _ _ _ (extends_trans _ _ _ F1 S1)).
    apply IH; [apply S1|].
    rewrite (extends_plen _ _ S1), (extends_plen _ _ F1).
    destruct S1 as [_ [S1 _]]. lia.
Qed.

Lemma parse_entity_advances (p : Parser) : in_bounds p -> advances p (_parse_entity p).
Proof.
  intro Hb. unfold _parse_entity.
  apply advances_bind; [apply expect_advances; [discriminate | exact Hb]|].
  intros [] p1 _ H1. cbv beta iota zeta.
  pose proof (skip_extends p1 H1) as S1.
  apply (proceeds_from _ _ _ S1).
  apply proceeds_bind; [apply parse_properties_loop_proceeds; [apply S1 | lia]|].
  intros e1 p2 _ H2. cbv beta iota zeta.
  apply proceeds_bind; [apply parse_brushes_loop_proceeds; [exact H2 | lia]|].
  intros e2 p3 _ H3. cbv beta iota zeta.
  apply proceeds_bind;
    [apply advances_proceeds, expect_advances; [discriminate | exact H3]|].
  intros [] p4 _ H4. apply extends_refl. exact H4.
Qed.

Lemma parse_loop_returns (fuel : nat) :
  forall (mapfile : MapFile) (p : Parser),
    in_bounds p -> plen p - pos p <= fuel -> returns (parse_loop fuel mapfile p).
Proof.
  induction fuel as [|fuel IH]; intros mapfile p Hb Hf; cbn [parse_loop];
    destruct (in_source p) eqn:C; try exact I.
  - unfold in_source in C. apply Nat.ltb_lt in C. lia.
  - cbv zeta. pose proof (skip_extends p Hb) as S0.
    set (q := _skip_whitespace_and_comments p) in *.
    destruct (plen q <=? pos q); [exact I|].
    destruct (ascii_eqb (_peek q) "{"%char); [|exact I].
    pose proof (parse_entity_advances q (proj2 (proj2 S0))) as F.
    destruct (_parse_entity q) as [[entity p1]|e]; cbn [bind]; [|exact F].
    destruct F as [F1 F2].
    pose proof (skip_extends p1 (proj2 (proj2 F1))) as S1.
    apply IH; [apply S1|].
    rewrite (extends_plen _ _ S1), (extends_plen _ _ F1), (extends_plen _ _ S0).
    destruct S1 as [_ [S1 _]]. destruct S0 as [_ [S0 _]]. unfold in_source in C.
    apply Nat.ltb_lt in C. lia.
Qed.

(** X14. [parse_map] returns a document or raises [ParseError], on every
    source: the [ValueError] of a malformed number never escapes, and no
    other exception is raised. *)
Theorem parse_map_returns (s : str) :
  (exists m, parse_map s = Ok m)
  \/ (exists message l c, parse_map s = Raise (ParseError message l c)).
Proof.
  assert (R : returns (parse_map s)).
  { unfold parse_map, MapParser_parse. cbv zeta.
    apply parse_loop_returns; [apply skip_extends, init_in_bounds | lia]. }
  destruct (parse_map s) as [m|e].
  - left. exists m. reflexivity.
  - right. destruct e; try contradiction. eauto.
Qed.

(** *** Written numbers read back

    [format_float] writes a float [y] as the decimal [n / 10^6], where [n] is
    [y * 10^6] rounded to an integer; [float] reads that decimal as the
    nearest float [z].  When the last place of [z] is finer than [10^-6], [z]
    lies within half a unit of its last place of [n / 10^6], so [z * 10^6]
    rounds to [n] again; otherwise the decimal determines the float and
    [z = y].  Either way [z] is written as [y] is. *)

(** The decimal conversion agrees with the library's division and
    normalisation on sample decimals: normal and subnormal values, ties,
    the largest floats, overflow and underflow. *)
Definition same_float (a b : float) : bool :=
  match a, b with
  | S754_zero s, S754_zero t => Bool.eqb s t
  | S754_infinity s, S754_infinity t => Bool.eqb s t
  | S754_nan, S754_nan => true
  | S754_finite s m e, S754_finite t n f => Bool.eqb s t && Pos.eqb m n && Z.eqb e f
  | _, _ => false
  end.

Definition sample_decimals : list (Z * Z) :=
  [(1, -1); (1, -10); (5, -1); (1625, -2); (3, 0); (123456789, -3); (1, 23);
   (17, 307); (18, 307); (17976931348623157, 292); (17976931348623159, 292);
   (22250738585072014, -324); (49, -325); (24, -325); (25, -325); (74, -325);
   (9007199254740993, 0); (9007199254740995, 0); (9007199254740992, 0);
   (1, -400); (1, 400); (0, 5); (4503599627370497, -1); (1, -6); (999999, -6)]%Z.

Lemma of_decimal_agrees_on_samples :
  forallb (fun d =>
             let m := Z.to_N (fst d) in
             same_float (PyFloat.of_decimal false m (snd d))
                        (PyFloat.of_decimal_by_division false m (snd d))
             && same_float (PyFloat.of_decimal true m (snd d))
                           (PyFloat.of_decimal_by_division true m (snd d)))
          sample_decimals = true.
Proof. vm_compute. reflexivity. Qed.

(** Rounding a quotient to the nearest integer, ties to even. *)

Open Scope Z_scope.

Lemma rne_div_near (a b : Z) :
  0 < b -> - b <= 2 * (PyFloat.rne_div a b * b - a) <= b.
Proof.
  intro Hb. unfold PyFloat.rne_div.
  pose proof (Z.div_mod a b ltac:(lia)) as E.
  pose proof (Z.mod_pos_bound a b Hb) as R.
  destruct (Z.compare_spec (2 * (a mod b)) b) as [C|C|C]; try nia.
  destruct (Z.even (a / b)); nia.
Qed.

Lemma rne_div_unique (a b n : Z) :
  0 < b -> - b < 2 * (n * b - a) < b -> PyFloat.rne_div a b = n.
Proof.
  intros Hb H. unfold PyFloat.rne_div.
  pose proof (Z.div_mod a b ltac:(lia)) as E.
  pose proof (Z.mod_pos_bound a b Hb) as R.
  assert (N : n = a / b \/ n = a / b + 1) by nia.
  destruct (Z.compare_spec (2 * (a mod b)) b) as [C|C|C]; destruct N as [N|N]; subst n; try nia.
Qed.

Lemma rne_div_scale (a b c : Z) :
  0 < b -> 0 < c -> PyFloat.rne_div (a * c) (b * c) = PyFloat.rne_div a b.
Proof.
  intros Hb Hc. unfold PyFloat.rne_div.
  rewrite Z.div_mul_cancel_r by lia.
  rewrite Z.mul_mod_distr_r by lia.
  replace (2 * (a mod b * c)) with ((2 * (a mod b)) * c) by ring.
  destruct (Z.compare_spec (2 * (a mod b)) b) as [C|C|C];
    destruct (Z.compare_spec (2 * (a mod b) * c) (b * c)) as [C'|C'|C'];
    try reflexivity; nia.
Qed.

Lemma rne_div_nonneg (a b : Z) : 0 < b -> 0 <= a -> 0 <= PyFloat.rne_div a b.
Proof.
  intros Hb Ha. pose proof (rne_div_near a b Hb). 
  destruct (Z_lt_le_dec (PyFloat.rne_div a b) 0); [nia | lia].
Qed.

Lemma digits2_bounds (p : positive) :
  2 ^ (Zpos (digits2_pos p) - 1) <= Zpos p < 2 ^ Zpos (digits2_pos p).
Proof.
  induction p as [p IH|p IH|].
  - cbn [digits2_pos]. rewrite Pos2Z.inj_succ.
    replace (Z.succ (Zpos (digits2_pos p)) - 1) with (Zpos (digits2_pos p)) by lia.
    rewrite Z.pow_succ_r by lia.
    assert (E : 2 ^ Zpos (digits2_pos p) = 2 * 2 ^ (Zpos (digits2_pos p) - 1)).
    { rewrite <- Z.pow_succ_r by lia. f_equal. lia. }
    lia.
  - cbn [digits2_pos]. rewrite Pos2Z.inj_succ.
    replace (Z.succ (Zpos (digits2_pos p)) - 1) with (Zpos (digits2_pos p)) by lia.
    rewrite Z.pow_succ_r by lia.
    assert (E : 2 ^ Zpos (digits2_pos p) = 2 * 2 ^ (Zpos (digits2_pos p) - 1)).
    { rewrite <- Z.pow_succ_r by lia. f_equal. lia. }
    lia.
  - cbn. lia.
Qed.

(** The powers of two are kept folded: the proofs use only how they multiply. *)
Definition pow2 (n : Z) : Z := 2 ^ n.

Lemma pow2_positive (n : Z) : 0 <= n -> 0 < pow2 n.
Proof. intro H. apply Z.pow_pos_nonneg; lia. Qed.

Lemma pow2_add (a b : Z) : 0 <= a -> 0 <= b -> pow2 (a + b) = pow2 a * pow2 b.
Proof. intros Ha Hb. apply Z.pow_add_r; assumption. Qed.

Lemma pow2_le (a b : Z) : 0 <= a <= b -> pow2 a <= pow2 b.
Proof. intro H. apply Z.pow_le_mono_r; lia. Qed.

Lemma pow2_1127 : pow2 1127 = pow2 1074 * pow2 53.
Proof. rewrite <- pow2_add by lia. reflexivity. Qed.

Lemma pow2_106 : pow2 106 = pow2 53 * pow2 53.
Proof. rewrite <- pow2_add by lia. reflexivity. Qed.

Lemma pow2_105 : pow2 105 = pow2 52 * pow2 53.
Proof. rewrite <- pow2_add by lia. reflexivity. Qed.

Lemma pow2_53 : pow2 53 = 2 * pow2 52.
Proof. reflexivity. Qed.

Definition finite_or_inf (neg : bool) (m E : Z) : float :=
  match m with
  | Zpos p => if E <=? 971 then S754_finite neg p E else S754_infinity neg
  | _ => S754_zero neg
  end.

Lemma of_ratio_eq (neg : bool) (num den : positive) :
  let Q := (Zpos num * pow2 1127) / Zpos den in
  let E := Z.max (Zdigits2 Q - 1180) (-1074) in
  let m := PyFloat.rne_div (Zpos num * pow2 1074) (Zpos den * pow2 (E + 1074)) in
  0 < Q ->
  PyFloat.of_ratio neg num den
  = if m =? pow2 53 then finite_or_inf neg (pow2 52) (E + 1) else finite_or_inf neg m E.
Proof.
  intros Q E m HQ. unfold PyFloat.of_ratio. fold (pow2 1127). fold Q.
  destruct Q as [|q|q] eqn:EQ; try lia.
  fold E. fold (pow2 1074) (pow2 (E + 1074)). fold m. fold (pow2 53) (pow2 52).
  destruct (m =? pow2 53); reflexivity.
Qed.

Lemma ratio_bounds (num den : positive) :
  let Q := (Zpos num * pow2 1127) / Zpos den in
  let d := Zdigits2 Q in
  let E := Z.max (d - 1180) (-1074) in
  let A := pow2 (E + 1074) in
  0 < Q ->
  Zpos num * pow2 1074 < pow2 53 * (Zpos den * A)
  /\ (E = d - 1180 -> pow2 52 * (Zpos den * A) <= Zpos num * pow2 1074).
Proof.
  intros Q d E A HQ.
  assert (Hlo : Zpos den * Q <= Zpos num * pow2 1127)
    by (apply Z.mul_div_le; lia).
  assert (Hhi : Zpos num * pow2 1127 < Zpos den * (Q + 1)).
  { pose proof (Z.mul_succ_div_gt (Zpos num * pow2 1127) (Zpos den) ltac:(lia)). unfold Q. lia. }
  assert (Hd : pow2 (d - 1) <= Q < pow2 d).
  { unfold d. destruct Q as [|q|q]; try lia. apply digits2_bounds. }
  assert (Hd1 : 1 <= d).
  { unfold d. destruct Q as [|q|q]; try lia. cbn. lia. }
  pose proof (pow2_positive 53 ltac:(lia)) as K.
  pose proof (pow2_positive 1074 ltac:(lia)) as S.
  assert (HA : 0 < A) by (apply pow2_positive; lia).
  split.
  - assert (L : pow2 d <= A * pow2 106).
    { unfold A. rewrite <- pow2_add by lia. apply pow2_le. lia. }
    rewrite pow2_106 in L. rewrite pow2_1127 in Hhi.
    assert (G : Zpos num * pow2 1074 * pow2 53 < Zpos den * A * pow2 53 * pow2 53) by nia.
    nia.
  - intro HE.
    assert (L : A * pow2 105 = pow2 (d - 1)).
    { unfold A. rewrite <- pow2_add by lia. f_equal. lia. }
    rewrite pow2_105 in L. rewrite pow2_1127 in Hlo.
    assert (G : pow2 52 * (Zpos den * A) * pow2 53 <= Zpos num * pow2 1074 * pow2 53) by nia.
    nia.
Qed.

Lemma rne_div_exact (n b : Z) : 0 < b -> PyFloat.rne_div (n * b) b = n.
Proof. intro Hb. apply rne_div_unique; [assumption | lia]. Qed.

Lemma rne_div_le (a b k : Z) : 0 < b -> a < k * b -> PyFloat.rne_div a b <= k.
Proof. intros Hb H. pose proof (rne_div_near a b Hb). nia. Qed.

Lemma rne_div_ge (a b k : Z) : 0 < b -> k * b <= a -> k <= PyFloat.rne_div a b.
Proof. intros Hb H. pose proof (rne_div_near a b Hb). nia. Qed.

(** Floats within the binary64 bounds, as [PyFloat.of_ratio] produces them. *)
Definition in_binary64 (v : float) : Prop :=
  match v with
  | S754_finite _ m e => Zpos m < pow2 53 /\ -1074 <= e <= 971
  | _ => True
  end.

Lemma finite_or_inf_wf (neg : bool) (m E : Z) :
  m < pow2 53 -> -1074 <= E -> in_binary64 (finite_or_inf neg m E).
Proof.
  intros Hm HE. unfold finite_or_inf. destruct m as [|p|p]; try exact I.
  destruct (Z.leb_spec E 971); [|exact I]. cbn [in_binary64]. lia.
Qed.

Lemma of_ratio_wf (neg : bool) (num den : positive) : in_binary64 (PyFloat.of_ratio neg num den).
Proof.
  destruct (Z_lt_le_dec 0 ((Zpos num * pow2 1127) / Zpos den)) as [HQ|HQ].
  - rewrite of_ratio_eq by exact HQ.
    destruct (ratio_bounds num den HQ) as [Hup _].
    set (E := Z.max _ _) in *.
    set (m := PyFloat.rne_div _ _) in *.
    assert (HA : 0 < pow2 (E + 1074)) by (apply pow2_positive; lia).
    assert (Hm : m <= pow2 53) by (apply rne_div_le; nia).
    destruct (Z.eqb_spec m (pow2 53)).
    + apply finite_or_inf_wf; [rewrite pow2_53; pose proof (pow2_positive 52); lia | lia].
    + apply finite_or_inf_wf; lia.
  - unfold PyFloat.of_ratio. fold (pow2 1127).
    destruct (Zpos num * pow2 1127 / Zpos den); try lia; exact I.
Qed.

Lemma scaled_round_near (m : positive) (e : Z) :
  -1074 <= e ->
  - pow2 1074 <= 2 * (PyFloat.scaled_round m e * pow2 1074 - Zpos m * pow2 (e + 1074) * 1000000)
    <= pow2 1074.
Proof.
  intro He. pose proof (pow2_positive 1074 ltac:(lia)) as S.
  destruct e as [|p|k].
  - cbn [PyFloat.scaled_round]. change (2 ^ 0) with 1. change (0 + 1074) with 1074. nia.
  - cbn [PyFloat.scaled_round]. rewrite pow2_add by lia. fold (pow2 (Zpos p)). nia.
  - cbn [PyFloat.scaled_round]. fold (pow2 (Zpos k)).
    assert (HP : 0 < pow2 (Zpos k)) by (apply pow2_positive; lia).
    assert (HA : 0 < pow2 (Zneg k + 1074)) by (apply pow2_positive; lia).
    assert (PA : pow2 (Zpos k) * pow2 (Zneg k + 1074) = pow2 1074).
    { rewrite <- pow2_add by lia. f_equal. lia. }
    pose proof (rne_div_near (Zpos m * 1000000) (pow2 (Zpos k)) HP) as R.
    set (N := PyFloat.rne_div _ _) in *. set (P := pow2 (Zpos k)) in *.
    set (A := pow2 (Zneg k + 1074)) in *. rewrite <- PA.
    nia.
Qed.

(** The same value under a larger exponent has the same rounding. *)
Lemma scaled_round_shift (m m' : positive) (e e' : Z) :
  e' <= e -> Zpos m' = Zpos m * pow2 (e - e') -> PyFloat.scaled_round m' e' = PyFloat.scaled_round m e.
Proof.
  intros He Hm.
  assert (HD : 0 < pow2 (e - e')) by (apply pow2_positive; lia).
  destruct e' as [|p'|k'].
  - cbn [PyFloat.scaled_round]. change (2 ^ 0) with 1. rewrite Hm.
    destruct e as [|p|k]; try lia.
    + change (pow2 (0 - 0)) with 1. cbn [PyFloat.scaled_round]. change (2 ^ 0) with 1. ring.
    + cbn [PyFloat.scaled_round]. unfold pow2. rewrite Z.sub_0_r. ring.
  - destruct e as [|p|k]; try lia.
    cbn [PyFloat.scaled_round]. rewrite Hm. fold (pow2 (Zpos p')) (pow2 (Zpos p)).
    replace (pow2 (Zpos p)) with (pow2 (Zpos p - Zpos p') * pow2 (Zpos p'))
      by (rewrite <- pow2_add by lia; f_equal; lia).
    ring.
  - cbn [PyFloat.scaled_round]. fold (pow2 (Zpos k')). rewrite Hm.
    destruct e as [|p|k].
    + cbn [PyFloat.scaled_round]. change (2 ^ 0) with 1. change (0 - Zneg k') with (Zpos k').
      replace (Zpos m * pow2 (Zpos k') * 1000000)
        with (Zpos m * 1 * 1000000 * pow2 (Zpos k')) by ring.
      apply rne_div_exact. apply pow2_positive; lia.
    + cbn [PyFloat.scaled_round]. fold (pow2 (Zpos p)).
      replace (pow2 (Zpos p - Zneg k')) with (pow2 (Zpos p) * pow2 (Zpos k'))
        by (rewrite <- pow2_add by lia; f_equal).
      replace (Zpos m * (pow2 (Zpos p) * pow2 (Zpos k')) * 1000000)
        with (Zpos m * pow2 (Zpos p) * 1000000 * pow2 (Zpos k')) by ring.
      apply rne_div_exact. apply pow2_positive; lia.
    + cbn [PyFloat.scaled_round]. fold (pow2 (Zpos k)).
      assert (PP : pow2 (Zpos k') = pow2 (Zpos k) * pow2 (Zneg k - Zneg k'))
        by (rewrite <- pow2_add by lia; f_equal; lia).
      rewrite PP.
      replace (Zpos m * pow2 (Zneg k - Zneg k') * 1000000)
        with (Zpos m * 1000000 * pow2 (Zneg k - Zneg k')) by ring.
      apply rne_div_scale; [apply pow2_positive; lia | assumption].
Qed.

Lemma finite_or_inf_finite (neg : bool) (p : positive) (E : Z) :
  E <= 971 -> finite_or_inf neg (Zpos p) E = S754_finite neg p E.
Proof. intro H. unfold finite_or_inf. destruct (Z.leb_spec E 971); [reflexivity | lia]. Qed.

Lemma scaled_round_neg (m : positive) (e : Z) :
  e < 0 -> PyFloat.scaled_round m e = PyFloat.rne_div (Zpos m * 1000000) (pow2 (- e)).
Proof. intro H. destruct e; try lia. reflexivity. Qed.

(** The float read from the decimal [num / den = n / 10^6], where [n > 0] is
    the scaled rounding of a binary64 float, has the scaled rounding [n]. *)
Theorem of_ratio_stable (neg : bool) (my : positive) (ey : Z) (num den : positive) :
  Zpos my < pow2 53 -> -1074 <= ey <= 971 ->
  0 < PyFloat.scaled_round my ey ->
  Zpos num * 1000000 = PyFloat.scaled_round my ey * Zpos den ->
  exists mz ez, PyFloat.of_ratio neg num den = S754_finite neg mz ez
                /\ PyFloat.scaled_round mz ez = PyFloat.scaled_round my ey.
Proof.
  intros Hmy Hey HN Hnd.
  pose proof (scaled_round_near my ey ltac:(lia)) as N1.
  set (N := PyFloat.scaled_round my ey) in *.
  pose proof (pow2_positive 1074 ltac:(lia)) as HS.
  pose proof (pow2_positive 53 ltac:(lia)) as HK.
  assert (HQ : 0 < (Zpos num * pow2 1127) / Zpos den).
  { apply Z.div_str_pos. split; [lia|].
    pose proof (pow2_le 20 1127 ltac:(lia)) as L. change (pow2 20) with 1048576 in L.
    nia. }
  rewrite of_ratio_eq by exact HQ.
  destruct (ratio_bounds num den HQ) as [Hup Hlo].
  set (E := Z.max _ _) in *.
  assert (HE : -1074 <= E) by (unfold E; lia).
  assert (HA : 0 < pow2 (E + 1074)) by (apply pow2_positive; lia).
  pose proof (rne_div_near (Zpos num * pow2 1074) (Zpos den * pow2 (E + 1074)) ltac:(nia)) as R.
  assert (Hm : PyFloat.rne_div (Zpos num * pow2 1074) (Zpos den * pow2 (E + 1074)) <= pow2 53)
    by (apply rne_div_le; nia).
  set (m := PyFloat.rne_div _ _) in *.
  set (A := pow2 (E + 1074)) in *. set (S := pow2 1074) in *.
  destruct (Z_le_gt_dec E (-20)) as [Hsmall|Hbig].
  - (* the grid of the float is finer than that of the decimal *)
    assert (PA : pow2 (- E) * A = S).
    { unfold A, S. rewrite <- pow2_add by lia. f_equal. lia. }
    assert (HP : 1048576 <= pow2 (- E)).
    { change 1048576 with (pow2 20). apply pow2_le. lia. }
    set (P := pow2 (- E)) in *.
    assert (core : - P < 2 * (N * P - m * 1000000) < P).
    { assert (G : N * P * (Zpos den * A) = 1000000 * (Zpos num * S)) by nia.
      assert (G1 : - (P * (Zpos den * A)) < 2 * (N * P - m * 1000000) * (Zpos den * A)
                   < P * (Zpos den * A)) by nia.
      nia. }
    assert (Hm1 : 1 <= m) by nia.
    destruct (Z.eqb_spec m (pow2 53)) as [Em|Em].
    + change (pow2 52) with (Zpos (2 ^ 52)). rewrite finite_or_inf_finite by lia.
      exists (2 ^ 52)%positive, (E + 1). split; [reflexivity|].
      rewrite scaled_round_neg by lia. apply rne_div_unique; [apply pow2_positive; lia|].
      assert (PP : P = 2 * pow2 (- (E + 1))).
      { unfold P. replace (- E) with (1 + - (E + 1)) by lia.
        rewrite pow2_add by lia. reflexivity. }
      rewrite Em in core. change (pow2 53) with (2 * Zpos (2 ^ 52)) in core. nia.
    + destruct m as [|p|p] eqn:EM; try lia.
      rewrite finite_or_inf_finite by lia.
      exists p, E. split; [reflexivity|].
      rewrite scaled_round_neg by lia. apply rne_div_unique; [apply pow2_positive; lia|].
      exact core.
  - (* the decimal determines the float *)
    assert (HEd : E = Zdigits2 (Zpos num * pow2 1127 / Zpos den) - 1180) by (unfold E in *; lia).
    specialize (Hlo HEd). fold S in Hlo.
    assert (AX : S < A * 1000000).
    { assert (L : pow2 1055 <= A) by (apply pow2_le; lia).
      assert (L' : S = pow2 1055 * 524288) by reflexivity.
      pose proof (pow2_positive 1055 ltac:(lia)). nia. }
    assert (Hle : E <= ey).
    { destruct (Z_le_gt_dec E ey) as [L|L]; [exact L | exfalso].
      assert (AA : A = pow2 (ey + 1074) * pow2 (E - ey)).
      { unfold A. rewrite <- pow2_add by lia. f_equal. lia. }
      assert (A2 : 2 <= pow2 (E - ey)).
      { change 2 with (pow2 1). apply pow2_le. lia. }
      pose proof (pow2_positive (ey + 1074) ltac:(lia)) as HAy.
      set (Ay := pow2 (ey + 1074)) in *.
      assert (G1 : pow2 52 * A * 1000000 <= N * S).
      { assert (G : pow2 52 * (Zpos den * A) * 1000000 <= N * S * Zpos den) by nia.
        nia. }
      assert (G2 : 2 * (Zpos my * Ay) <= (pow2 53 - 1) * A) by nia.
      assert (G3 : 2 * (Zpos my * Ay * 1000000) <= (pow2 53 - 1) * A * 1000000) by nia.
      rewrite pow2_53 in G3. nia. }
    assert (YA : pow2 (ey - E) * A = pow2 (ey + 1074)).
    { unfold A. rewrite <- pow2_add by lia. f_equal. lia. }
    pose proof (pow2_positive (ey - E) ltac:(lia)) as HD.
    assert (Hmn : m = Zpos my * pow2 (ey - E)).
    { apply rne_div_unique; [nia|].
      set (n := Zpos my * pow2 (ey - E)).
      assert (nA : n * A = Zpos my * pow2 (ey + 1074)) by (unfold n; nia).
      assert (G : 1000000 * (2 * (n * (Zpos den * A) - Zpos num * S))
                  = - (Zpos den * (2 * (N * S - Zpos my * pow2 (ey + 1074) * 1000000)))) by nia.
      assert (G1 : - (Zpos den * A * 1000000) < 1000000 * (2 * (n * (Zpos den * A) - Zpos num * S))
                   < Zpos den * A * 1000000) by nia.
      nia. }
    destruct (Z.eqb_spec m (pow2 53)) as [Em|Em].
    + assert (D1 : 1 <= ey - E).
      { destruct (Z.eq_dec ey E) as [EQ|NE]; [|lia].
        rewrite EQ, Z.sub_diag in Hmn. change (pow2 0) with 1 in Hmn. lia. }
      assert (DD : pow2 (ey - E) = 2 * pow2 (ey - (E + 1))).
      { replace (ey - E) with (1 + (ey - (E + 1))) by lia.
        rewrite pow2_add by lia. reflexivity. }
      change (pow2 52) with (Zpos (2 ^ 52)). rewrite finite_or_inf_finite by lia.
      exists (2 ^ 52)%positive, (E + 1). split; [reflexivity|].
      apply scaled_round_shift; [lia|].
      rewrite Em in Hmn. change (pow2 53) with (2 * Zpos (2 ^ 52)) in Hmn. nia.
    + assert (Hm1 : 1 <= m) by nia.
      destruct m as [|p|p] eqn:EM; try lia.
      rewrite finite_or_inf_finite by lia.
      exists p, E. split; [reflexivity|].
      apply scaled_round_shift; [lia | exact Hmn].
Qed.

Close Scope Z_scope.

(** The digits of a written number. *)

Definition all_digits (s : str) : Prop := Forall (fun c => PyFloat.is_digit c = true) s.

Lemma digits_val_snoc (a : str) (c : ascii) :
  PyFloat.digits_val (a ++ [c]) = (10 * PyFloat.digits_val a + PyFloat.digit_val c)%N.
Proof. unfold PyFloat.digits_val. rewrite fold_left_app. reflexivity. Qed.

Lemma digits_val_app (a b : str) :
  PyFloat.digits_val (a ++ b)
  = (PyFloat.digits_val a * 10 ^ N.of_nat (List.length b) + PyFloat.digits_val b)%N.
Proof.
  induction b as [|c b IH] using rev_ind.
  - rewrite app_nil_r. cbn. lia.
  - rewrite app_assoc, !digits_val_snoc, IH, length_app. cbn [List.length].
    replace (N.of_nat (List.length b + 1)) with (N.succ (N.of_nat (List.length b))) by lia.
    rewrite N.pow_succ_r'. lia.
Qed.

Lemma digits_val_zeros (k : nat) : PyFloat.digits_val (repeat "0"%char k) = 0%N.
Proof.
  induction k as [|k IH]; [reflexivity|].
  change (repeat "0"%char (S k)) with (["0"%char] ++ repeat "0"%char k).
  rewrite digits_val_app, IH. reflexivity.
Qed.

Lemma digits_val_fixed (w : nat) (n : N) :
  PyFloat.digits_val (PyFloat.fixed_digits w n) = (n mod 10 ^ N.of_nat w)%N.
Proof.
  revert n. induction w as [|w IH]; intro n.
  - cbn. rewrite N.mod_1_r. reflexivity.
  - cbn [PyFloat.fixed_digits]. rewrite digits_val_snoc, IH.
    destruct (@digit_char_spec (n mod 10)%N) as [_ E]; [apply N.mod_lt; discriminate|].
    rewrite E. rewrite Nat2N.inj_succ, N.pow_succ_r'.
    rewrite N.Div0.mod_mul_r. lia.
Qed.

Lemma of_uint_acc_digits (d : Decimal.uint) (acc : positive) :
  fold_left (fun a c => (10 * a + PyFloat.digit_val c)%N)
            (list_ascii_of_string (NilEmpty.string_of_uint d)) (Npos acc)
  = Npos (Pos.of_uint_acc d acc).
Proof.
  revert acc. induction d; intro acc; cbn [NilEmpty.string_of_uint list_ascii_of_string
    fold_left Pos.of_uint_acc]; try reflexivity; rewrite <- IHd; f_equal;
    match goal with
    | |- context [PyFloat.digit_val ?c] =>
        let v := eval vm_compute in (PyFloat.digit_val c) in
        change (PyFloat.digit_val c) with v
    end; lia.
Qed.

Lemma of_uint_digits (d : Decimal.uint) :
  PyFloat.digits_val (list_ascii_of_string (NilEmpty.string_of_uint d)) = Pos.of_uint d.
Proof.
  unfold PyFloat.digits_val.
  induction d; cbn [NilEmpty.string_of_uint list_ascii_of_string fold_left Pos.of_uint];
    try reflexivity; try exact IHd; apply of_uint_acc_digits.
Qed.

Lemma digits_val_str_of_N (n : N) : PyFloat.digits_val (str_of_N n) = n.
Proof.
  unfold str_of_N. rewrite of_uint_digits.
  change (Pos.of_uint (N.to_uint n)) with (N.of_uint (N.to_uint n)).
  apply DecimalN.Unsigned.of_to.
Qed.

(** What [lstrip] and [rstrip] remove, and where they stop. *)

Lemma lstrip_split (chars s : str) :
  exists t, s = t ++ lstrip chars s
            /\ Forall (fun c => char_in c chars = true) t
            /\ (lstrip chars s = []
                \/ exists c r, lstrip chars s = c :: r /\ char_in c chars = false).
Proof.
  induction s as [|c s IH].
  - exists []. split; [reflexivity|]. split; [constructor | left; reflexivity].
  - cbn [lstrip]. destruct (char_in c chars) eqn:E.
    + destruct IH as [t [H1 [H2 H3]]]. exists (c :: t).
      split; [cbn [app]; rewrite <- H1; reflexivity|].
      split; [constructor; assumption | exact H3].
    + exists []. split; [reflexivity|]. split; [constructor|].
      right. exists c, s. split; [reflexivity | exact E].
Qed.

Lemma rstrip_split (chars s : str) :
  exists t, s = rstrip chars s ++ t
            /\ Forall (fun c => char_in c chars = true) t
            /\ (rstrip chars s = []
                \/ exists u c, rstrip chars s = u ++ [c] /\ char_in c chars = false).
Proof.
  destruct (lstrip_split chars (rev s)) as [t [H1 [H2 H3]]].
  exists (rev t). unfold rstrip. split.
  - rewrite <- rev_app_distr, <- H1, rev_involutive. reflexivity.
  - split; [apply Forall_rev; exact H2|].
    destruct H3 as [H3|[c [r [H3 H4]]]]; rewrite H3.
    + left. reflexivity.
    + right. exists (rev r), c. split; [reflexivity | exact H4].
Qed.

Lemma zeros_repeat (t : str) :
  Forall (fun c => char_in c (lit "0") = true) t -> t = repeat "0"%char (List.length t).
Proof.
  induction 1 as [|c t Hc _ IH]; [reflexivity|].
  cbn [List.length repeat]. rewrite <- IH. f_equal.
  unfold char_in in Hc. cbn in Hc. rewrite orb_false_r in Hc.
  apply Ascii.eqb_eq in Hc. exact Hc.
Qed.

(** The text of a decimal numeral: sign, integer digits and, when there are
    any, a point and the fraction digits. *)
Definition decimal_text (s : bool) (ip fr : str) : str :=
  (if s then lit "-" else []) ++ ip
    ++ match fr with [] => [] | _ => "."%char :: fr end.

(** [format_float] on the scaled integer [n]: the fraction loses its
    trailing zeros, and the point goes with an empty fraction. *)
Lemma fixed6_stripped (s : bool) (n : N) :
  exists fr k,
    rstrip (lit ".") (rstrip (lit "0") (PyFloat.fixed6 s n))
    = decimal_text s (str_of_N (n / 1000000)%N) fr
    /\ all_digits fr
    /\ PyFloat.fixed_digits 6 (n mod 1000000)%N = fr ++ repeat "0"%char k.
Proof.
  destruct (rstrip_split (lit "0") (PyFloat.fixed_digits 6 (n mod 1000000)%N))
    as [t [H1 [H2 H3]]].
  set (ds := PyFloat.fixed_digits 6 (n mod 1000000)%N) in *.
  exists (rstrip (lit "0") ds), (List.length t).
  assert (Hfr : all_digits (rstrip (lit "0") ds)).
  { apply rstrip_Forall. apply fixed_digits_digits. }
  split; [|split; [exact Hfr | rewrite <- zeros_repeat by exact H2; exact H1]].
  destruct (exists_last (str_of_N_nonempty (n / 1000000)%N)) as [X0 [d E]].
  assert (Hd : PyFloat.is_digit d = true).
  { pose proof (str_of_N_digits (n / 1000000)%N) as H. rewrite E in H.
    apply Forall_app in H. destruct H as [_ H]. inversion H. assumption. }
  unfold PyFloat.fixed6, decimal_text. fold ds. rewrite E.
  replace ((if s then lit "-" else []) ++ (X0 ++ [d]) ++ lit "." ++ ds)
    with ((((if s then lit "-" else []) ++ X0) ++ [d]) ++ "."%char :: ds)
    by (repeat rewrite <- app_assoc; reflexivity).
  rewrite rstrip_keep by reflexivity.
  destruct H3 as [H3|[u [c [H3 H4]]]]; rewrite H3.
  - rewrite <- app_assoc. cbn [app].
    rewrite rstrip_keep by (apply digit_is_not_dot; exact Hd).
    change (rstrip (lit ".") ["."%char]) with (@nil ascii).
    rewrite app_nil_r, <- !app_assoc. reflexivity.
  - assert (Hc : PyFloat.is_digit c = true).
    { unfold all_digits in Hfr. rewrite H3 in Hfr. apply Forall_app in Hfr.
      destruct Hfr as [_ Hfr]. inversion Hfr. assumption. }
    replace ((((if s then lit "-" else []) ++ X0) ++ [d]) ++ "."%char :: u ++ [c])
      with (((((if s then lit "-" else []) ++ X0) ++ [d]) ++ "."%char :: u) ++ [c])
      by (repeat rewrite <- app_assoc; reflexivity).
    rewrite rstrip_keep by (apply digit_is_not_dot; exact Hc).
    change (rstrip (lit ".") []) with (@nil ascii).
    destruct (u ++ [c]) as [|c0 r0] eqn:Eu; [destruct u; discriminate Eu|].
    rewrite <- Eu. repeat rewrite <- app_assoc. reflexivity.
Qed.

(** Reading a decimal numeral. *)

Lemma digit_facts (c : ascii) :
  PyFloat.is_digit c = true ->
  ascii_eqb c "-"%char = false /\ ascii_eqb c "+"%char = false
  /\ ascii_eqb c "_"%char = false /\ ascii_eqb c "."%char = false
  /\ PyFloat.lower c = c
  /\ ascii_eqb c "i"%char = false /\ ascii_eqb c "n"%char = false.
Proof.
  destruct c as [[] [] [] [] [] [] [] []]; intro H; try discriminate H;
    repeat split; reflexivity.
Qed.

Lemma float_char_not_space (c : ascii) :
  float_char c = true -> PyFloat.float_space c = false.
Proof. destruct c as [[] [] [] [] [] [] [] []]; intro H; try discriminate H; reflexivity. Qed.

Lemma strip_space_id (t : str) :
  Forall (fun c => float_char c = true) t -> PyFloat.strip_space t = t.
Proof.
  intro H. destruct t as [|c r]; [reflexivity|].
  unfold PyFloat.strip_space.
  assert (L : forall s, Forall (fun c => float_char c = true) s -> PyFloat.lstrip_space s = s).
  { intros s Hs. destruct Hs as [|d s Hd Hs]; [reflexivity|].
    cbn [PyFloat.lstrip_space]. rewrite (float_char_not_space _ Hd). reflexivity. }
  rewrite (L _ H). rewrite (L (rev (c :: r))) by (apply Forall_rev; exact H).
  apply rev_involutive.
Qed.

Lemma digitpart_tail_digits (a t : str) :
  all_digits a -> (t = [] \/ exists r, t = "."%char :: r) ->
  PyFloat.digitpart_tail (a ++ t) = (a, t).
Proof.
  intros Ha Ht. induction Ha as [|c a Hc Ha IH].
  - destruct Ht as [Ht|[r Ht]]; subst t; reflexivity.
  - cbn [app PyFloat.digitpart_tail]. rewrite Hc, IH. reflexivity.
Qed.

Lemma digitpart_digits (a t : str) :
  a <> [] -> all_digits a -> (t = [] \/ exists r, t = "."%char :: r) ->
  PyFloat.digitpart (a ++ t) = Some (a, t).
Proof.
  intros Hne Ha Ht. destruct a as [|c a]; [contradiction|].
  inversion Ha as [|c' a' Hc Ha']; subst.
  cbn [app PyFloat.digitpart]. rewrite Hc, digitpart_tail_digits by assumption. reflexivity.
Qed.

Lemma number_decimal (ip fr : str) :
  ip <> [] -> all_digits ip -> all_digits fr ->
  PyFloat.number (ip ++ match fr with [] => [] | _ => "."%char :: fr end)
  = Some (ip, fr, []).
Proof.
  intros Hne Hip Hfr. unfold PyFloat.number.
  destruct fr as [|f fr].
  - rewrite digitpart_digits; [reflexivity | assumption | assumption | left; reflexivity].
  - rewrite digitpart_digits; [|assumption|assumption|right; eexists; reflexivity].
    change (ascii_eqb "."%char "."%char) with true. cbv iota.
    pose proof (digitpart_digits (f :: fr) [] ltac:(discriminate) Hfr (or_introl eq_refl)) as D.
    rewrite app_nil_r in D. rewrite D. reflexivity.
Qed.

Lemma of_str_decimal_text (s : bool) (ip fr : str) :
  ip <> [] -> all_digits ip -> all_digits fr ->
  PyFloat.of_str (decimal_text s ip fr)
  = Some (PyFloat.of_decimal s (PyFloat.digits_val (ip ++ fr))
                             (0 - Z.of_nat (List.length fr))).
Proof.
  intros Hne Hip Hfr.
  set (tail := match fr with [] => [] | _ => "."%char :: fr end).
  assert (Htail : Forall (fun c => float_char c = true) tail).
  { unfold tail. destruct fr as [|f fr]; [constructor|].
    constructor; [reflexivity|]. eapply Forall_impl; [|exact Hfr]. apply digit_is_float_char. }
  assert (Hall : Forall (fun c => float_char c = true) (decimal_text s ip fr)).
  { unfold decimal_text. apply Forall_app. split; [destruct s; repeat constructor|].
    apply Forall_app. split; [|exact Htail].
    eapply Forall_impl; [|exact Hip]. apply digit_is_float_char. }
  unfold PyFloat.of_str. rewrite strip_space_id by exact Hall.
  assert (Hsign : PyFloat.sign_of (decimal_text s ip fr) = (s, ip ++ tail)).
  { unfold decimal_text. fold tail. destruct s; [reflexivity|].
    destruct ip as [|d ip']; [contradiction|].
    inversion Hip as [|d' ip'' Hd Hip']; subst.
    destruct (digit_facts d Hd) as [E1 [E2 _]].
    cbn [app PyFloat.sign_of]. rewrite E1, E2. reflexivity. }
  rewrite Hsign.
  destruct ip as [|d ip']; [contradiction|].
  inversion Hip as [|d' ip'' Hd Hip']; subst.
  destruct (digit_facts d Hd) as [_ [_ [_ [_ [E5 [E6 E7]]]]]].
  cbn [app map str_eqb lit list_ascii_of_string]. rewrite E5, E6, E7. cbn [andb orb].
  change (d :: ip' ++ tail) with ((d :: ip') ++ tail).
  unfold tail. rewrite number_decimal by assumption.
  reflexivity.
Qed.

(** Every float within the binary64 bounds is written in a form that reads
    back to a float written the same way. *)

Lemma fixed6_has_point (s : bool) (n : N) : char_in "."%char (PyFloat.fixed6 s n) = true.
Proof.
  unfold PyFloat.fixed6, char_in. rewrite !existsb_app.
  replace (existsb (ascii_eqb "."%char) (lit ".")) with true by reflexivity.
  rewrite orb_true_l, !orb_true_r. reflexivity.
Qed.

Lemma format_float_finite (s : bool) (m : positive) (e : Z) :
  format_float (S754_finite s m e)
  = rstrip (lit ".") (rstrip (lit "0") (PyFloat.fixed6 s (Z.to_N (PyFloat.scaled_round m e)))).
Proof.
  unfold format_float. cbn [PyFloat.format_6f]. rewrite fixed6_has_point. reflexivity.
Qed.

Lemma of_decimal_in_binary64 (s : bool) (m : N) (e10 : Z) :
  in_binary64 (PyFloat.of_decimal s m e10).
Proof.
  unfold PyFloat.of_decimal. destruct m as [|p]; [exact I|].
  destruct e10; apply of_ratio_wf.
Qed.

Lemma of_str_in_binary64 (t : str) (v : float) :
  PyFloat.of_str t = Some v -> in_binary64 v.
Proof.
  unfold PyFloat.of_str. destruct (PyFloat.sign_of _) as [sneg body].
  destruct (_ || _); [intro H; inversion H; exact I|].
  destruct (str_eqb _ _); [intro H; inversion H; exact I|].
  destruct (PyFloat.number body) as [[[ip fp] r]|]; [|discriminate].
  destruct (PyFloat.exponent r) as [e|]; [|discriminate].
  intro H. inversion H. apply of_decimal_in_binary64.
Qed.

(** The decimal numeral written for the scaled integer [n] denotes [n / 10^6]. *)
Lemma written_decimal_value (n : N) (fr : str) (k : nat) :
  PyFloat.fixed_digits 6 (n mod 1000000)%N = fr ++ repeat "0"%char k ->
  (List.length fr + k = 6)%nat
  /\ (PyFloat.digits_val (str_of_N (n / 1000000)%N ++ fr) * 10 ^ N.of_nat k = n)%N.
Proof.
  intro H.
  assert (L : (List.length fr + k = 6)%nat).
  { pose proof (fixed_digits_length 6 (n mod 1000000)%N) as L.
    rewrite H, length_app, repeat_length in L. exact L. }
  split; [exact L|].
  pose proof (digits_val_fixed 6 (n mod 1000000)%N) as V.
  rewrite H, digits_val_app, digits_val_zeros, repeat_length in V.
  change (10 ^ N.of_nat 6)%N with 1000000%N in V.
  rewrite N.Div0.mod_mod in V.
  rewrite digits_val_app, digits_val_str_of_N.
  assert (P : (10 ^ N.of_nat (List.length fr) * 10 ^ N.of_nat k = 1000000)%N).
  { rewrite <- N.pow_add_r. replace (N.of_nat (List.length fr) + N.of_nat k)%N with 6%N by lia.
    reflexivity. }
  pose proof (N.div_mod' n 1000000) as D.
  set (I := (n / 1000000)%N) in *. set (F := (n mod 1000000)%N) in *.
  set (a := (10 ^ N.of_nat (List.length fr))%N) in *. set (b := (10 ^ N.of_nat k)%N) in *.
  nia.
Qed.

Theorem binary64_is_stable (v : float) : in_binary64 v -> stable_number v = true.
Proof.
  destruct v as [s|s| |s m e]; intro Hv.
  - destruct s; vm_compute; reflexivity.
  - destruct s; vm_compute; reflexivity.
  - vm_compute; reflexivity.
  - destruct Hv as [Hm He]. unfold stable_number. rewrite format_float_finite.
    destruct (Z_lt_le_dec 0 (PyFloat.scaled_round m e)) as [Hpos|Hzero].
    + set (n := Z.to_N (PyFloat.scaled_round m e)).
      destruct (fixed6_stripped s n) as [fr [k [HT [Hfr Hds]]]].
      destruct (written_decimal_value n fr k Hds) as [HL HV].
      rewrite HT.
      rewrite of_str_decimal_text by
        (first [apply str_of_N_nonempty | apply str_of_N_digits | exact Hfr]).
      set (M := PyFloat.digits_val (str_of_N (n / 1000000)%N ++ fr)) in *.
      assert (Hn : Z.of_N n = PyFloat.scaled_round m e) by (unfold n; lia).
      assert (HVZ : (Z.of_N M * 10 ^ Z.of_nat k = PyFloat.scaled_round m e)%Z).
      { rewrite <- Hn, <- HV. rewrite N2Z.inj_mul, N2Z.inj_pow. f_equal. f_equal. lia. }
      assert (HP : (10 ^ Z.of_nat (List.length fr) * 10 ^ Z.of_nat k = 1000000)%Z).
      { rewrite <- Z.pow_add_r by lia.
        replace (Z.of_nat (List.length fr) + Z.of_nat k)%Z with 6%Z by lia. reflexivity. }
      assert (HK : (0 < 10 ^ Z.of_nat k)%Z) by (apply Z.pow_pos_nonneg; lia).
      destruct M as [|p] eqn:EM; [rewrite Z.mul_0_l in HVZ; lia|].
      assert (St : exists mz ez,
                 PyFloat.of_decimal s (Npos p) (0 - Z.of_nat (List.length fr))
                 = S754_finite s mz ez
                 /\ PyFloat.scaled_round mz ez = PyFloat.scaled_round m e).
      { unfold PyFloat.of_decimal.
        destruct (List.length fr) as [|j] eqn:EL.
        - change (0 - Z.of_nat 0)%Z with 0%Z. cbv iota.
          change (Z.to_pos (10 ^ 0)) with 1%positive.
          apply of_ratio_stable; try assumption.
          change (10 ^ Z.of_nat 0)%Z with 1%Z in HP.
          rewrite Pos.mul_1_r. change (Z.of_N (Npos p)) with (Zpos p) in HVZ. nia.
        - replace (0 - Z.of_nat (S j))%Z with (Zneg (Pos.of_succ_nat j)) by lia.
          cbv iota.
          apply of_ratio_stable; try assumption.
          rewrite Pos2Z.inj_pow.
          replace (Zpos (Pos.of_succ_nat j)) with (Z.of_nat (S j)) by lia.
          change (Zpos 10) with 10%Z.
          change (Z.of_N (Npos p)) with (Zpos p) in HVZ.
          set (a := (10 ^ Z.of_nat (S j))%Z) in *. set (b := (10 ^ Z.of_nat k)%Z) in *.
          nia. }
      destruct St as [mz [ez [E1 E2]]]. rewrite E1.
      rewrite format_float_finite, E2. fold n. rewrite HT. apply str_eqb_refl.
    + replace (Z.to_N (PyFloat.scaled_round m e)) with 0%N by lia.
      destruct s; vm_compute; reflexivity.
Qed.

(** *** The numbers of a parsed document

    Every number the parser stores is a result of [float(token)], hence
    within the binary64 bounds. *)

Definition point_in_range (v : Vec3) : Prop :=
  in_binary64 (x v) /\ in_binary64 (y v) /\ in_binary64 (z v).

Definition face_in_range (f : Face) : Prop :=
  point_in_range (point1 f) /\ point_in_range (point2 f) /\ point_in_range (point3 f)
  /\ in_binary64 (offset_u f) /\ in_binary64 (offset_v f) /\ in_binary64 (rotation f)
  /\ in_binary64 (scale_u f) /\ in_binary64 (scale_v f).

Definition brush_in_range (b : Brush) : Prop := Forall face_in_range (faces b).

Definition entity_in_range (e : Entity) : Prop := Forall brush_in_range (brushes e).

Definition document_in_range (m : MapFile) : Prop := Forall entity_in_range (entities m).

Ltac bind_step :=
  cbv zeta;
  match goal with
  | |- bind ?r _ = Ok _ -> _ =>
      let E := fresh "E" in
      destruct r as [[? ?]|] eqn:E; cbn [bind]; [|discriminate]
  end.

Lemma parse_float_token_in_range (message : str -> parse_msg) (p p' : Parser) (v : float) :
  parse_float_token message p = Ok (v, p') -> in_binary64 v.
Proof.
  unfold parse_float_token. bind_step.
  destruct (PyFloat.of_str _) as [w|] eqn:W; [|discriminate].
  intro H. inversion H; subst. exact (of_str_in_binary64 _ _ W).
Qed.

Lemma parse_point_in_range (p p' : Parser) (v : Vec3) :
  _parse_point p = Ok (v, p') -> point_in_range v.
Proof.
  unfold _parse_point. do 5 bind_step.
  intro H. inversion H; subst. unfold point_in_range. cbn [x y z].
  repeat split; eapply parse_float_token_in_range; eassumption.
Qed.

Lemma parse_face_in_range (p p' : Parser) (f : Face) :
  _parse_face p = Ok (f, p') -> face_in_range f.
Proof.
  unfold _parse_face. do 9 bind_step.
  intro H. inversion H; subst. unfold face_in_range.
  cbn [point1 point2 point3 offset_u offset_v rotation scale_u scale_v].
  repeat split;
    first [ eapply parse_float_token_in_range; eassumption
          | match goal with
            | K : _parse_point _ = Ok (?v, _) |- in_binary64 (_ ?v) =>
                apply parse_point_in_range in K; unfold point_in_range in K; tauto
            end ].
Qed.

Lemma parse_faces_loop_in_range (fuel : nat) :
  forall (brush b' : Brush) (p p' : Parser),
    parse_faces_loop fuel brush p = Ok (b', p') ->
    brush_in_range brush -> brush_in_range b'.
Proof.
  induction fuel as [|fuel IH]; intros brush b' p p'; cbn [parse_faces_loop];
    destruct (in_source p && ascii_eqb (_peek p) "("%char); try discriminate;
    try (intros H Hc; inversion H; subst; exact Hc).
  bind_step. intros H Hc. apply IH in H; [exact H|].
  unfold brush_in_range in *. cbn [faces]. apply Forall_app. split; [exact Hc|].
  constructor; [|constructor]. eapply parse_face_in_range. eassumption.
Qed.

Lemma parse_brush_in_range (p p' : Parser) (b : Brush) :
  _parse_brush p = Ok (b, p') -> brush_in_range b.
Proof.
  unfold _parse_brush. do 3 bind_step.
  intro H. inversion H; subst.
  eapply parse_faces_loop_in_range; [eassumption | constructor].
Qed.

Lemma parse_properties_loop_brushes (fuel : nat) :
  forall (entity e' : Entity) (p p' : Parser),
    parse_properties_loop fuel entity p = Ok (e', p') -> brushes e' = brushes entity.
Proof.
  induction fuel as [|fuel IH]; intros entity e' p p'; cbn [parse_properties_loop];
    destruct (in_source p && ascii_eqb (_peek p) QUOTE); try discriminate;
    try (intros H; inversion H; subst; reflexivity).
  destruct (_parse_property p) as [[[k v] p1]|] eqn:E1; cbn [bind]; [|discriminate].
  intros H. apply IH in H. exact H.
Qed.

Lemma parse_brushes_loop_in_range (fuel : nat) :
  forall (entity e' : Entity) (p p' : Parser),
    parse_brushes_loop fuel entity p = Ok (e', p') ->
    entity_in_range entity -> entity_in_range e'.
Proof.
  induction fuel as [|fuel IH]; intros entity e' p p'; cbn [parse_brushes_loop];
    destruct (in_source p && ascii_eqb (_peek p) "{"%char); try discriminate;
    try (intros H Hc; inversion H; subst; exact Hc).
  bind_step. intros H Hc. apply IH in H; [exact H|].
  unfold entity_in_range in *. cbn [Entity_append_brush brushes].
  apply Forall_app. split; [exact Hc|].
  constructor; [|constructor]. eapply parse_brush_in_range. eassumption.
Qed.

Lemma parse_entity_in_range (p p' : Parser) (e : Entity) :
  _parse_entity p = Ok (e, p') -> entity_in_range e.
Proof.
  unfold _parse_entity. do 4 bind_step.
  intro H. inversion H; subst.
  eapply parse_brushes_loop_in_range; [eassumption|].
  unfold entity_in_range.
  match goal with
  | K : parse_properties_loop _ _ _ = Ok _ |- _ =>
      rewrite (parse_properties_loop_brushes _ _ _ _ _ K)
  end.
  constructor.
Qed.

Lemma parse_loop_in_range (fuel : nat) :
  forall (m m' : MapFile) (p : Parser),
    parse_loop fuel m p = Ok m' -> document_in_range m -> document_in_range m'.
Proof.
  induction fuel as [|fuel IH]; intros m m' p; cbn [parse_loop];
    destruct (in_source p); try discriminate;
    try (intros H Hc; inversion H; subst; exact Hc).
  cbv zeta.
  destruct (plen _ <=? pos _); [intros H Hc; inversion H; subst; exact Hc|].
  destruct (ascii_eqb _ _); [|discriminate].
  bind_step. intros H Hc. apply IH in H; [exact H|].
  unfold document_in_range in *. cbn [MapFile_add_entity fst entities].
  apply Forall_app. split; [exact Hc|].
  constructor; [|constructor]. eapply parse_entity_in_range. eassumption.
Qed.

Lemma parse_map_in_range (s : str) (m : MapFile) :
  parse_map s = Ok m -> document_in_range m.
Proof.
  unfold parse_map, MapParser_parse. intro H.
  apply parse_loop_in_range in H; [exact H | constructor].
Qed.


(** *** The parse-then-write cycle *)

(** Every face of the document has a bare-token texture and stable numbers. *)
Definition faces_ready (m : MapFile) : bool :=
  forallb (fun e => forallb brush_ready (brushes e)) (entities m).

Lemma clean_and_faces_ready (es : list Entity) :
  forallb props_clean es = true ->
  forallb (fun e => forallb brush_ready (brushes e)) es = true ->
  forallb entity_ready es = true.
Proof.
  induction es as [|e es IH]; intros Hc Hf; [reflexivity|].
  cbn [forallb] in *. apply andb_true_iff in Hc. destruct Hc as [Hc1 Hc2].
  apply andb_true_iff in Hf. destruct Hf as [Hf1 Hf2].
  rewrite (IH Hc2 Hf2). unfold entity_ready. unfold props_clean in Hc1.
  rewrite Hc1, Hf1. reflexivity.
Qed.

(** Every face texture of the document is a bare token: not empty, free of
    whitespace, braces and parentheses, and not starting with a double quote. *)
Definition textures_bare (m : MapFile) : bool :=
  forallb (fun e => forallb (fun b => forallb (fun f => bare_token (texture f)) (faces b))
                            (brushes e))
          (entities m).

Lemma point_in_range_stable (v : Vec3) : point_in_range v -> stable_point v = true.
Proof.
  intros [H1 [H2 H3]]. unfold stable_point.
  rewrite !binary64_is_stable by assumption. reflexivity.
Qed.

Lemma face_in_range_ready (f : Face) :
  face_in_range f -> bare_token (texture f) = true -> face_ready f = true.
Proof.
  intros [H1 [H2 [H3 [H4 [H5 [H6 [H7 H8]]]]]]] Ht. unfold face_ready.
  rewrite !point_in_range_stable, !binary64_is_stable, Ht by assumption. reflexivity.
Qed.

Lemma in_range_faces_ready (m : MapFile) :
  document_in_range m -> textures_bare m = true -> faces_ready m = true.
Proof.
  unfold document_in_range, textures_bare, faces_ready.
  induction 1 as [|e es He _ IHe]; [reflexivity|].
  cbn [forallb]. intro Ht. apply andb_true_iff in Ht. destruct Ht as [Ht1 Ht2].
  rewrite (IHe Ht2), andb_true_r. clear IHe Ht2.
  unfold entity_in_range in He.
  induction He as [|b bs Hb _ IHb]; [reflexivity|].
  cbn [forallb] in *. apply andb_true_iff in Ht1. destruct Ht1 as [Hb1 Hb2].
  rewrite (IHb Hb2), andb_true_r. clear IHb Hb2.
  unfold brush_ready. unfold brush_in_range in Hb.
  induction Hb as [|f fs Hf _ IHf]; [reflexivity|].
  cbn [forallb] in *. apply andb_true_iff in Hb1. destruct Hb1 as [Hf1 Hf2].
  rewrite (IHf Hf2), andb_true_r. apply face_in_range_ready; assumption.
Qed.

Definition vec (a b c : Z) : Vec3 :=
  {| x := PyFloat.of_Z a; y := PyFloat.of_Z b; z := PyFloat.of_Z c |}.

(** A world entity with one brush of one face, textured [tex]. *)
Definition one_face_map (tex : str) : MapFile :=
  {| entities :=
       [Entity_init (lit "worldspawn") []
          [{| faces := [plain_face (vec 0 0 0) (vec 1 0 0) (vec 0 1 0) tex] |}]] |}.

(** C1, as stated, fails.  With the texture name written in quotes, as the
    parser accepts it, [D = parse(write(D0))] holds the texture [a b], and the
    text written from [D] is rejected by the parser. *)
Lemma quoted_texture_breaks_the_cycle :
  let D0 := one_face_map (quoted (lit "a b")) in
  let D := one_face_map (lit "a b") in
  parse_map (write_map_to_string D0) = Ok D
  /\ parse_map (write_map_to_string D)
     = Raise (ParseError (InvalidNumericValue (lit "b")) 4 42)
  /\ ~ (exists D', parse_map (write_map_to_string D) = Ok D'
                   /\ write_map_to_string D' = write_map_to_string D).
Proof.
  cbv zeta.
  assert (E : parse_map (write_map_to_string (one_face_map (lit "a b")))
              = Raise (ParseError (InvalidNumericValue (lit "b")) 4 42))
    by (vm_compute; reflexivity).
  split; [vm_compute; reflexivity|]. split; [exact E|].
  intros [D' [H _]]. rewrite E in H. discriminate H.
Qed.

(** A parsed document whose face textures are bare tokens is written to a
    text that parses, and writing the result gives the same text. *)
Lemma parsed_document_reads_back (source : str) (D : MapFile) :
  parse_map source = Ok D ->
  textures_bare D = true ->
  exists D', parse_map (write_map_to_string D) = Ok D'
             /\ write_map_to_string D' = write_map_to_string D.
Proof.
  intros Hp Ht. apply ready_document_reads_back.
  unfold document_ready. apply clean_and_faces_ready.
  - exact (parse_map_clean _ _ Hp).
  - apply in_range_faces_ready; [exact (parse_map_in_range _ _ Hp) | exact Ht].
Qed.

(** C1, amended. For every document [D = parse(write(D0))] in which every
    face texture is a bare token (not empty, free of whitespace, braces and
    parentheses, not starting with a double quote), parsing [write(D)]
    succeeds and writing the result gives [write(D)] again, character for
    character. *)
Theorem parse_write_fixed_point (D0 D : MapFile) :
  parse_map (write_map_to_string D0) = Ok D ->
  textures_bare D = true ->
  exists D', parse_map (write_map_to_string D) = Ok D'
             /\ write_map_to_string D' = write_map_to_string D.
Proof. apply parsed_document_reads_back. Qed.

Definition sample_document : MapFile :=
  {| entities :=
       [Entity_init (lit "worldspawn") [(lit "wad", lit "base.wad")]
          [{| faces := [plain_face (vec 0 0 0) (vec 1 0 0) (vec 0 1 0) (lit "wall");
                        {| point1 := vec 0 0 64; point2 := vec 0 128 64; point3 := vec 128 0 64;
                           texture := lit "floor/tile_1";
                           offset_u := PyFloat.of_decimal false 5 (-1);
                           offset_v := PyFloat.of_decimal true 1625 (-2);
                           rotation := PyFloat.of_Z 90;
                           scale_u := PyFloat.of_decimal false 1 (-1);
                           scale_v := PyFloat.of_Z 1 |}] |}];
        Entity_init (lit "light") [(lit "origin", lit "16 32 48")] []] |}.

Definition sample_document_parsed : MapFile :=
  Eval vm_compute in
    match parse_map (write_map_to_string sample_document) with
    | Ok m => m
    | Raise _ => {| entities := [] |}
    end.

Lemma parse_write_fixed_point_witness :
  exists D', parse_map (write_map_to_string sample_document_parsed) = Ok D'
             /\ write_map_to_string D' = write_map_to_string sample_document_parsed.
Proof.
  apply (parse_write_fixed_point sample_document sample_document_parsed).
  - vm_compute. reflexivity.
  - vm_compute. reflexivity.
Defined.

(** ** Normals of degenerate faces *)

(** *** Floats that hold integers exactly *)

Open Scope Z_scope.

Lemma digits2_size (p : positive) : digits2_pos p = Pos.size p.
Proof. induction p; simpl; congruence. Qed.

Lemma iter_xO_value (m : positive) (k : positive) :
  Zpos (Pos.iter xO m k) = Zpos m * 2 ^ Zpos k.
Proof.
  induction k as [|k IH] using Pos.peano_ind.
  - simpl. lia.
  - rewrite Pos.iter_succ. rewrite Pos2Z.inj_succ, Z.pow_succ_r by lia.
    rewrite Pos2Z.inj_xO, IH. lia.
Qed.

Lemma iter_xO_digits (m : positive) (k : positive) :
  Zpos (digits2_pos (Pos.iter xO m k)) = Zpos (digits2_pos m) + Zpos k.
Proof.
  induction k as [|k IH] using Pos.peano_ind.
  - simpl. lia.
  - rewrite Pos.iter_succ. cbn [digits2_pos]. rewrite !Pos2Z.inj_succ, IH. lia.
Qed.

Lemma iter_pos_iter {A} (f : A -> A) (n : positive) : forall x, iter_pos f n x = Pos.iter f x n.
Proof.
  induction n as [n IH|n IH|]; intro x; simpl.
  - rewrite !IH. rewrite <- !Pos.iter_swap. reflexivity.
  - rewrite !IH. reflexivity.
  - reflexivity.
Qed.

Lemma shr_exact (k : positive) : forall m : positive,
  iter_pos shr_1 k {| shr_m := Zpos (Pos.iter xO m k); shr_r := false; shr_s := false |}
  = {| shr_m := Zpos m; shr_r := false; shr_s := false |}.
Proof.
  intro m. rewrite iter_pos_iter.
  induction k as [|k IH] using Pos.peano_ind.
  - reflexivity.
  - rewrite !Pos.iter_succ, <- Pos.iter_swap.
    cbn [shr_1 orb]. exact IH.
Qed.

Lemma value_shift (M n : positive) (t : positive) :
  Zpos M = Zpos n * 2 ^ Zpos t -> M = Pos.iter xO n t.
Proof. intro H. rewrite <- iter_xO_value in H. congruence. Qed.

Lemma round_aux_exact (s : bool) (M n53 : positive) (j e : Z) :
  Zpos (digits2_pos n53) = 53 -> 0 <= j -> Zpos M = Zpos n53 * 2 ^ j ->
  -1074 <= e + j <= 971 ->
  binary_round_aux PyFloat.prec PyFloat.emax s (Zpos M) e loc_Exact = S754_finite s n53 (e + j).
Proof.
  intros Hd Hj HM He.
  assert (HdM : Zpos (digits2_pos M) = 53 + j).
  { destruct j as [|t|t]; [| |lia].
    - rewrite Z.pow_0_r, Z.mul_1_r in HM. inversion HM; subst. lia.
    - rewrite (value_shift _ _ _ HM), iter_xO_digits. lia. }
  unfold binary_round_aux, shr_fexp, fexp, emin, PyFloat.prec, PyFloat.emax. cbn [Zdigits2 shr_record_of_loc].
  rewrite HdM.
  replace (Z.max (53 + j + e - 53) (3 - 1024 - 53)) with (e + j) by lia.
  replace (e + j - e) with j by lia.
  assert (E1 : shr {| shr_m := Zpos M; shr_r := false; shr_s := false |} e j
               = ({| shr_m := Zpos n53; shr_r := false; shr_s := false |}, e + j)).
  { destruct j as [|t|t]; [| |lia].
    - rewrite Z.pow_0_r, Z.mul_1_r in HM. inversion HM; subst. cbn [shr]. f_equal. lia.
    - cbn [shr]. rewrite (value_shift _ _ _ HM), shr_exact. reflexivity. }
  rewrite E1. cbn [shr_m loc_of_shr_record round_nearest_even Zdigits2 shr_record_of_loc].
  rewrite Hd.
  replace (Z.max (53 + (e + j) - 53) (3 - 1024 - 53)) with (e + j) by lia.
  rewrite Z.sub_diag. cbn [shr shr_m].
  replace (e + j <=? 1024 - 53) with true by (symmetry; apply Z.leb_le; lia).
  reflexivity.
Qed.

(** [M * 2^e = n53 * 2^E], for a mantissa [n53] of 53 digits. *)
Definition same_value (M : positive) (e : Z) (n53 : positive) (E : Z) : Prop :=
  (E <= e /\ Zpos M * 2 ^ (e - E) = Zpos n53) \/ (e < E /\ Zpos M = Zpos n53 * 2 ^ (E - e)).

Lemma round_exact (s : bool) (M n53 : positive) (e E : Z) :
  Zpos (digits2_pos n53) = 53 -> -1074 <= E <= 971 -> same_value M e n53 E ->
  binary_round PyFloat.prec PyFloat.emax s M e = S754_finite s n53 E.
Proof.
  intros Hd HE [[Hle HM]|[Hlt HM]]; unfold binary_round.
  - assert (HdM : Zpos (digits2_pos M) + (e - E) = 53).
    { remember (e - E) as t. destruct t as [|t|t]; [| |lia].
      - rewrite Z.pow_0_r, Z.mul_1_r in HM. inversion HM; subst. lia.
      - rewrite <- iter_xO_value in HM. inversion HM; subst n53.
        rewrite iter_xO_digits in Hd. lia. }
    unfold fexp, emin, PyFloat.prec, PyFloat.emax.
    replace (Z.max (Zpos (digits2_pos M) + e - 53) (3 - 1024 - 53)) with E by lia.
    unfold shl_align.
    remember (E - e) as u. destruct u as [|u|u]; [| lia |].
    + assert (e = E) by lia. subst e. rewrite Z.sub_diag, Z.pow_0_r, Z.mul_1_r in HM.
      inversion HM; subst.
      replace E with (E + 0) at 2 by lia. apply round_aux_exact; try lia.
    + assert (Et : e - E = Zpos u) by lia. rewrite Et in HM.
      rewrite <- iter_xO_value in HM. inversion HM as [HM']. rewrite HM'.
      replace E with (E + 0) at 2 by lia. apply round_aux_exact; try lia.
  - assert (HdM : Zpos (digits2_pos M) = 53 + (E - e)).
    { remember (E - e) as t. destruct t as [|t|t]; [lia| |lia].
      rewrite (value_shift _ _ _ HM), iter_xO_digits. lia. }
    unfold fexp, emin, PyFloat.prec, PyFloat.emax. rewrite HdM.
    replace (Z.max (53 + (E - e) + e - 53) (3 - 1024 - 53)) with E by lia.
    unfold shl_align.
    remember (E - e) as u. destruct u as [|u|u]; [lia| |lia].
    replace E with (e + Zpos u) by lia.
    apply round_aux_exact; try lia. 
Qed.

(** [x] is the float of the non-zero integer [a], which it holds exactly:
    its mantissa has 53 digits and is [|a|] shifted left by [-E] bits. *)
Definition repr (x : spec_float) (a : Z) : Prop :=
  exists m E, x = S754_finite (a <? 0) m E /\ Zpos (digits2_pos m) = 53
              /\ -52 <= E <= 0 /\ Zpos m = Z.abs a * 2 ^ (- E).

Lemma pow2_split (u v : Z) : 0 <= u -> 0 <= v -> 2 ^ (u + v) = 2 ^ u * 2 ^ v.
Proof. intros. apply Z.pow_add_r; assumption. Qed.

Lemma pow2_pos (u : Z) : 0 <= u -> 0 < 2 ^ u.
Proof. intro. apply Z.pow_pos_nonneg; lia. Qed.

Lemma pow2_ge2 (u : Z) : 0 < u -> 2 <= 2 ^ u.
Proof.
  intro H. replace u with (1 + (u - 1)) by lia. rewrite pow2_split by lia.
  pose proof (pow2_pos (u - 1)). change (2 ^ 1) with 2. lia.
Qed.

Lemma repr_nonzero (x : spec_float) (a : Z) : repr x a -> a <> 0.
Proof. intros [m [E [_ [_ [_ H]]]]] Ha. subst a. simpl in H. lia. Qed.

Lemma repr_unique (x y : spec_float) (a : Z) : repr x a -> repr y a -> x = y.
Proof.
  intros [m [E [Hx [Hd [HE Hm]]]]] [m' [E' [Hy [Hd' [HE' Hm']]]]].
  pose proof (digits2_bounds m) as B. pose proof (digits2_bounds m') as B'.
  rewrite Hd in B. rewrite Hd' in B'.
  change (2 ^ (53 - 1)) with 4503599627370496 in *.
  change (2 ^ 53) with 9007199254740992 in *.
  assert (EE : E = E').
  { destruct (Z.lt_trichotomy E E') as [L|[L|L]]; [|exact L|]; exfalso.
    - replace (- E) with (- E' + (E' - E)) in Hm by lia.
      rewrite pow2_split in Hm by lia.
      pose proof (pow2_ge2 (E' - E) ltac:(lia)). nia.
    - replace (- E') with (- E + (E - E')) in Hm' by lia.
      rewrite pow2_split in Hm' by lia.
      pose proof (pow2_ge2 (E - E') ltac:(lia)). nia. }
  subst E'. assert (m = m') by lia. subst. congruence.
Qed.

(** A positive with at most 53 digits, shifted to 53 digits. *)
Lemma exists_norm53 (c : Z) :
  c <> 0 -> Z.abs c < 2 ^ 53 ->
  exists n53 E, Zpos (digits2_pos n53) = 53 /\ -52 <= E <= 0
                /\ Zpos n53 = Z.abs c * 2 ^ (- E).
Proof.
  intros Hc Hb.
  assert (Hp : exists p, Z.abs c = Zpos p).
  { destruct c; [lia | eexists; reflexivity | eexists; reflexivity]. }
  destruct Hp as [p Hp]. rewrite Hp in *.
  pose proof (digits2_bounds p) as B.
  assert (Hd : Zpos (digits2_pos p) <= 53).
  { destruct (Z_le_gt_dec (Zpos (digits2_pos p)) 53) as [L|G]; [exact L|]. exfalso.
    assert (2 ^ 53 <= 2 ^ (Zpos (digits2_pos p) - 1)) by (apply Z.pow_le_mono_r; lia).
    lia. }
  remember (53 - Zpos (digits2_pos p)) as t. destruct t as [|t|t]; [| |lia].
  - exists p, 0. repeat split; try lia.
  - exists (Pos.iter xO p t), (- Zpos t). rewrite iter_xO_digits, iter_xO_value.
    repeat split; lia.
Qed.

Lemma normalize_repr (D ez c : Z) :
  c <> 0 -> Z.abs c < 2 ^ 53 -> -1074 <= ez <= 0 -> D = c * 2 ^ (- ez) ->
  repr (binary_normalize PyFloat.prec PyFloat.emax D ez false) c.
Proof.
  intros Hc Hb Hez HD.
  destruct (exists_norm53 c Hc Hb) as [n53 [E [Hd [HE Hn]]]].
  pose proof (pow2_pos (- ez) ltac:(lia)) as P.
  assert (Hs : (D <? 0) = (c <? 0)).
  { destruct (Z.ltb_spec D 0), (Z.ltb_spec c 0); try reflexivity; nia. }
  assert (Habs : Z.abs D = Z.abs c * 2 ^ (- ez)).
  { rewrite HD, Z.abs_mul. f_equal. apply Z.abs_eq. lia. }
  assert (Hv : forall p, Z.abs D = Zpos p -> same_value p ez n53 E).
  { intros p Hp. rewrite Hp in Habs. unfold same_value.
    destruct (Z_le_gt_dec E ez) as [L|G]; [left | right]; split; try lia.
    - rewrite Habs, Hn. replace (- E) with (- ez + (ez - E)) by lia.
      rewrite pow2_split by lia. ring.
    - rewrite Habs, Hn. replace (- ez) with (- E + (E - ez)) by lia.
      rewrite pow2_split by lia. ring. }
  exists n53, E. split; [|repeat split; try lia; exact Hn].
  rewrite <- Hs. destruct D as [|p|p]; [nia| |].
  - cbn [binary_normalize]. apply round_exact; try lia. apply Hv. reflexivity.
  - cbn [binary_normalize]. apply round_exact; try lia. apply Hv. reflexivity.
Qed.

Lemma of_Z_repr (a : Z) :
  a <> 0 -> Z.abs a < 2 ^ 53 -> repr (binary_normalize PyFloat.prec PyFloat.emax a 0 false) a.
Proof.
  intros Ha Hb. apply normalize_repr; try assumption; try lia.
Qed.

Lemma shl_align_value (m : positive) (e ez : Z) :
  ez <= e -> Zpos (fst (shl_align m e ez)) = Zpos m * 2 ^ (e - ez).
Proof.
  intro H. unfold shl_align. remember (ez - e) as t. destruct t as [|t|t]; [| lia |].
  - replace (e - ez) with 0 by lia. simpl. lia.
  - cbn [fst]. rewrite iter_xO_value. f_equal. f_equal. lia.
Qed.

Lemma repr_aligned (x : spec_float) (a : Z) (s : bool) (m : positive) (E ez : Z) :
  s = (a <? 0) -> Zpos m = Z.abs a * 2 ^ (- E) -> ez <= E -> E <= 0 ->
  cond_Zopp s (Zpos (fst (shl_align m E ez))) = a * 2 ^ (- ez).
Proof.
  intros Hs Hm Hez HE. rewrite shl_align_value by exact Hez. rewrite Hm.
  replace (- ez) with (- E + (E - ez)) by lia. rewrite pow2_split by lia.
  subst s. unfold cond_Zopp. destruct (Z.ltb_spec a 0).
  - rewrite Z.abs_neq by lia. ring.
  - rewrite Z.abs_eq by lia. ring.
Qed.

Lemma sub_repr (x y : spec_float) (a b : Z) :
  repr x a -> repr y b -> a <> b -> Z.abs (a - b) < 2 ^ 53 ->
  repr (SFsub PyFloat.prec PyFloat.emax x y) (a - b).
Proof.
  intros [ma [Ea [Hx [Hda [HEa Hma]]]]] [mb [Eb [Hy [Hdb [HEb Hmb]]]]] Hne Hb.
  subst x y. cbn [SFsub].
  apply normalize_repr; try lia.
  rewrite (repr_aligned (S754_zero false) a (a <? 0) ma Ea (Z.min Ea Eb)) by (try reflexivity; try assumption; lia).
  rewrite (repr_aligned (S754_zero false) b (b <? 0) mb Eb (Z.min Ea Eb)) by (try reflexivity; try assumption; lia).
  ring.
Qed.

Lemma mul_repr (x y : spec_float) (a b : Z) :
  repr x a -> repr y b -> Z.abs (a * b) < 2 ^ 53 -> repr (SFmul PyFloat.prec PyFloat.emax x y) (a * b).
Proof.
  intros Hx Hy Hb.
  pose proof (repr_nonzero _ _ Hx) as Ha0. pose proof (repr_nonzero _ _ Hy) as Hb0.
  destruct Hx as [ma [Ea [Hx [Hda [HEa Hma]]]]]. destruct Hy as [mb [Eb [Hy [Hdb [HEb Hmb]]]]].
  subst x y. cbn [SFmul].
  destruct (exists_norm53 (a * b) ltac:(nia) Hb) as [n53 [E [Hd [HE Hn]]]].
  pose proof (digits2_bounds ma) as Ba. pose proof (digits2_bounds mb) as Bb.
  pose proof (digits2_bounds n53) as Bn. rewrite Hda in Ba. rewrite Hdb in Bb. rewrite Hd in Bn.
  change (2 ^ (53 - 1)) with 4503599627370496 in *.
  change (2 ^ 53) with 9007199254740992 in *.
  assert (Hprod : Zpos (ma * mb) = Z.abs (a * b) * 2 ^ (- Ea + - Eb)).
  { rewrite Pos2Z.inj_mul, Hma, Hmb, Z.abs_mul, pow2_split by lia. ring. }
  assert (Hj : Ea + Eb <= E).
  { destruct (Z_le_gt_dec (Ea + Eb) E) as [L|G]; [exact L|]. exfalso.
    replace (- E) with ((- Ea + - Eb) + (Ea + Eb - E)) in Hn by lia.
    rewrite pow2_split in Hn by lia.
    rewrite Z.mul_assoc in Hn. rewrite <- Hprod in Hn.
    pose proof (pow2_ge2 (Ea + Eb - E) ltac:(lia)).
    rewrite Pos2Z.inj_mul in Hn. nia. }
  exists n53, E. split; [|repeat split; try lia; exact Hn].
  assert (Hs : xorb (a <? 0) (b <? 0) = (a * b <? 0)).
  { destruct (Z.ltb_spec a 0), (Z.ltb_spec b 0), (Z.ltb_spec (a * b) 0); try reflexivity; nia. }
  rewrite Hs.
  rewrite (round_aux_exact (a * b <? 0) (ma * mb) n53 (E - (Ea + Eb)) (Ea + Eb));
    [f_equal; lia | exact Hd | lia | | lia].
  rewrite Hprod, Hn. replace (- Ea + - Eb) with (- E + (E - (Ea + Eb))) by lia.
  rewrite pow2_split by lia. ring.
Qed.

(** [x] is the float of the integer [a]; a zero of either sign stands
    for 0. *)
Definition int_float (x : float) (a : Z) : Prop :=
  (a = 0 /\ PyFloat.is_zero x = true) \/ repr x a.

Lemma int_float_zero (x : float) : int_float x 0 -> PyFloat.is_zero x = true.
Proof.
  intros [[_ H]|H]; [exact H|]. exfalso. exact (repr_nonzero _ _ H eq_refl).
Qed.

Lemma of_Z_int_float (a : Z) : Z.abs a < 2 ^ 53 -> int_float (PyFloat.of_Z a) a.
Proof.
  intro H. destruct (Z.eq_dec a 0) as [E|E].
  - left. subst a. split; reflexivity.
  - right. apply of_Z_repr; assumption.
Qed.

Lemma sub_self_finite (s : bool) (m : positive) (e : Z) :
  PyFloat.sub (S754_finite s m e) (S754_finite s m e) = S754_zero false.
Proof.
  unfold PyFloat.sub. cbn [SFsub]. rewrite Z.sub_diag. reflexivity.
Qed.

Lemma repr_opp (s : bool) (m : positive) (e : Z) (b : Z) :
  repr (S754_finite s m e) b -> repr (S754_finite (negb s) m e) (0 - b).
Proof.
  intros H. pose proof (repr_nonzero _ _ H) as Hb.
  destruct H as [m' [E [Hx [Hd [HE Hm]]]]]. inversion Hx; subst.
  exists m', E. split.
  - f_equal. destruct (Z.ltb_spec b 0), (Z.ltb_spec (0 - b) 0); try reflexivity; lia.
  - repeat split; lia.
Qed.

Lemma sub_int_float (u v : float) (a b : Z) :
  int_float u a -> int_float v b -> Z.abs (a - b) < 2 ^ 53 ->
  int_float (PyFloat.sub u v) (a - b).
Proof.
  intros [[Ha Hu]|Hu] [[Hb Hv]|Hv] Hbound.
  - left. subst. split; [reflexivity|].
    destruct u as [su|su| |su mu eu]; try discriminate Hu.
    destruct v as [sv|sv| |sv mv ev]; try discriminate Hv.
    destruct su, sv; reflexivity.
  - right. subst a. destruct u as [su|su| |su mu eu]; try discriminate Hu.
    pose proof Hv as Hv'. destruct Hv' as [m [E [Hx _]]]. subst v.
    unfold PyFloat.sub. cbn [SFsub]. apply repr_opp. exact Hv.
  - right. subst b. destruct v as [sv|sv| |sv mv ev]; try discriminate Hv.
    pose proof Hu as Hu'. destruct Hu' as [m [E [Hx _]]]. subst u.
    unfold PyFloat.sub. cbn [SFsub]. rewrite Z.sub_0_r. exact Hu.
  - destruct (Z.eq_dec a b) as [E|E].
    + left. subst b. split; [lia|].
      rewrite (repr_unique _ _ _ Hv Hu).
      destruct Hu as [m [E [Hx _]]]. subst u. rewrite sub_self_finite. reflexivity.
    + right. apply sub_repr; assumption.
Qed.

Lemma mul_int_float (u v : float) (a b : Z) :
  int_float u a -> int_float v b -> Z.abs (a * b) < 2 ^ 53 ->
  int_float (PyFloat.mul u v) (a * b).
Proof.
  intros [[Ha Hu]|Hu] [[Hb Hv]|Hv] Hbound.
  - left. subst. split; [reflexivity|].
    destruct u as [su|su| |su mu eu]; try discriminate Hu.
    destruct v as [sv|sv| |sv mv ev]; try discriminate Hv. reflexivity.
  - left. subst a. split; [reflexivity|].
    destruct u as [su|su| |su mu eu]; try discriminate Hu.
    destruct Hv as [m [E [Hx _]]]. subst v. reflexivity.
  - left. subst b. split; [lia|].
    destruct v as [sv|sv| |sv mv ev]; try discriminate Hv.
    destruct Hu as [m [E [Hx _]]]. subst u. reflexivity.
  - right. apply mul_repr; assumption.
Qed.

(** *** The normal never raises *)

(** A float that [math.sqrt] accepts as the sum of squares it is given: not
    negative, possibly NaN. *)
Definition not_negative (v : float) : Prop :=
  match v with
  | S754_zero false | S754_infinity false | S754_finite false _ _ | S754_nan => True
  | _ => False
  end.

Lemma round_aux_sign (s : bool) (m e : Z) (l : location) :
  let r := binary_round_aux PyFloat.prec PyFloat.emax s m e l in
  r = S754_zero s \/ r = S754_infinity s \/ r = S754_nan \/ exists m' e', r = S754_finite s m' e'.
Proof.
  unfold binary_round_aux.
  destruct (shr_fexp _ _ m e l) as [mrs' e'].
  destruct (shr_fexp _ _ _ e' loc_Exact) as [mrs'' e''].
  destruct (shr_m mrs'') as [|p|p]; [auto | | auto].
  destruct (e'' <=? PyFloat.emax - PyFloat.prec); eauto 6.
Qed.

Lemma square_not_negative (v : float) : not_negative (PyFloat.mul v v).
Proof.
  destruct v as [s|s| |s m e]; try (destruct s; exact I); try exact I.
  unfold PyFloat.mul. cbn [SFmul].
  replace (xorb s s) with false by (destruct s; reflexivity).
  destruct (round_aux_sign false (Zpos (m * m)) (e + e) loc_Exact)
    as [H|[H|[H|[m' [e' H]]]]]; rewrite H; exact I.
Qed.

Lemma add_not_negative (u v : float) :
  not_negative u -> not_negative v -> not_negative (PyFloat.add u v).
Proof.
  destruct u as [[]|[]| |[] mu eu]; try contradiction;
    destruct v as [[]|[]| |[] mv ev]; try contradiction; intros _ _; try exact I.
  unfold PyFloat.add. cbn [SFadd cond_Zopp].
  set (a := fst (shl_align mu eu (Z.min eu ev))).
  set (b := fst (shl_align mv ev (Z.min eu ev))).
  change (Zpos a + Zpos b) with (Zpos (a + b)). cbn [binary_normalize].
  unfold binary_round.
  destruct (shl_align (a + b) (Z.min eu ev) _) as [mz ez].
  destruct (round_aux_sign false (Zpos mz) ez loc_Exact)
    as [H|[H|[H|[m' [e' H]]]]]; rewrite H; exact I.
Qed.

Lemma Vec3_length_total (v : Vec3) : exists len, Vec3_length v = Ok len.
Proof.
  unfold Vec3_length.
  assert (H : not_negative (PyFloat.add (PyFloat.add (PyFloat.mul (x v) (x v))
                                                     (PyFloat.mul (y v) (y v)))
                                        (PyFloat.mul (z v) (z v)))).
  { repeat apply add_not_negative; apply square_not_negative. }
  destruct (PyFloat.add _ _) as [[]|[]| |[] m e]; try contradiction;
    eexists; reflexivity.
Qed.

Lemma Vec3_normalized_total (v : Vec3) : exists n, Vec3_normalized v = Ok n.
Proof.
  unfold Vec3_normalized. destruct (Vec3_length_total v) as [len E]. rewrite E.
  cbn [bind]. destruct (PyFloat.ltb len epsilon) eqn:L; [eauto|].
  unfold Vec3_truediv, PyFloat.truediv.
  destruct len as [s|s| |s m e]; try (cbn [PyFloat.is_zero bind]; eauto).
  destruct s; discriminate L.
Qed.

Lemma Vec3_normalized_of_zeros (v : Vec3) :
  PyFloat.is_zero (x v) = true -> PyFloat.is_zero (y v) = true ->
  PyFloat.is_zero (z v) = true -> Vec3_normalized v = Ok Vec3_zero.
Proof.
  destruct v as [vx vy vz]. cbn [x y z]. intros Hx Hy Hz.
  destruct vx as [sx|sx| |sx mx ex]; try discriminate Hx.
  destruct vy as [sy|sy| |sy my ey]; try discriminate Hy.
  destruct vz as [sz|sz| |sz mz ez]; try discriminate Hz.
  destruct sx, sy, sz; reflexivity.
Qed.

(** *** Collinear points with integer coordinates *)

(** A point with integer coordinates. *)
Definition ipoint : Type := Z * Z * Z.

Definition vec_of (p : ipoint) : Vec3 := let '(a, b, c) := p in vec a b c.

(** Coordinates of magnitude at most [2^24]. *)
Definition small_point (p : ipoint) : Prop :=
  let '(a, b, c) := p in
  Z.abs a <= 16777216 /\ Z.abs b <= 16777216 /\ Z.abs c <= 16777216.

(** The three points lie on one line: the cross product of the edge vectors
    [p2 - p1] and [p3 - p1] vanishes. *)
Definition collinear (p1 p2 p3 : ipoint) : Prop :=
  let '(x1, y1, z1) := p1 in
  let '(x2, y2, z2) := p2 in
  let '(x3, y3, z3) := p3 in
  (y2 - y1) * (z3 - z1) - (z2 - z1) * (y3 - y1) = 0
  /\ (z2 - z1) * (x3 - x1) - (x2 - x1) * (z3 - z1) = 0
  /\ (x2 - x1) * (y3 - y1) - (y2 - y1) * (x3 - x1) = 0.

Lemma edge_int_float (a b : Z) :
  Z.abs a <= 16777216 -> Z.abs b <= 16777216 ->
  int_float (PyFloat.sub (PyFloat.of_Z a) (PyFloat.of_Z b)) (a - b).
Proof.
  intros Ha Hb. change (2 ^ 53) with 9007199254740992 in *.
  apply sub_int_float; try apply of_Z_int_float;
    change (2 ^ 53) with 9007199254740992; lia.
Qed.

Lemma cross_component_zero (a b c d : float) (A B C D : Z) :
  int_float a A -> int_float b B -> int_float c C -> int_float d D ->
  Z.abs A <= 33554432 -> Z.abs B <= 33554432 ->
  Z.abs C <= 33554432 -> Z.abs D <= 33554432 ->
  A * B - C * D = 0 ->
  PyFloat.is_zero (PyFloat.sub (PyFloat.mul a b) (PyFloat.mul c d)) = true.
Proof.
  intros Ha Hb Hc Hd BA BB BC BD H.
  assert (PAB : Z.abs (A * B) <= 33554432 * 33554432).
  { rewrite Z.abs_mul. apply Z.mul_le_mono_nonneg; lia. }
  assert (PCD : Z.abs (C * D) <= 33554432 * 33554432).
  { rewrite Z.abs_mul. apply Z.mul_le_mono_nonneg; lia. }
  apply int_float_zero. rewrite <- H.
  apply sub_int_float; try apply mul_int_float; try assumption;
    change (2 ^ 53) with 9007199254740992; lia.
Qed.

(** C7, as stated, fails.  Two faces with collinear points: for the first,
    the subtraction [2^53 - (-1)] rounds, and the normal is the unit vector
    [(0, 0, -1)]; for the second, whose first two points coincide, the edge
    [p3 - p1] overflows and every component of the normal is NaN. *)
Lemma collinear_points_with_nonzero_normal :
  let p1 := (-1, -3, 0) in
  let p2 := (2 ^ 53, 3 * 2 ^ 53, 0) in
  let p3 := (1, 3, 0) in
  let big := PyFloat.of_decimal false 17 307 in
  let q1 := {| x := PyFloat.neg big; y := PyFloat.zero; z := PyFloat.zero |} in
  let q3 := {| x := big; y := PyFloat.zero; z := PyFloat.zero |} in
  collinear p1 p2 p3
  /\ Face_normal (plain_face (vec_of p1) (vec_of p2) (vec_of p3) (lit "wall"))
     = Ok (vec 0 0 (-1))
  /\ Face_normal (plain_face q1 q1 q3 (lit "wall"))
     = Ok {| x := S754_nan; y := S754_nan; z := S754_nan |}.
Proof.
  cbv zeta. split; [|split].
  - unfold collinear. repeat split; reflexivity.
  - vm_compute. reflexivity.
  - vm_compute. reflexivity.
Qed.

(** C7, amended. [normal()] never raises, for any face.  For a face whose
    three points have integer coordinates of magnitude at most [2^24] and
    are collinear, it returns the zero vector [Vec3(0, 0, 0)], which holds
    no NaN. *)
Theorem normal_of_collinear_integer_points :
  (forall f : Face, exists n, Face_normal f = Ok n)
  /\ (forall (f : Face) (p1 p2 p3 : ipoint),
         point1 f = vec_of p1 -> point2 f = vec_of p2 -> point3 f = vec_of p3 ->
         small_point p1 -> small_point p2 -> small_point p3 ->
         collinear p1 p2 p3 ->
         Face_normal f = Ok Vec3_zero).
Proof.
  split.
  - intro f. unfold Face_normal. apply Vec3_normalized_total.
  - intros f [[x1 y1] z1] [[x2 y2] z2] [[x3 y3] z3] E1 E2 E3 S1 S2 S3 C.
    unfold Face_normal. rewrite E1, E2, E3.
    destruct S1 as [Sx1 [Sy1 Sz1]], S2 as [Sx2 [Sy2 Sz2]], S3 as [Sx3 [Sy3 Sz3]].
    destruct C as [Cx [Cy Cz]].
    apply Vec3_normalized_of_zeros;
      unfold Vec3_cross, Vec3_sub, vec_of, vec; cbn [x y z].
    + apply (cross_component_zero _ _ _ _ (y2 - y1) (z3 - z1) (z2 - z1) (y3 - y1));
        try apply edge_int_float; try assumption; lia.
    + apply (cross_component_zero _ _ _ _ (z2 - z1) (x3 - x1) (x2 - x1) (z3 - z1));
        try apply edge_int_float; try assumption; lia.
    + apply (cross_component_zero _ _ _ _ (x2 - x1) (y3 - y1) (y2 - y1) (x3 - x1));
        try apply edge_int_float; try assumption; lia.
Qed.

Lemma normal_of_collinear_integer_points_witness :
  (exists n, Face_normal (plain_face (vec 0 0 0) (vec 1 0 0) (vec 0 1 0) (lit "wall")) = Ok n)
  /\ Face_normal (plain_face (vec 0 0 64) (vec 128 (-32) 64) (vec (-256) 64 64) (lit "wall"))
     = Ok Vec3_zero.
Proof.
  split.
  - apply (proj1 normal_of_collinear_integer_points).
  - apply (proj2 normal_of_collinear_integer_points _ (0, 0, 64) (128, -32, 64) (-256, 64, 64));
      try reflexivity; unfold small_point, collinear; lia.
Defined.

Close Scope Z_scope.

(** * Further properties *)

(** ** The document and its entities *)

Lemma nth_error_remove {A : Type} (l : list A) (i j : nat) :
  nth_error (firstn i l ++ skipn (S i) l) j
  = if j <? i then nth_error l j else nth_error l (S j).
Proof.
  revert i j. induction l as [|a l IH]; intros i j.
  - rewrite firstn_nil, skipn_nil. destruct j; destruct (_ <? _); reflexivity.
  - destruct i as [|i].
    + cbn [firstn skipn app]. reflexivity.
    + destruct j as [|j]; [reflexivity|].
      cbn [firstn skipn app nth_error]. rewrite IH.
      change (S j <? S i) with (j <? i). reflexivity.
Qed.

(** X1. [remove_entity] with an index out of range, negative ones included,
    returns [False] and leaves the document as it is.  With an index in
    range it returns [True], the document has one entity less, the entities
    before the index keep their place and the later ones move down by one. *)
Theorem remove_entity_shifts_later_entities (m : MapFile) (i : Z) :
  ((i < 0 \/ Z.of_nat (MapFile_entity_count m) <= i)%Z ->
   MapFile_remove_entity m i = (m, false))
  /\ ((0 <= i < Z.of_nat (MapFile_entity_count m))%Z ->
      snd (MapFile_remove_entity m i) = true
      /\ S (MapFile_entity_count (fst (MapFile_remove_entity m i))) = MapFile_entity_count m
      /\ forall j : Z,
           MapFile_get_entity_at_index (fst (MapFile_remove_entity m i)) j
           = if (j <? i)%Z then MapFile_get_entity_at_index m j
             else if (j <? 0)%Z then None
             else MapFile_get_entity_at_index m (j + 1)).
Proof.
  unfold MapFile_remove_entity, MapFile_entity_count. split.
  - intro H.
    replace ((0 <=? i)%Z && (i <? Z.of_nat (List.length (entities m)))%Z) with false;
      [reflexivity|].
    symmetry. apply andb_false_iff.
    destruct H as [H|H]; [left; apply Z.leb_gt | right; apply Z.ltb_ge]; lia.
  - intro H.
    replace ((0 <=? i)%Z && (i <? Z.of_nat (List.length (entities m)))%Z) with true
      by (symmetry; apply andb_true_iff; split; [apply Z.leb_le | apply Z.ltb_lt]; lia).
    cbn [fst snd]. split; [reflexivity|].
    assert (L : S (List.length (firstn (Z.to_nat i) (entities m)
                                  ++ skipn (S (Z.to_nat i)) (entities m)))
                = List.length (entities m)).
    { rewrite length_app, length_firstn, length_skipn. lia. }
    split; [exact L|].
    intro j. unfold MapFile_get_entity_at_index. cbn [entities].
    rewrite nth_error_remove.
    destruct (Z.ltb_spec j i) as [Hji|Hji].
    + destruct (Z.leb_spec 0 j) as [H0|H0]; cbn [andb]; [|reflexivity].
      replace (Z.to_nat j <? Z.to_nat i) with true by (symmetry; apply Nat.ltb_lt; lia).
      replace (j <? Z.of_nat (List.length (firstn (Z.to_nat i) (entities m)
                                              ++ skipn (S (Z.to_nat i)) (entities m))))%Z
        with true by (symmetry; apply Z.ltb_lt; lia).
      replace (j <? Z.of_nat (List.length (entities m)))%Z with true
        by (symmetry; apply Z.ltb_lt; lia).
      reflexivity.
    + destruct (Z.ltb_spec j 0) as [Hj0|Hj0]; [lia|].
      replace (0 <=? j)%Z with true by (symmetry; apply Z.leb_le; lia).
      replace (0 <=? j + 1)%Z with true by (symmetry; apply Z.leb_le; lia).
      cbn [andb].
      replace (Z.to_nat j <? Z.to_nat i) with false by (symmetry; apply Nat.ltb_ge; lia).
      replace (Z.to_nat (j + 1)) with (S (Z.to_nat j)) by lia.
      destruct (Z.ltb_spec (j + 1) (Z.of_nat (List.length (entities m)))) as [Hl|Hl].
      * replace (j <? Z.of_nat (List.length (firstn (Z.to_nat i) (entities m)
                                                ++ skipn (S (Z.to_nat i)) (entities m))))%Z
          with true by (symmetry; apply Z.ltb_lt; lia).
        reflexivity.
      * replace (j <? Z.of_nat (List.length (firstn (Z.to_nat i) (entities m)
                                                ++ skipn (S (Z.to_nat i)) (entities m))))%Z
          with false by (symmetry; apply Z.ltb_ge; lia).
        reflexivity.
Qed.

Lemma remove_entity_witness :
  MapFile_remove_entity sample_map (-1) = (sample_map, false)
  /\ snd (MapFile_remove_entity sample_map 0) = true
  /\ MapFile_get_entity_at_index (fst (MapFile_remove_entity sample_map 0)) 0
     = MapFile_get_entity_at_index sample_map 1.
Proof.
  split; [|split].
  - apply (proj1 (remove_entity_shifts_later_entities sample_map (-1))). left. lia.
  - apply (proj2 (remove_entity_shifts_later_entities sample_map 0)). simpl. lia.
  - apply (proj2 (remove_entity_shifts_later_entities sample_map 0)). simpl. lia.
Defined.

(** X2. [add_entity] appends: it returns the old entity count as the index,
    [get_entity_at_index] finds the new entity there, and every other index
    gives what it gave before. *)
Theorem add_entity_then_get (m : MapFile) (e : Entity) (j : Z) :
  snd (MapFile_add_entity m e) = Z.of_nat (MapFile_entity_count m)
  /\ MapFile_entity_count (fst (MapFile_add_entity m e)) = S (MapFile_entity_count m)
  /\ MapFile_get_entity_at_index (fst (MapFile_add_entity m e)) j
     = if (j =? snd (MapFile_add_entity m e))%Z then Some e
       else MapFile_get_entity_at_index m j.
Proof.
  unfold MapFile_add_entity, MapFile_entity_count, MapFile_get_entity_at_index.
  cbn [fst snd entities]. rewrite length_app. cbn [List.length].
  split; [lia|]. split; [lia|].
  destruct (Z.eqb_spec j (Z.of_nat (List.length (entities m) + 1) - 1)) as [E|E].
  - replace ((0 <=? j)%Z && (j <? Z.of_nat (List.length (entities m) + 1))%Z) with true
      by (symmetry; apply andb_true_iff; split; [apply Z.leb_le | apply Z.ltb_lt]; lia).
    rewrite nth_error_app2 by lia.
    replace (Z.to_nat j - List.length (entities m)) with 0 by lia. reflexivity.
  - destruct (Z.leb_spec 0 j) as [H0|H0]; cbn [andb]; [|reflexivity].
    destruct (Z.ltb_spec j (Z.of_nat (List.length (entities m)))) as [Hl|Hl].
    + replace (j <? Z.of_nat (List.length (entities m) + 1))%Z with true
        by (symmetry; apply Z.ltb_lt; lia).
      apply nth_error_app1. lia.
    + replace (j <? Z.of_nat (List.length (entities m) + 1))%Z with false
        by (symmetry; apply Z.ltb_ge; lia).
      reflexivity.
Qed.

(** X3. Removing a newly added entity at the index [add_entity] returned
    gives the document back. *)
Theorem add_then_remove_entity (m : MapFile) (e : Entity) :
  MapFile_remove_entity (fst (MapFile_add_entity m e)) (snd (MapFile_add_entity m e))
  = (m, true).
Proof.
  unfold MapFile_remove_entity, MapFile_add_entity. cbn [fst snd entities].
  rewrite length_app. cbn [List.length].
  replace ((0 <=? Z.of_nat (List.length (entities m) + 1) - 1)%Z
           && (Z.of_nat (List.length (entities m) + 1) - 1
               <? Z.of_nat (List.length (entities m) + 1))%Z) with true
    by (symmetry; apply andb_true_iff; split; [apply Z.leb_le | apply Z.ltb_lt]; lia).
  replace (Z.to_nat (Z.of_nat (List.length (entities m) + 1) - 1))
    with (List.length (entities m)) by lia.
  rewrite firstn_app, Nat.sub_diag, firstn_all. cbn [firstn].
  rewrite skipn_all2 by (rewrite length_app; simpl; lia).
  rewrite !app_nil_r. destruct m. reflexivity.
Qed.

Lemma find_entities_filter (c k v : option str) (es acc : list Entity) :
  fold_left (fun results entity =>
               if entity_matches c k v entity then results ++ [entity] else results)
            es acc
  = acc ++ filter (entity_matches c k v) es.
Proof.
  revert acc. induction es as [|e es IH]; intro acc; cbn [fold_left filter].
  - rewrite app_nil_r. reflexivity.
  - rewrite IH. destruct (entity_matches c k v e); [|reflexivity].
    rewrite <- app_assoc. reflexivity.
Qed.

(** What the three criteria of [find_entities] ask of an entity.  A
    criterion that is [None] or the empty string asks nothing, and a
    property value without a property key asks nothing either. *)
Definition meets_criteria (c k v : option str) (e : Entity) : Prop :=
  (given c = true -> classname e = or_empty c)
  /\ (given k = true ->
      exists value, dict_get (properties e) (or_empty k) = Some value
                    /\ (given v = true -> value = or_empty v)).

Lemma entity_matches_meets (c k v : option str) (e : Entity) :
  entity_matches c k v e = true <-> meets_criteria c k v e.
Proof.
  unfold entity_matches, meets_criteria. cbv zeta.
  destruct (given c) eqn:Gc; cbn [andb];
    [destruct (str_eqb (classname e) (or_empty c)) eqn:Ec; cbn [negb];
     [apply str_eqb_eq in Ec | apply str_eqb_neq in Ec]|];
    (destruct (given k) eqn:Gk;
     [destruct (dict_get (properties e) (or_empty k)) as [value|] eqn:D;
      [destruct (given v) eqn:Gv; cbn [andb];
       [destruct (str_eqb value (or_empty v)) eqn:Ev; cbn [negb];
        [apply str_eqb_eq in Ev | apply str_eqb_neq in Ev]|]|]|]);
    (split;
     [ intro H; try discriminate H;
       (split; intro G; try discriminate G; try assumption;
        try (exists value; split; [reflexivity|]; intro G'; try discriminate G'; assumption))
     | intros [H1 H2]; try reflexivity; exfalso;
       try (apply Ec; apply H1; reflexivity);
       try (destruct (H2 eq_refl) as [value' [D' H3]]; try discriminate D';
            inversion D'; subst value'; apply Ev; apply H3; reflexivity) ]).
Qed.

(** X4. [find_entities] returns, in document order, exactly the entities
    that meet the criteria: an entity is in the result if and only if it is
    in the document, its classname is the one asked for (when a non-empty one
    is given) and, when a non-empty property key is given, it has that
    property, with the value asked for when a non-empty one is given. *)
Theorem find_entities_returns_the_matching_entities
        (m : MapFile) (c k v : option str) :
  MapFile_find_entities m c k v = filter (entity_matches c k v) (entities m)
  /\ forall e, In e (MapFile_find_entities m c k v)
               <-> In e (entities m) /\ meets_criteria c k v e.
Proof.
  assert (E : MapFile_find_entities m c k v = filter (entity_matches c k v) (entities m)).
  { unfold MapFile_find_entities. rewrite find_entities_filter. reflexivity. }
  split; [exact E|]. intro e. rewrite E, filter_In, entity_matches_meets. reflexivity.
Qed.

(** X5. Criteria that are absent or empty select nothing: with no classname
    and no property key, or with empty strings for them, [find_entities]
    returns every entity of the document, whatever property value is given. *)
Theorem find_entities_without_criteria (m : MapFile) (c k v : option str) :
  given c = false -> given k = false ->
  MapFile_find_entities m c k v = entities m.
Proof.
  intros Hc Hk. unfold MapFile_find_entities. rewrite find_entities_filter. cbn [app].
  induction (entities m) as [|e es IH]; [reflexivity|].
  cbn [filter]. unfold entity_matches at 1. rewrite Hc, Hk. cbn [andb].
  rewrite IH. reflexivity.
Qed.

Lemma find_entities_without_criteria_witness :
  MapFile_find_entities sample_map (Some []) None (Some (lit "x")) = entities sample_map.
Proof. apply find_entities_without_criteria; reflexivity. Defined.

(** The test [worldspawn] makes of an entity. *)
Definition world_like (e : Entity) : Prop :=
  classname e = lit "worldspawn" \/ brushes e <> [].

Lemma world_like_test (e : Entity) :
  str_eqb (classname e) (lit "worldspawn")
  || match brushes e with [] => false | _ => true end = true
  <-> world_like e.
Proof.
  unfold world_like. rewrite orb_true_iff, str_eqb_eq.
  destruct (brushes e) as [|b bs]; split; intros [H|H];
    first [ left; exact H
          | discriminate H
          | exfalso; apply H; reflexivity
          | right; discriminate
          | right; reflexivity ].
Qed.

(** X6. [worldspawn] returns the first entity that is named [worldspawn] or
    owns a brush, whichever comes first in the document, and [None] exactly
    when no entity is either. *)
Theorem worldspawn_is_the_first_world_like_entity (m : MapFile) :
  match MapFile_worldspawn m with
  | Some e =>
      exists before after,
        entities m = before ++ e :: after
        /\ world_like e
        /\ Forall (fun e' => ~ world_like e') before
  | None => Forall (fun e' => ~ world_like e') (entities m)
  end.
Proof.
  unfold MapFile_worldspawn. induction (entities m) as [|e es IH]; cbn [find].
  - constructor.
  - destruct (str_eqb (classname e) (lit "worldspawn")
              || match brushes e with [] => false | _ => true end) eqn:T.
    + exists [], es. split; [reflexivity|]. split; [apply world_like_test; exact T|].
      constructor.
    + assert (N : ~ world_like e).
      { intro W. apply world_like_test in W. congruence. }
      destruct (find _ es) as [e1|].
      * destruct IH as [before [after [E [W F]]]].
        exists (e :: before), after. rewrite E. split; [reflexivity|].
        split; [exact W|]. constructor; assumption.
      * constructor; assumption.
Qed.

(** ** Vectors *)

(** X7. [from_list] reads back what [to_list] gives and ignores whatever
    follows the third item; a list with fewer than three items is filled up
    with zeros. *)
Theorem from_list_of_to_list (v : Vec3) (rest : list float) (a b : float) :
  Vec3_from_list (Vec3_to_list v ++ rest) = v
  /\ Vec3_from_list [] = Vec3_zero
  /\ Vec3_from_list [a] = {| x := a; y := PyFloat.zero; z := PyFloat.zero |}
  /\ Vec3_from_list [a; b] = {| x := a; y := b; z := PyFloat.zero |}.
Proof. destruct v. repeat split. Qed.

(** ** Entities *)

Lemma Face_copy_same (f : Face) : Face_copy f = f.
Proof. destruct f as [[] [] [] t ou ov r su sv]. reflexivity. Qed.

Lemma Brush_copy_same (b : Brush) : Brush_copy b = b.
Proof.
  destruct b as [fs]. unfold Brush_copy. cbn [faces]. f_equal.
  induction fs as [|f fs IH]; [reflexivity|]. cbn [map]. rewrite Face_copy_same, IH. reflexivity.
Qed.

Lemma Entity_copy_post_init (e : Entity) : Entity_copy e = Entity_post_init e.
Proof.
  unfold Entity_copy, Entity_init.
  replace (map Brush_copy (brushes e)) with (brushes e).
  - destruct e. reflexivity.
  - induction (brushes e) as [|b bs IH]; [reflexivity|].
    cbn [map]. rewrite Brush_copy_same, <- IH. reflexivity.
Qed.

Lemma dict_set_present (d : dict) (k v : str) :
  dict_get d k = Some v -> dict_set d k v = d.
Proof.
  induction d as [|[k' v'] d IH]; [discriminate|].
  cbn [dict_get dict_set]. destruct (str_eqb k' k).
  - intro H. inversion H. reflexivity.
  - intro H. rewrite (IH H). reflexivity.
Qed.

(** X8. [copy] runs [__post_init__] again: the copy of an entity with a
    non-empty classname has that classname as its ["classname"] property,
    whatever the original had; an entity whose classname is empty or agrees
    with the property is copied as it is; and copying a copy changes nothing. *)
Theorem copy_restores_classname_property (e : Entity) :
  (classname e <> [] -> classname_agrees (Entity_copy e))
  /\ (classname e = [] \/ classname_agrees e -> Entity_copy e = e)
  /\ Entity_copy (Entity_copy e) = Entity_copy e
  /\ classname (Entity_copy e) = classname e
  /\ brushes (Entity_copy e) = brushes e.
Proof.
  rewrite !Entity_copy_post_init. unfold Entity_post_init, classname_agrees.
  destruct (classname e) as [|c cs] eqn:C; cbn [truthy].
  - rewrite C. cbn [truthy]. repeat split; try assumption.
    intro H. contradiction.
  - cbn [classname properties brushes truthy]. split; [|split; [|split; [|split]]].
    + intros _. apply dict_get_set_same.
    + intros [H|H]; [discriminate H|].
      rewrite (dict_set_present _ _ _ H). destruct e. cbn in *. subst. reflexivity.
    + rewrite (dict_set_present _ _ _ (dict_get_set_same _ _ _)). reflexivity.
    + reflexivity.
    + reflexivity.
Qed.

Lemma copy_restores_classname_property_witness :
  classname_agrees
    (Entity_copy (Entity_assign_classname (Entity_init (lit "light") [] []) (lit "monster")))
  /\ Entity_copy (Entity_init (lit "light") [] []) = Entity_init (lit "light") [] [].
Proof.
  split.
  - apply (proj1 (copy_restores_classname_property _)). discriminate.
  - apply (proj1 (proj2 (copy_restores_classname_property _))). right. reflexivity.
Defined.

(** X9. A property that was set is the one [get_property] finds, default
    or not, and setting it leaves every other key as it was. *)
Theorem get_property_after_set_property (e : Entity) (k v k' : str) (default : option str) :
  Entity_get_property (Entity_set_property e k v) k' default
  = if str_eqb k k' then Some v else Entity_get_property e k' default.
Proof.
  unfold Entity_get_property, Entity_set_property. cbn [properties].
  destruct (str_eqb k k') eqn:E.
  - apply str_eqb_eq in E. subst k'. rewrite dict_get_set_same. reflexivity.
  - rewrite (dict_get_set_other _ _ _ _ E). reflexivity.
Qed.

Lemma dict_set_keys (d : dict) (k v : str) :
  map fst (dict_set d k v) = if has_key d k then map fst d else map fst d ++ [k].
Proof.
  unfold has_key. induction d as [|[k' v'] d IH]; [reflexivity|].
  cbn [dict_set dict_get]. destruct (str_eqb k' k) eqn:E; [reflexivity|].
  cbn [map fst]. rewrite IH. destruct (dict_get d k); reflexivity.
Qed.

(** X10. [set_property] keeps the order in which the writer lists the
    properties: a key the entity has keeps its place, a new key goes last. *)
Theorem set_property_keeps_key_order (e : Entity) (k v : str) :
  map fst (properties (Entity_set_property e k v))
  = if has_key (properties e) k then map fst (properties e)
    else map fst (properties e) ++ [k].
Proof. unfold Entity_set_property. cbn [properties]. apply dict_set_keys. Qed.

(** ** Bounding boxes *)

Lemma map_not_nil {A B : Type} (f : A -> B) (l : list A) : l <> [] -> map f l <> [].
Proof. intro H. destruct l; [contradiction | discriminate]. Qed.

Lemma box_returns (lo hi : list Vec3) :
  lo <> [] -> hi <> [] ->
  exists b,
    (min_x <- py_min (map x lo) ;; min_y <- py_min (map y lo) ;;
     min_z <- py_min (map z lo) ;; max_x <- py_max (map x hi) ;;
     max_y <- py_max (map y hi) ;; max_z <- py_max (map z hi) ;;
     Ok (Some ({| x := min_x; y := min_y; z := min_z |},
               {| x := max_x; y := max_y; z := max_z |})))
    = Ok (Some b).
Proof.
  intros Hlo Hhi.
  destruct lo as [|l lo]; [contradiction|]. destruct hi as [|h hi]; [contradiction|].
  cbn [map py_min py_max bind]. eauto.
Qed.

Lemma Brush_bounds_pair (b : Brush) : exists p, Brush_bounds b = Ok p.
Proof. destruct (Brush_bounds_returns b) as [lo [hi E]]. exists (lo, hi). exact E. Qed.

Lemma Entity_bounds_total (e : Entity) :
  exists r, Entity_bounds e = Ok r /\ (r = None <-> brushes e = []).
Proof.
  unfold Entity_bounds. destruct (brushes e) as [|b bs] eqn:B.
  - exists None. repeat split.
  - destruct (map_result_total Brush_bounds (b :: bs) Brush_bounds_pair) as [bb [E L]].
    rewrite E. cbn [bind].
    assert (N : bb <> []) by (destruct bb; [discriminate L | discriminate]).
    destruct (box_returns (map fst bb) (map snd bb)
                          (map_not_nil _ _ N) (map_not_nil _ _ N)) as [r Er].
    rewrite !map_map in Er. rewrite !map_map. rewrite Er.
    exists (Some r). split; [reflexivity|]. split; discriminate.
Qed.

(** X11. [Entity.bounds] never raises.  It is [None] exactly when the entity
    has no brushes, and for an entity with one brush it is the bounds of
    that brush -- the zero box for a brush without faces. *)
Theorem entity_bounds_returns (e : Entity) :
  (exists r, Entity_bounds e = Ok r /\ (r = None <-> brushes e = []))
  /\ (forall b lo hi, brushes e = [b] -> Brush_bounds b = Ok (lo, hi) ->
                      Entity_bounds e = Ok (Some (lo, hi))).
Proof.
  split; [apply Entity_bounds_total|].
  intros b lo hi B E. unfold Entity_bounds. rewrite B.
  cbn [map_result]. rewrite E. cbn [bind map fst snd py_min py_max fold_left].
  destruct lo, hi. reflexivity.
Qed.

Lemma entity_bounds_returns_witness :
  Entity_bounds {| classname := []; properties := []; brushes := [{| faces := [] |}] |}
  = Ok (Some (Vec3_zero, Vec3_zero)).
Proof.
  apply (proj2 (entity_bounds_returns _) {| faces := [] |}); reflexivity.
Defined.

Lemma collect_bounds_returns (es : list Entity) :
  exists l, collect_bounds es = Ok l
            /\ (l = [] <-> Forall (fun e => brushes e = []) es).
Proof.
  induction es as [|e es [l [E H]]]; cbn [collect_bounds].
  - exists []. split; [reflexivity|]. split; [constructor | reflexivity].
  - destruct (Entity_bounds_total e) as [r [Er Hr]].
    rewrite Er, E. cbn [bind]. destruct r as [b|].
    + exists (b :: l). split; [reflexivity|]. split; [discriminate|].
      intro F. inversion F as [|? ? F1 F2]; subst.
      apply Hr in F1. discriminate F1.
    + exists l. split; [reflexivity|]. split.
      * intro N. constructor; [apply Hr; reflexivity | apply H; exact N].
      * intro F. inversion F; subst. apply H. assumption.
Qed.

(** X12. [MapFile.bounds] never raises, and it is [None] exactly when no
    entity of the document has a brush. *)
Theorem document_bounds_returns (m : MapFile) :
  exists r, MapFile_bounds m = Ok r
            /\ (r = None <-> Forall (fun e => brushes e = []) (entities m)).
Proof.
  unfold MapFile_bounds. destruct (entities m) as [|e es] eqn:B.
  - exists None. repeat split. constructor.
  - destruct (collect_bounds_returns (e :: es)) as [l [E H]]. rewrite E. cbn [bind].
    destruct l as [|b l].
    + exists None. split; [reflexivity|]. split; [intros _; apply H; reflexivity | reflexivity].
    + destruct (box_returns (map fst (b :: l)) (map snd (b :: l))
                            ltac:(discriminate) ltac:(discriminate)) as [r Er].
      rewrite !map_map in Er. rewrite Er.
      exists (Some r). split; [reflexivity|]. split; [discriminate|].
      intro F. apply H in F. discriminate F.
Qed.

(** X13. [length], [distance] and [normalized] never raise: the argument of
    the square root is never negative, and [normalized] divides by a length
    that is not zero.  A vector of zeros is normalized to the zero vector. *)
Theorem vector_length_and_normalized_return (v w : Vec3) :
  (exists l, Vec3_length v = Ok l)
  /\ (exists d, Vec3_distance v w = Ok d)
  /\ (exists n, Vec3_normalized v = Ok n)
  /\ (PyFloat.is_zero (x v) = true -> PyFloat.is_zero (y v) = true ->
      PyFloat.is_zero (z v) = true -> Vec3_normalized v = Ok Vec3_zero).
Proof.
  split; [apply Vec3_length_total|]. split; [apply Vec3_length_total|].
  split; [apply Vec3_normalized_total|]. apply Vec3_normalized_of_zeros.
Qed.

Lemma vector_length_and_normalized_witness :
  Vec3_normalized Vec3_zero = Ok Vec3_zero.
Proof.
  apply (proj2 (proj2 (proj2 (vector_length_and_normalized_return Vec3_zero Vec3_zero))));
    reflexivity.
Defined.

(** ** The parser *)

(** X15. A source of whitespace and comments only, the empty source among
    them, parses to the document without entities. *)
Theorem insignificant_source_parses_to_empty_document (t : str) :
  insignificant t -> parse_map t = Ok {| entities := [] |}.
Proof.
  intro Ht. unfold parse_map, MapParser_parse. cbv zeta.
  pose proof (splits_init t) as S0.
  rewrite <- (app_nil_r t) in S0 at 2.
  pose proof (@skip_insignificant_run _ [] t [] Ht I S0) as S1.
  apply (@parse_loop_stop _ _ _ _ S1).
Qed.

Lemma insignificant_source_witness :
  parse_map (lit "  // nothing here" ++ [NL]) = Ok {| entities := [] |}.
Proof.
  apply insignificant_source_parses_to_empty_document.
  do 2 (apply insignificant_space; [reflexivity|]).
  apply (@insignificant_comment (lit " nothing here") NL []);
    [repeat constructor | reflexivity | apply insignificant_nil].
Defined.










(** In a parsed entity the classname field is the value of the
    ["classname"] property, and empty when there is none. *)
Definition classname_mirrors (e : Entity) : Prop :=
  classname e = match dict_get (properties e) (lit "classname") with
                | Some v => v
                | None => []
                end.

Lemma set_property_mirrors (e : Entity) (k v : str) :
  classname_mirrors e -> classname_mirrors (Entity_set_property e k v).
Proof.
  unfold classname_mirrors, Entity_set_property. cbn [classname properties]. intro H.
  destruct (str_eqb k (lit "classname")) eqn:E.
  - apply str_eqb_eq in E. subst k. rewrite dict_get_set_same. reflexivity.
  - rewrite (dict_get_set_other _ _ _ _ E). exact H.
Qed.

Lemma parse_properties_loop_mirrors (fuel : nat) :
  forall (entity e' : Entity) (p p' : Parser),
    parse_properties_loop fuel entity p = Ok (e', p') ->
    classname_mirrors entity -> classname_mirrors e'.
Proof.
  induction fuel as [|fuel IH]; intros entity e' p p'; cbn [parse_properties_loop];
    destruct (in_source p && ascii_eqb (_peek p) QUOTE); try discriminate;
    try (intros H Hc; inversion H; subst; exact Hc).
  destruct (_parse_property p) as [[[k v] p1]|] eqn:E1; cbn [bind]; [|discriminate].
  intros H Hc. apply IH in H; [exact H|]. apply set_property_mirrors. exact Hc.
Qed.

Lemma parse_brushes_loop_classname (fuel : nat) :
  forall (entity e' : Entity) (p p' : Parser),
    parse_brushes_loop fuel entity p = Ok (e', p') -> classname e' = classname entity.
Proof.
  induction fuel as [|fuel IH]; intros entity e' p p'; cbn [parse_brushes_loop];
    destruct (in_source p && ascii_eqb (_peek p) "{"%char); try discriminate;
    try (intros H; inversion H; subst; reflexivity).
  destruct (_parse_brush p) as [[b p1]|] eqn:E1; cbn [bind]; [|discriminate].
  intros H. apply IH in H. exact H.
Qed.

Lemma parse_entity_mirrors (p p' : Parser) (e : Entity) :
  _parse_entity p = Ok (e, p') -> classname_mirrors e.
Proof.
  unfold _parse_entity.
  destruct (_expect "{"%char p) as [[u p1]|]; cbn [bind]; [|discriminate].
  destruct (parse_properties_loop _ _ _) as [[e1 p2]|] eqn:E1; cbn [bind]; [|discriminate].
  destruct (parse_brushes_loop _ _ _) as [[e2 p3]|] eqn:E2; cbn [bind]; [|discriminate].
  destruct (_expect "}"%char p3) as [[u' p4]|]; cbn [bind]; [|discriminate].
  intro H. inversion H; subst.
  apply parse_properties_loop_mirrors in E1; [|reflexivity].
  unfold classname_mirrors in *.
  rewrite (parse_brushes_loop_classname _ _ _ _ _ E2),
          (parse_brushes_loop_properties _ _ _ _ _ E2).
  exact E1.
Qed.

Lemma parse_loop_mirrors (fuel : nat) :
  forall (m m' : MapFile) (p : Parser),
    parse_loop fuel m p = Ok m' ->
    Forall classname_mirrors (entities m) -> Forall classname_mirrors (entities m').
Proof.
  induction fuel as [|fuel IH]; intros m m' p; cbn [parse_loop];
    destruct (in_source p); try discriminate;
    try (intros H Hc; inversion H; subst; exact Hc).
  destruct (plen _ <=? pos _); [intros H Hc; inversion H; subst; exact Hc|].
  destruct (ascii_eqb _ _); [|discriminate].
  destruct (_parse_entity _) as [[e p1]|] eqn:E1; cbn [bind]; [|discriminate].
  intros H Hc. apply IH in H; [exact H|].
  cbn [MapFile_add_entity fst entities]. apply Forall_app. split; [exact Hc|].
  constructor; [|constructor]. exact (parse_entity_mirrors _ _ _ E1).
Qed.

(** X17. In every entity of a parsed document the classname field mirrors
    the property map: it is the value of the ["classname"] property, the
    last one read when the text gives several, and the empty string when the
    entity has none. *)
Theorem parsed_classname_mirrors_property (s : str) (m : MapFile) :
  parse_map s = Ok m -> Forall classname_mirrors (entities m).
Proof.
  unfold parse_map, MapParser_parse. intro H.
  apply parse_loop_mirrors in H; [exact H | constructor].
Qed.

Lemma parsed_classname_mirrors_property_witness :
  Forall classname_mirrors (entities sample_document_parsed).
Proof.
  apply (parsed_classname_mirrors_property (write_map_to_string sample_document)).
  vm_compute. reflexivity.
Defined.

Lemma no_quote_not_in (s : str) : no_quote s = true -> ~ In QUOTE s.
Proof.
  unfold no_quote. intros H Hin. rewrite forallb_forall in H.
  specialize (H _ Hin). rewrite ascii_eqb_refl in H. discriminate H.
Qed.

(** X18. No property key or value of a parsed document holds a double
    quote: a quoted string ends at the first one, and the parser knows no
    escape. *)
Theorem parsed_properties_hold_no_quote (s : str) (m : MapFile) (e : Entity) (k v : str) :
  parse_map s = Ok m -> In e (entities m) -> In (k, v) (properties e) ->
  ~ In QUOTE k /\ ~ In QUOTE v.
Proof.
  intros Hp He Hkv. pose proof (parse_map_clean _ _ Hp) as C.
  rewrite forallb_forall in C. specialize (C _ He).
  unfold props_clean in C. apply andb_true_iff in C. destruct C as [C _].
  rewrite forallb_forall in C. specialize (C _ Hkv).
  unfold prop_ready in C. cbn [fst snd] in C. apply andb_true_iff in C.
  destruct C as [Ck Cv]. split; apply no_quote_not_in; assumption.
Qed.

Lemma parsed_properties_hold_no_quote_witness :
  ~ In QUOTE (lit "wad") /\ ~ In QUOTE (lit "base.wad").
Proof.
  apply (parsed_properties_hold_no_quote
           (lit "{ " ++ quoted (lit "wad") ++ lit " " ++ quoted (lit "base.wad") ++ lit " }")
           {| entities := [{| classname := []; properties := [(lit "wad", lit "base.wad")];
                              brushes := [] |}] |}
           {| classname := []; properties := [(lit "wad", lit "base.wad")]; brushes := [] |}).
  - vm_compute. reflexivity.
  - left. reflexivity.
  - left. reflexivity.
Defined.

(** ** Writing and reading back *)

(** What the parser reads where the writer wrote the number [v]:
    [float(format_float(v))]. *)
Definition reread_number (v : float) : float :=
  match PyFloat.of_str (format_float v) with
  | Some w => w
  | None => v
  end.

Definition reread_point (v : Vec3) : Vec3 :=
  {| x := reread_number (x v); y := reread_number (y v); z := reread_number (z v) |}.

Definition reread_face (f : Face) : Face :=
  {| point1 := reread_point (point1 f);
     point2 := reread_point (point2 f);
     point3 := reread_point (point3 f);
     texture := texture f;
     offset_u := reread_number (offset_u f);
     offset_v := reread_number (offset_v f);
     rotation := reread_number (rotation f);
     scale_u := reread_number (scale_u f);
     scale_v := reread_number (scale_v f) |}.

Definition reread_brush (b : Brush) : Brush := {| faces := map reread_face (faces b) |}.

(** The classname of the entity read back is the ["classname"] property. *)
Definition reread_entity (e : Entity) : Entity :=
  {| classname := match dict_get (properties e) (lit "classname") with
                  | Some v => v
                  | None => []
                  end;
     properties := properties e;
     brushes := map reread_brush (brushes e) |}.

Definition reread_document (m : MapFile) : MapFile :=
  {| entities := map reread_entity (entities m) |}.

Lemma parse_float_token_exact (message : str -> parse_msg) (p : Parser) (v : float) (b : str) :
  stable_number v = true -> stops bare_char b -> ahead p (format_float v ++ b) ->
  exists p', parse_float_token message p = Ok (reread_number v, p') /\ ahead p' b.
Proof.
  intros Hv Hb H. unfold parse_float_token.
  destruct (parse_token_bare p (format_float v) b (format_float_bare v) Hb H) as [p' [E H']].
  rewrite E. cbn [bind]. unfold stable_number in Hv. unfold reread_number.
  destruct (PyFloat.of_str (format_float v)) as [w|]; [|discriminate Hv].
  exists p'. split; [reflexivity | exact H'].
Qed.

Lemma parse_point_exact (p : Parser) (v : Vec3) (b : str) :
  stable_point v = true -> ahead p (write_point v ++ b) ->
  exists p', _parse_point p = Ok (reread_point v, p') /\ ahead p' b.
Proof.
  intros Hv H. rewrite write_point_app in H.
  apply andb_true_iff in Hv. destruct Hv as [Hv Hz].
  apply andb_true_iff in Hv. destruct Hv as [Hx Hy].
  unfold _parse_point.
  destruct (ahead_expect _ _ _ H) as [E0 H0]. rewrite E0. cbn [bind]. clear E0.
  apply skip_space_before in H0; [|apply stops_blank_bare; apply format_float_bare].
  destruct (parse_float_token_exact InvalidCoordinate _ _ _ Hx (stops_space _) H0) as [p1 [E1 H1]].
  rewrite E1. cbn [bind]. clear E1.
  apply skip_space_before in H1; [|apply stops_blank_bare; apply format_float_bare].
  destruct (parse_float_token_exact InvalidCoordinate _ _ _ Hy (stops_space _) H1) as [p2 [E2 H2]].
  rewrite E2. cbn [bind]. clear E2.
  apply skip_space_before in H2; [|apply stops_blank_bare; apply format_float_bare].
  destruct (parse_float_token_exact InvalidCoordinate _ _ _ Hz (stops_space _) H2) as [p3 [E3 H3]].
  rewrite E3. cbn [bind]. clear E3.
  apply skip_space_before in H3; [|reflexivity].
  destruct (ahead_expect _ _ _ H3) as [E4 H4]. rewrite E4. cbn [bind].
  eexists. split; [reflexivity | exact H4].
Qed.

Lemma parse_face_exact (p : Parser) (f : Face) (b : str) :
  face_ready f = true -> stops bare_char b -> ahead p (write_face f ++ b) ->
  exists p', _parse_face p = Ok (reread_face f, p') /\ ahead p' b.
Proof.
  intros Hf Hb H. rewrite write_face_app in H. unfold face_ready in Hf.
  do 8 (apply andb_true_iff in Hf; let K := fresh "K" in destruct Hf as [Hf K]).
  unfold _parse_face.
  destruct (parse_point_exact _ _ _ Hf H) as [s1 [E1 H1]].
  rewrite E1. cbn [bind]. clear E1.
  apply skip_space_before in H1; [|apply stops_blank_point].
  destruct (parse_point_exact _ _ _ K6 H1) as [s2 [E2 H2]].
  rewrite E2. cbn [bind]. clear E2.
  apply skip_space_before in H2; [|apply stops_blank_point].
  destruct (parse_point_exact _ _ _ K5 H2) as [s3 [E3 H3]].
  rewrite E3. cbn [bind]. clear E3.
  apply skip_space_before in H3; [|apply stops_blank_bare; exact K4].
  destruct (parse_token_bare _ _ _ K4 (stops_space _) H3) as [s4 [E4 H4]].
  rewrite E4. cbn [bind]. clear E4.
  apply skip_space_before in H4; [|apply stops_blank_bare; apply format_float_bare].
  destruct (parse_float_token_exact InvalidNumericValue _ _ _ K3 (stops_space _) H4)
    as [s5 [E5 H5]].
  rewrite E5. cbn [bind]. clear E5.
  apply skip_space_before in H5; [|apply stops_blank_bare; apply format_float_bare].
  destruct (parse_float_token_exact InvalidNumericValue _ _ _ K2 (stops_space _) H5)
    as [s6 [E6 H6]].
  rewrite E6. cbn [bind]. clear E6.
  apply skip_space_before in H6; [|apply stops_blank_bare; apply format_float_bare].
  destruct (parse_float_token_exact InvalidNumericValue _ _ _ K1 (stops_space _) H6)
    as [s7 [E7 H7]].
  rewrite E7. cbn [bind]. clear E7.
  apply skip_space_before in H7; [|apply stops_blank_bare; apply format_float_bare].
  destruct (parse_float_token_exact InvalidNumericValue _ _ _ K0 (stops_space _) H7)
    as [s8 [E8 H8]].
  rewrite E8. cbn [bind]. clear E8.
  apply skip_space_before in H8; [|apply stops_blank_bare; apply format_float_bare].
  destruct (parse_float_token_exact InvalidNumericValue _ _ _ K Hb H8) as [s9 [E9 H9]].
  rewrite E9. cbn [bind]. clear E9.
  eexists. split; [reflexivity | exact H9].
Qed.

Lemma parse_faces_loop_exact (fs : list Face) :
  forall (fuel : nat) (acc : Brush) (p : Parser) (rest : str),
    forallb face_ready fs = true -> List.length fs <= fuel ->
    ahead p (faces_text fs ++ NL :: IND4 ++ "}"%char :: rest) ->
    exists p',
      parse_faces_loop fuel acc (_skip_whitespace_and_comments p)
      = Ok ({| faces := faces acc ++ map reread_face fs |}, p')
      /\ ahead p' ("}"%char :: rest).
Proof.
  induction fs as [|f fs IH]; intros fuel acc p rest Hr Hfuel H.
  - cbn [faces_text flat_map app] in H.
    apply (ahead_skip_whitespace_and_comments p (NL :: IND4) ("}"%char :: rest)
             NL_IND4_space eq_refl) in H.
    exists (_skip_whitespace_and_comments p).
    rewrite parse_faces_loop_stop
      by (rewrite (ahead_peek _ _ _ H); apply andb_false_r).
    cbn [map]. rewrite app_nil_r. destruct acc. split; [reflexivity | exact H].
  - cbn [forallb] in Hr. apply andb_true_iff in Hr. destruct Hr as [Hf Hr].
    destruct fuel as [|fuel]; [simpl in Hfuel; lia|].
    rewrite faces_text_cons in H.
    destruct (skip_to_face p _ f _ NL_IND8_space H) as [Hq [Hc _]].
    cbn [parse_faces_loop]. rewrite Hc.
    destruct (parse_face_exact _ f _ Hf (stops_after_face fs _) Hq) as [p1 [E1 H1]].
    rewrite E1. cbn [bind].
    destruct (IH fuel {| faces := faces acc ++ [reread_face f] |} p1 rest Hr
                 ltac:(simpl in Hfuel; lia) H1) as [p' [E2 H2]].
    exists p'. rewrite E2. cbn [faces map]. rewrite <- app_assoc.
    split; [reflexivity | exact H2].
Qed.

Lemma parse_brush_exact (p : Parser) (b : Brush) (rest : str) :
  brush_ready b = true ->
  ahead p ("{"%char :: faces_text (faces b) ++ NL :: IND4 ++ "}"%char :: rest) ->
  exists p', _parse_brush p = Ok (reread_brush b, p') /\ ahead p' rest.
Proof.
  intros Hb H. unfold _parse_brush.
  destruct (ahead_expect _ _ _ H) as [E0 H0]. rewrite E0. cbn [bind]. clear E0.
  set (p1 := snd (_advance p)) in *.
  assert (Hfuel : List.length (faces b)
                  <= plen (_skip_whitespace_and_comments p1) - pos (_skip_whitespace_and_comments p1)).
  { destruct (faces b) as [|f fs] eqn:E; [simpl; lia|].
    pose proof H0 as H0'. rewrite faces_text_cons in H0'.
    destruct (skip_to_face p1 _ f _ NL_IND8_space H0') as [_ [_ L]].
    rewrite length_app in L. pose proof (faces_text_length fs). simpl. lia. }
  destruct (parse_faces_loop_exact (faces b) _ {| faces := [] |} p1 rest Hb Hfuel H0)
    as [p2 [E2 H2]].
  rewrite E2. cbn [bind].
  destruct (ahead_expect _ _ _ H2) as [E3 H3]. rewrite E3. cbn [bind].
  eexists. split; [reflexivity | exact H3].
Qed.

Lemma parse_brushes_loop_exact (bs : list Brush) :
  forall (fuel : nat) (entity : Entity) (p : Parser) (rest : str),
    forallb brush_ready bs = true -> List.length bs <= fuel ->
    ahead p (brushes_text bs ++ NL :: "}"%char :: rest) ->
    exists p',
      parse_brushes_loop fuel entity (_skip_whitespace_and_comments p)
      = Ok (with_brushes entity (map reread_brush bs), p')
      /\ ahead p' ("}"%char :: rest).
Proof.
  induction bs as [|b bs IH]; intros fuel entity p rest Hr Hfuel H.
  - cbn [brushes_text flat_map app] in H.
    apply (ahead_skip_whitespace_and_comments p [NL] ("}"%char :: rest)) in H;
      [|repeat constructor | reflexivity].
    exists (_skip_whitespace_and_comments p).
    rewrite parse_brushes_loop_stop
      by (rewrite (ahead_peek _ _ _ H); apply andb_false_r).
    unfold with_brushes. cbn [map]. rewrite app_nil_r. destruct entity.
    split; [reflexivity | exact H].
  - cbn [forallb] in Hr. apply andb_true_iff in Hr. destruct Hr as [Hb Hr].
    destruct fuel as [|fuel]; [simpl in Hfuel; lia|].
    rewrite brushes_text_cons in H.
    apply (ahead_skip_whitespace_and_comments p (NL :: IND4)
             (brush_body b (brushes_text bs ++ NL :: "}"%char :: rest))
             NL_IND4_space eq_refl) in H.
    cbn [parse_brushes_loop].
    pose proof H as H'. unfold brush_body in H'.
    rewrite (ahead_in_source _ _ _ H'), (ahead_peek _ _ _ H'). cbn [andb].
    rewrite ascii_eqb_refl.
    destruct (parse_brush_exact _ b _ Hb H) as [p1 [E1 H1]].
    rewrite E1. cbn [bind].
    destruct (IH fuel (Entity_append_brush entity (reread_brush b)) p1 rest Hr
                 ltac:(simpl in Hfuel; lia) H1) as [p' [E2 H2]].
    exists p'. rewrite E2. unfold with_brushes, Entity_append_brush.
    cbn [classname properties brushes map]. rewrite <- app_assoc.
    split; [reflexivity | exact H2].
Qed.

Lemma set_properties_mirrors (ps : dict) :
  forall entity, classname_mirrors entity -> classname_mirrors (set_properties ps entity).
Proof.
  induction ps as [|[k v] ps IH]; intros entity H; [exact H|].
  unfold set_properties. cbn [fold_left fst snd].
  apply IH. apply set_property_mirrors. exact H.
Qed.

Lemma parse_entity_exact (p : Parser) (e : Entity) (i : nat) (rest : str) :
  entity_ready e = true -> ahead p (write_entity e i ++ rest) ->
  exists p', _parse_entity p = Ok (reread_entity e, p') /\ ahead p' rest.
Proof.
  intros He H. unfold entity_ready in He.
  apply andb_true_iff in He. destruct He as [He Hbs].
  apply andb_true_iff in He. destruct He as [Hps Hu].
  rewrite (write_entity_app e i rest Hps) in H.
  unfold _parse_entity.
  destruct (ahead_expect _ _ _ H) as [E0 H0]. rewrite E0. cbn [bind]. clear E0.
  set (p1 := snd (_advance p)) in *.
  set (R := brushes_text (brushes e) ++ NL :: "}"%char :: rest) in *.
  assert (F1 : List.length (properties e)
               <= plen (_skip_whitespace_and_comments p1) - pos (_skip_whitespace_and_comments p1)).
  { destruct (properties e) as [|kv ps] eqn:E; [simpl; lia|].
    pose proof H0 as H0'. rewrite props_text_cons in H0'.
    apply (ahead_skip_whitespace_and_comments p1 (NL :: IND4)
             (prop_body kv (props_text ps ++ R)) NL_IND4_space eq_refl) in H0'.
    rewrite (ahead_remaining _ _ H0'). unfold prop_body. cbn [List.length].
    rewrite !length_app. cbn [List.length]. rewrite !length_app.
    pose proof (props_text_length ps). simpl. rewrite ?length_app. lia. }
  destruct (parse_properties_loop_written (properties e) _ (Entity_init [] [] []) p1 R
              Hps F1 (closes_properties_brushes _ _) H0) as [p2 [E2 H2]].
  rewrite E2. cbn [bind]. clear E2.
  assert (F2 : List.length (brushes e)
               <= plen (_skip_whitespace_and_comments p2) - pos (_skip_whitespace_and_comments p2)).
  { destruct (brushes e) as [|b bs] eqn:E; [simpl; lia|].
    pose proof H2 as H2'. unfold R in H2'. rewrite brushes_text_cons in H2'.
    apply (ahead_skip_whitespace_and_comments p2 (NL :: IND4)
             (brush_body b (brushes_text bs ++ NL :: "}"%char :: rest))
             NL_IND4_space eq_refl) in H2'.
    rewrite (ahead_remaining _ _ H2'). unfold brush_body. cbn [List.length].
    rewrite !length_app. cbn [List.length]. rewrite !length_app.
    pose proof (brushes_text_length bs). simpl. rewrite ?length_app. lia. }
  destruct (parse_brushes_loop_exact (brushes e) _
              (set_properties (properties e) (Entity_init [] [] [])) p2 rest Hbs F2 H2)
    as [p3 [E3 H3]].
  rewrite E3. cbn [bind]. clear E3.
  destruct (ahead_expect _ _ _ H3) as [E4 H4]. rewrite E4. cbn [bind].
  exists (snd (_advance p3)). split; [|exact H4].
  do 2 f_equal. unfold with_brushes, reread_entity.
  destruct (set_properties_fresh (properties e) (Entity_init [] [] [])) as [P B];
    [exact Hu|].
  pose proof (set_properties_mirrors (properties e) (Entity_init [] [] []) eq_refl) as M.
  unfold classname_mirrors in M. rewrite M, P, B. reflexivity.
Qed.

Lemma parse_loop_exact (es : list Entity) :
  forall (fuel : nat) (m : MapFile) (p : Parser) (w tl : str),
    Forall (fun c => isspace c = true) w ->
    Forall (fun c => isspace c = true) tl ->
    forallb entity_ready es = true -> List.length es <= fuel ->
    ahead p (entities_text w es ++ tl) ->
    parse_loop fuel m (_skip_whitespace_and_comments p)
    = Ok {| entities := entities m ++ map reread_entity es |}.
Proof.
  induction es as [|e es IH]; intros fuel m p w tl Hw Htl Hr Hfuel H.
  - cbn [entities_text app] in H.
    rewrite <- (app_nil_r tl) in H.
    apply (ahead_skip_whitespace_and_comments p tl [] Htl I) in H.
    rewrite (parse_loop_end fuel m _ H). cbn [map]. rewrite app_nil_r. destruct m.
    reflexivity.
  - cbn [forallb] in Hr. apply andb_true_iff in Hr. destruct Hr as [He Hr].
    destruct fuel as [|fuel]; [simpl in Hfuel; lia|].
    cbn [entities_text] in H. rewrite <- !app_assoc in H.
    destruct (write_entity_starts e 0 (tail_text es ++ tl)) as [t Et].
    pose proof H as H'. rewrite Et in H'.
    apply (skip_at_brace p w t Hw) in H'.
    pose proof (skip_at_brace _ [] t (Forall_nil _) H') as H''.
    cbn [parse_loop]. rewrite (ahead_in_source _ _ _ H').
    set (q := _skip_whitespace_and_comments (_skip_whitespace_and_comments p)) in *.
    assert (Hin : (plen q <=? pos q) = false).
    { apply Nat.leb_gt. apply Nat.ltb_lt. exact (ahead_in_source _ _ _ H''). }
    rewrite Hin, (ahead_peek _ _ _ H''), ascii_eqb_refl.
    rewrite <- Et in H''.
    destruct (parse_entity_exact q e 0 (tail_text es ++ tl) He H'') as [p1 [E1 H1]].
    rewrite E1. cbn [bind].
    rewrite tail_text_entities_text in H1.
    rewrite (IH fuel (fst (MapFile_add_entity m (reread_entity e))) p1 [NL; NL] tl);
      [| repeat constructor | exact Htl | exact Hr | simpl in Hfuel; lia | exact H1].
    cbn [MapFile_add_entity fst entities map]. rewrite <- app_assoc. reflexivity.
Qed.

Lemma written_text_parses (m : MapFile) (tl : str) :
  document_ready m = true -> Forall (fun c => isspace c = true) tl ->
  parse_map (write_map_to_string m ++ tl) = Ok (reread_document m).
Proof.
  intros Hr Htl. unfold parse_map, MapParser_parse.
  pose proof (ahead_init (write_map_to_string m ++ tl)) as H0.
  rewrite write_map_to_string_text in H0 at 2.
  set (p0 := MapParser_init (write_map_to_string m ++ tl)) in *.
  assert (F : List.length (entities m)
              <= plen (_skip_whitespace_and_comments p0) - pos (_skip_whitespace_and_comments p0)).
  { destruct (entities m) as [|e es] eqn:E; [simpl; lia|].
    pose proof H0 as H0'. cbn [entities_text app] in H0'. rewrite <- !app_assoc in H0'.
    destruct (write_entity_starts e 0 (tail_text es ++ tl)) as [t Et]. rewrite Et in H0'.
    apply (skip_at_brace p0 [] t (Forall_nil _)) in H0'.
    rewrite (ahead_remaining _ _ H0'), <- Et, !length_app.
    destruct (write_entity_starts e 0 []) as [t0 Et0]. rewrite app_nil_r in Et0.
    rewrite Et0. pose proof (tail_text_length es). simpl. lia. }
  cbv zeta.
  rewrite (parse_loop_exact (entities m) _ {| entities := [] |} p0 [] tl
             (Forall_nil _) Htl Hr F H0).
  reflexivity.
Qed.

(** X19. A document whose property keys and values hold no double quote,
    whose face textures are bare tokens and whose numbers are written in a
    form that reads back (as those of every binary64 float are) is read back
    from its written text entity by entity: the same properties in the same
    order, the same brushes and faces with the same textures, every number
    replaced by the float read from its written form, and the classname
    taken from the ["classname"] property. *)
Theorem written_document_reads_back_in_full (m : MapFile) :
  document_ready m = true ->
  parse_map (write_map_to_string m) = Ok (reread_document m).
Proof.
  intro Hr. rewrite <- (app_nil_r (write_map_to_string m)).
  apply written_text_parses; [exact Hr | constructor].
Qed.

Lemma written_document_reads_back_witness :
  parse_map (write_map_to_string sample_document) = Ok (reread_document sample_document).
Proof. apply written_document_reads_back_in_full. vm_compute. reflexivity. Defined.



(** X21. Every float within the binary64 bounds is written by
    [format_float] as a text that [float] reads, and the float read is
    written as the same text again: formatting settles after one cycle. *)
Theorem format_float_settles (v : float) :
  in_binary64 v ->
  exists w, PyFloat.of_str (format_float v) = Some w
            /\ format_float w = format_float v
            /\ reread_number v = w.
Proof.
  intro H. pose proof (binary64_is_stable v H) as S. unfold stable_number in S.
  unfold reread_number.
  destruct (PyFloat.of_str (format_float v)) as [w|]; [|discriminate S].
  exists w. split; [reflexivity|]. split; [apply str_eqb_eq; exact S | reflexivity].
Qed.

Lemma format_float_settles_witness :
  exists w, PyFloat.of_str (format_float (PyFloat.of_decimal false 1 (-1))) = Some w
            /\ format_float w = format_float (PyFloat.of_decimal false 1 (-1))
            /\ reread_number (PyFloat.of_decimal false 1 (-1)) = w.
Proof.
  apply format_float_settles. vm_compute. split; [reflexivity | split; discriminate].
Defined.

(** ** Origins written and read *)

Open Scope Z_scope.

Lemma digits2_of_range (q : positive) (k : Z) :
  2 ^ (k - 1) <= Zpos q < 2 ^ k -> Zpos (digits2_pos q) = k.
Proof.
  intro H. pose proof (digits2_bounds q) as B.
  set (d := Zpos (digits2_pos q)) in *.
  assert (Hk : 0 < k).
  { destruct (Z_lt_le_dec 0 k) as [L|L]; [exact L | exfalso].
    destruct (Z.eq_dec k 0) as [E|E].
    - subst k. change (2 ^ 0) with 1 in H. lia.
    - rewrite (Z.pow_neg_r 2 k) in H by lia. lia. }
  destruct (Z.lt_trichotomy d k) as [L|[L|L]]; [exfalso | exact L | exfalso].
  - assert (M : 2 ^ d <= 2 ^ (k - 1)) by (apply Z.pow_le_mono_r; lia). lia.
  - assert (M : 2 ^ k <= 2 ^ (d - 1)) by (apply Z.pow_le_mono_r; lia). lia.
Qed.

(** [float(str(n))] for a non-zero integer below [2^53] in magnitude is the
    float that holds [n] exactly. *)
Lemma of_ratio_integer (neg : bool) (p : positive) :
  Zpos p < 2 ^ 53 ->
  exists m E, PyFloat.of_ratio neg p 1 = S754_finite neg m E
              /\ Zpos (digits2_pos m) = 53 /\ -52 <= E <= 0
              /\ Zpos m = Zpos p * 2 ^ (- E).
Proof.
  intro Hp. pose proof (digits2_bounds p) as B.
  set (d := Zpos (digits2_pos p)) in *.
  assert (Hd : 1 <= d <= 53).
  { split; [unfold d; lia|].
    destruct (Z_le_gt_dec d 53) as [L|L]; [exact L | exfalso].
    assert (M : 2 ^ 53 <= 2 ^ (d - 1)) by (apply Z.pow_le_mono_r; lia). lia. }
  assert (EQ : Zpos p * pow2 1127 / Zpos 1 = Zpos (Pos.iter xO p 1127)).
  { rewrite Z.div_1_r, iter_xO_value. reflexivity. }
  rewrite of_ratio_eq by (rewrite EQ; lia).
  rewrite EQ. cbn [Zdigits2]. rewrite iter_xO_digits. fold d.
  replace (Z.max (d + 1127 - 1180) (-1074)) with (d - 53) by lia.
  assert (S : pow2 1074 = pow2 (53 - d) * pow2 (d - 53 + 1074)).
  { rewrite <- pow2_add by lia. f_equal. lia. }
  rewrite S.
  replace (Zpos p * (pow2 (53 - d) * pow2 (d - 53 + 1074)))
    with (Zpos p * pow2 (53 - d) * (1 * pow2 (d - 53 + 1074))) by ring.
  change (Zpos 1 * pow2 (d - 53 + 1074)) with (1 * pow2 (d - 53 + 1074)).
  rewrite rne_div_exact by (pose proof (pow2_positive (d - 53 + 1074) ltac:(lia)); lia).
  pose proof (pow2_positive (53 - d) ltac:(lia)) as P.
  assert (U : pow2 (d - 1) * pow2 (53 - d) = pow2 52)
    by (rewrite <- pow2_add by lia; f_equal; lia).
  assert (V : pow2 d * pow2 (53 - d) = pow2 53)
    by (rewrite <- pow2_add by lia; f_equal; lia).
  fold (pow2 (d - 1)) (pow2 d) in B.
  assert (R : pow2 52 <= Zpos p * pow2 (53 - d) < pow2 53) by nia.
  destruct (Zpos p * pow2 (53 - d)) as [|m|m] eqn:M; try lia.
  destruct (Z.eqb_spec (Zpos m) (pow2 53)) as [T|T]; [lia|].
  rewrite finite_or_inf_finite by lia.
  exists m, (d - 53). split; [reflexivity|].
  split; [apply digits2_of_range; exact R|]. split; [lia|].
  replace (- (d - 53)) with (53 - d) by lia. symmetry. exact M.
Qed.

Definition int_text_float (z : Z) : float :=
  PyFloat.of_decimal (z <? 0) (Z.abs_N z) 0.

Lemma int_text_float_of_Z (z : Z) : Z.abs z < 2 ^ 53 -> int_text_float z = PyFloat.of_Z z.
Proof.
  intro H. unfold int_text_float, PyFloat.of_decimal.
  destruct z as [|p|p]; [reflexivity| |].
  - cbn [Z.abs_N Z.abs N.of_nat Z.ltb Z.compare].
    change (Z.to_pos (10 ^ 0)) with 1%positive. rewrite Pos.mul_1_r.
    destruct (of_ratio_integer false p H) as [m [E [Ef [Hd [HE Hm]]]]].
    apply (repr_unique _ _ (Zpos p)).
    + exists m, E. repeat split; try assumption; lia.
    + apply of_Z_repr; [discriminate | exact H].
  - cbn [Z.abs_N Z.abs N.of_nat Z.ltb Z.compare].
    change (Z.to_pos (10 ^ 0)) with 1%positive. rewrite Pos.mul_1_r.
    destruct (of_ratio_integer true p H) as [m [E [Ef [Hd [HE Hm]]]]].
    apply (repr_unique _ _ (Zneg p)).
    + exists m, E. repeat split; try assumption; lia.
    + apply of_Z_repr; [discriminate | exact H].
Qed.

Close Scope Z_scope.

Lemma str_of_Z_text (z : Z) :
  str_of_Z z = decimal_text (z <? 0)%Z (str_of_N (Z.abs_N z)) [].
Proof.
  unfold str_of_Z, decimal_text. destruct z as [|p|p]; cbn [Z.ltb Z.compare app];
    rewrite app_nil_r; reflexivity.
Qed.

Lemma float_of_int_text (z : Z) : float_of_str (str_of_Z z) = Ok (int_text_float z).
Proof.
  unfold float_of_str. rewrite str_of_Z_text.
  rewrite of_str_decimal_text;
    [| apply str_of_N_nonempty | apply str_of_N_digits | constructor].
  rewrite app_nil_r, digits_val_str_of_N. reflexivity.
Qed.

Lemma float_char_not_isspace (c : ascii) : float_char c = true -> isspace c = false.
Proof. destruct c as [[] [] [] [] [] [] [] []]; intro H; try discriminate H; reflexivity. Qed.

Lemma str_of_Z_word (z : Z) :
  str_of_Z z <> [] /\ Forall (fun c => isspace c = false) (str_of_Z z).
Proof.
  assert (D : Forall (fun c => isspace c = false) (str_of_N (Z.abs_N z))).
  { eapply Forall_impl; [|apply str_of_N_digits].
    intros c Hc. apply float_char_not_isspace, digit_is_float_char. exact Hc. }
  rewrite str_of_Z_text. unfold decimal_text. rewrite app_nil_r. split.
  - pose proof (str_of_N_nonempty (Z.abs_N z)) as N.
    destruct (z <? 0)%Z; [discriminate|]. exact N.
  - apply Forall_app. split; [destruct (z <? 0)%Z; repeat constructor | exact D].
Qed.

Lemma split_ws_aux_word (t : str) :
  forall (cur rest : str),
    Forall (fun c => isspace c = false) t ->
    split_ws_aux cur (t ++ rest) = split_ws_aux (rev t ++ cur) rest.
Proof.
  induction t as [|c t IH]; intros cur rest H; [reflexivity|].
  inversion H as [|? ? Hc Ht]; subst. cbn [app split_ws_aux]. rewrite Hc.
  rewrite IH by exact Ht. cbn [rev]. rewrite <- app_assoc. reflexivity.
Qed.

Lemma split_ws_three (a b c : str) :
  a <> [] -> b <> [] -> c <> [] ->
  Forall (fun d => isspace d = false) a ->
  Forall (fun d => isspace d = false) b ->
  Forall (fun d => isspace d = false) c ->
  split_ws (a ++ lit " " ++ b ++ lit " " ++ c) = [a; b; c].
Proof.
  intros Na Nb Nc Ha Hb Hc. unfold split_ws.
  assert (R : forall t : str, t <> [] -> rev t ++ [] <> []).
  { intros t Nt E. rewrite app_nil_r in E. apply (f_equal (@rev ascii)) in E.
    rewrite rev_involutive in E. exact (Nt E). }
  rewrite split_ws_aux_word by exact Ha.
  cbn [lit list_ascii_of_string app split_ws_aux isspace].
  change (isspace " "%char) with true. cbv iota.
  destruct (rev a ++ []) as [|x xs] eqn:Ea; [exact (False_ind _ (R a Na Ea))|].
  rewrite <- Ea, app_nil_r, rev_involutive.
  rewrite split_ws_aux_word by exact Hb.
  cbn [app split_ws_aux]. change (isspace " "%char) with true. cbv iota.
  destruct (rev b ++ []) as [|y ys] eqn:Eb; [exact (False_ind _ (R b Nb Eb))|].
  rewrite <- Eb, app_nil_r, rev_involutive.
  rewrite <- (app_nil_r c), split_ws_aux_word by exact Hc.
  cbn [split_ws_aux].
  destruct (rev c ++ []) as [|u us] eqn:Ec; [exact (False_ind _ (R c Nc Ec))|].
  rewrite <- Ec, !app_nil_r, rev_involutive. reflexivity.
Qed.

Lemma origin_of_set_origin_text (e : Entity) (ix iy iz : Z) :
  Entity_origin
    {| classname := classname e;
       properties := dict_set (properties e) (lit "origin")
                       (str_of_Z ix ++ lit " " ++ str_of_Z iy ++ lit " " ++ str_of_Z iz);
       brushes := brushes e |}
  = Ok (Some {| x := int_text_float ix; y := int_text_float iy; z := int_text_float iz |}).
Proof.
  unfold Entity_origin. cbn [properties]. rewrite dict_get_set_same. cbv zeta.
  rewrite split_ws_three; try apply str_of_Z_word.
  cbn [List.length Nat.leb nth]. rewrite !float_of_int_text. reflexivity.
Qed.

Lemma set_origin_then_origin (e : Entity) (v : Vec3) (ix iy iz : Z) :
  PyFloat.to_int (x v) = Ok ix -> PyFloat.to_int (y v) = Ok iy ->
  PyFloat.to_int (z v) = Ok iz ->
  (Z.abs ix < 2 ^ 53)%Z -> (Z.abs iy < 2 ^ 53)%Z -> (Z.abs iz < 2 ^ 53)%Z ->
  exists e', Entity_set_origin e v = Ok e'
             /\ Entity_origin e' = Ok (Some (vec ix iy iz))
             /\ brushes e' = brushes e.
Proof.
  intros Hx Hy Hz Bx By Bz. unfold Entity_set_origin. rewrite Hx, Hy, Hz. cbn [bind].
  eexists. split; [reflexivity|]. split; [|reflexivity].
  rewrite origin_of_set_origin_text, !int_text_float_of_Z by assumption. reflexivity.
Qed.

(** X22. Setting the origin and getting it back: when [int] of the three
    coordinates returns (they are neither NaN nor infinite) integers below
    [2^53] in magnitude, the setter succeeds and the getter then returns
    the vector of these integers, whatever brushes the entity has. *)
Theorem origin_after_set_origin (e : Entity) (v : Vec3) (ix iy iz : Z) :
  PyFloat.to_int (x v) = Ok ix -> PyFloat.to_int (y v) = Ok iy ->
  PyFloat.to_int (z v) = Ok iz ->
  (Z.abs ix < 2 ^ 53)%Z -> (Z.abs iy < 2 ^ 53)%Z -> (Z.abs iz < 2 ^ 53)%Z ->
  exists e', Entity_set_origin e v = Ok e'
             /\ Entity_origin e' = Ok (Some (vec ix iy iz))
             /\ brushes e' = brushes e.
Proof. apply set_origin_then_origin. Qed.

Lemma origin_after_set_origin_witness :
  exists e', Entity_set_origin (sample_entity "light")
               {| x := PyFloat.of_decimal false 105 (-1);
                  y := PyFloat.of_Z (-20); z := PyFloat.zero |} = Ok e'
             /\ Entity_origin e' = Ok (Some (vec 10 (-20) 0))
             /\ brushes e' = brushes (sample_entity "light").
Proof.
  apply origin_after_set_origin; try reflexivity; vm_compute; reflexivity.
Defined.

(** X23. After [move_to(target)] the origin getter returns the target,
    truncated to integers, and the entity has as many brushes as before:
    this holds for every entity whose origin getter returns, with or
    without brushes, when the target coordinates truncate to integers below
    [2^53] in magnitude. *)
Theorem origin_after_move_to (e : Entity) (cur : option Vec3) (target : Vec3) (ix iy iz : Z) :
  Entity_origin e = Ok cur ->
  PyFloat.to_int (x target) = Ok ix -> PyFloat.to_int (y target) = Ok iy ->
  PyFloat.to_int (z target) = Ok iz ->
  (Z.abs ix < 2 ^ 53)%Z -> (Z.abs iy < 2 ^ 53)%Z -> (Z.abs iz < 2 ^ 53)%Z ->
  exists e', Entity_move_to e target = Ok e'
             /\ Entity_origin e' = Ok (Some (vec ix iy iz))
             /\ List.length (brushes e') = List.length (brushes e)
             /\ classname e' = classname e.
Proof.
  intros Ho Hx Hy Hz Bx By Bz. unfold Entity_move_to. rewrite Ho. cbn [bind]. cbv zeta.
  set (moved := match cur with
                | Some c => match brushes e with
                            | [] => e
                            | _ :: _ => _
                            end
                | None => e
                end).
  destruct (set_origin_then_origin moved target ix iy iz Hx Hy Hz Bx By Bz)
    as [e' [E1 [E2 E3]]].
  exists e'. split; [exact E1|]. split; [exact E2|].
  assert (C : classname e' = classname moved).
  { unfold Entity_set_origin in E1. rewrite Hx, Hy, Hz in E1. cbn [bind] in E1.
    inversion E1. reflexivity. }
  rewrite E3, C. unfold moved.
  destruct cur as [c|]; [|split; reflexivity].
  destruct (brushes e) as [|b bs] eqn:B; [rewrite B; split; reflexivity|].
  cbn [brushes classname]. rewrite length_map. split; reflexivity.
Qed.

Lemma origin_after_move_to_witness :
  exists e', Entity_move_to (sample_entity "light") (vec 100 0 0) = Ok e'
             /\ Entity_origin e' = Ok (Some (vec 100 0 0))
             /\ List.length (brushes e') = List.length (brushes (sample_entity "light"))
             /\ classname e' = classname (sample_entity "light").
Proof.
  apply (origin_after_move_to _ None); try reflexivity; vm_compute; reflexivity.
Defined.

(** ** The written form of a number *)

Lemma rstrip_length (chars s : str) : List.length (rstrip chars s) <= List.length s.
Proof.
  destruct (rstrip_split chars s) as [t [H _]].
  rewrite H at 2. rewrite length_app. lia.
Qed.

Lemma fixed6_stripped_fraction (s : bool) (n : N) :
  exists fr,
    rstrip (lit ".") (rstrip (lit "0") (PyFloat.fixed6 s n))
    = decimal_text s (str_of_N (n / 1000000)%N) fr
    /\ all_digits fr /\ List.length fr <= 6
    /\ (fr = [] \/ exists u c, fr = u ++ [c] /\ c <> "0"%char).
Proof.
  destruct (rstrip_split (lit "0") (PyFloat.fixed_digits 6 (n mod 1000000)%N))
    as [t [H1 [H2 H3]]].
  set (ds := PyFloat.fixed_digits 6 (n mod 1000000)%N) in *.
  exists (rstrip (lit "0") ds).
  assert (Hfr : all_digits (rstrip (lit "0") ds)).
  { apply rstrip_Forall. apply fixed_digits_digits. }
  assert (Hlen : List.length (rstrip (lit "0") ds) <= 6).
  { pose proof (rstrip_length (lit "0") ds) as L. unfold ds in L at 2.
    rewrite fixed_digits_length in L. exact L. }
  assert (Hlast : rstrip (lit "0") ds = []
                  \/ exists u c, rstrip (lit "0") ds = u ++ [c] /\ c <> "0"%char).
  { destruct H3 as [H3|[u [c [H3 H4]]]]; [left; exact H3 | right].
    exists u, c. split; [exact H3|]. intro E. subst c. discriminate H4. }
  split; [|split; [exact Hfr | split; [exact Hlen | exact Hlast]]].
  destruct (exists_last (str_of_N_nonempty (n / 1000000)%N)) as [X0 [d E]].
  assert (Hd : PyFloat.is_digit d = true).
  { pose proof (str_of_N_digits (n / 1000000)%N) as H. rewrite E in H.
    apply Forall_app in H. destruct H as [_ H]. inversion H. assumption. }
  unfold PyFloat.fixed6, decimal_text. fold ds. rewrite E.
  replace ((if s then lit "-" else []) ++ (X0 ++ [d]) ++ lit "." ++ ds)
    with ((((if s then lit "-" else []) ++ X0) ++ [d]) ++ "."%char :: ds)
    by (repeat rewrite <- app_assoc; reflexivity).
  rewrite rstrip_keep by reflexivity.
  destruct H3 as [H3|[u [c [H3 H4]]]]; rewrite H3.
  - rewrite <- app_assoc. cbn [app].
    rewrite rstrip_keep by (apply digit_is_not_dot; exact Hd).
    change (rstrip (lit ".") ["."%char]) with (@nil ascii).
    rewrite app_nil_r, <- !app_assoc. reflexivity.
  - assert (Hc : PyFloat.is_digit c = true).
    { unfold all_digits in Hfr. rewrite H3 in Hfr. apply Forall_app in Hfr.
      destruct Hfr as [_ Hfr]. inversion Hfr. assumption. }
    replace ((((if s then lit "-" else []) ++ X0) ++ [d]) ++ "."%char :: u ++ [c])
      with (((((if s then lit "-" else []) ++ X0) ++ [d]) ++ "."%char :: u) ++ [c])
      by (repeat rewrite <- app_assoc; reflexivity).
    rewrite rstrip_keep by (apply digit_is_not_dot; exact Hc).
    change (rstrip (lit ".") []) with (@nil ascii).
    destruct (u ++ [c]) as [|c0 r0] eqn:Eu; [destruct u; discriminate Eu|].
    rewrite <- Eu. repeat rewrite <- app_assoc. reflexivity.
Qed.

(** X24. [format_float] writes a plain decimal, never an exponent: for a
    finite float an optional minus sign, at least one integer digit and,
    only when a fraction is left, a point and at most six fraction digits
    the last of which is not 0.  Zeros are written [0] or [-0], and the
    special values [nan], [inf] and [-inf]. *)
Theorem format_float_writes_a_plain_decimal (v : float) :
  match v with
  | S754_nan => format_float v = lit "nan"
  | S754_infinity s => format_float v = if s then lit "-inf" else lit "inf"
  | S754_zero s => format_float v = if s then lit "-0" else lit "0"
  | S754_finite s _ _ =>
      exists ip fr,
        format_float v = decimal_text s ip fr
        /\ ip <> [] /\ all_digits ip /\ all_digits fr /\ List.length fr <= 6
        /\ (fr = [] \/ exists u c, fr = u ++ [c] /\ c <> "0"%char)
  end.
Proof.
  destruct v as [s|s| |s m e]; try (destruct s; reflexivity); try reflexivity.
  rewrite format_float_finite.
  destruct (fixed6_stripped_fraction s (Z.to_N (PyFloat.scaled_round m e)))
    as [fr [E [Hfr [Hlen Hlast]]]].
  eexists. exists fr. split; [exact E|].
  split; [apply str_of_N_nonempty|]. split; [apply str_of_N_digits|].
  split; [exact Hfr|]. split; [exact Hlen | exact Hlast].
Qed.

(** ** Unclosed entities *)



(** ** Setting a property twice *)

Lemma dict_set_twice (d : dict) (k v1 v2 : str) :
  dict_set (dict_set d k v1) k v2 = dict_set d k v2.
Proof.
  induction d as [|[k' v'] d IH]; cbn [dict_set].
  - rewrite str_eqb_refl. reflexivity.
  - destruct (str_eqb k' k) eqn:E; cbn [dict_set]; rewrite E; [reflexivity|].
    rewrite IH. reflexivity.
Qed.

(** X26. The last value set for a key wins: setting a property twice is
    setting it once to the second value, for the property map and for the
    classname field alike. *)
Theorem set_property_twice (e : Entity) (k v1 v2 : str) :
  Entity_set_property (Entity_set_property e k v1) k v2 = Entity_set_property e k v2.
Proof.
  unfold Entity_set_property. cbn [classname properties brushes].
  rewrite dict_set_twice. destruct (str_eqb k (lit "classname")); reflexivity.
Qed.

(** ** The origin property *)

(** X27. An ["origin"] property with three or more fields decides the origin
    getter alone: it returns the floats of the first three fields, ignoring
    further fields and the brushes, and it raises [ValueError] when one of
    the three is not a number; [move_to] then raises it as well. *)
Theorem origin_property_with_three_fields
        (e : Entity) (s a b c : str) (more : list str) (target : Vec3) :
  dict_get (properties e) (lit "origin") = Some s ->
  split_ws s = a :: b :: c :: more ->
  match PyFloat.of_str a, PyFloat.of_str b, PyFloat.of_str c with
  | Some fx, Some fy, Some fz =>
      Entity_origin e = Ok (Some {| x := fx; y := fy; z := fz |})
  | _, _, _ =>
      Entity_origin e = Raise ValueError /\ Entity_move_to e target = Raise ValueError
  end.
Proof.
  intros Hs Hf.
  assert (E : Entity_origin e
              = (cx <- float_of_str a ;; cy <- float_of_str b ;; cz <- float_of_str c ;;
                 Ok (Some {| x := cx; y := cy; z := cz |}))).
  { unfold Entity_origin. rewrite Hs. cbv zeta. rewrite Hf. reflexivity. }
  unfold Entity_move_to. rewrite E. unfold float_of_str.
  destruct (PyFloat.of_str a) as [fx|]; cbn [bind]; [|split; reflexivity].
  destruct (PyFloat.of_str b) as [fy|]; cbn [bind]; [|split; reflexivity].
  destruct (PyFloat.of_str c) as [fz|]; cbn [bind]; [|split; reflexivity].
  reflexivity.
Qed.

Lemma origin_property_with_three_fields_witness :
  Entity_origin {| classname := lit "light";
                   properties := [(lit "origin", lit "1 2 three 4")];
                   brushes := [] |} = Raise ValueError
  /\ Entity_move_to {| classname := lit "light";
                       properties := [(lit "origin", lit "1 2 three 4")];
                       brushes := [] |} Vec3_zero = Raise ValueError.
Proof.
  apply (origin_property_with_three_fields
           {| classname := lit "light";
              properties := [(lit "origin", lit "1 2 three 4")];
              brushes := [] |}
           (lit "1 2 three 4") (lit "1") (lit "2") (lit "three") [lit "4"] Vec3_zero);
    reflexivity.
Defined.
